(** * Kanban task manager: the state-and-reducer core

    A shallow embedding of the drag identifier codec
    ([boardDndUtils.ts]), the drag-end handler of [BoardView.tsx], the
    compatibility transform of [services/boards.ts], the zustand store
    ([useStore.ts]) with the hydration controller and persistence mirror
    ([StoreHydration.tsx]), and the minimum-duration busy keys of
    [UiContext.tsx]. *)

From Stdlib Require Import ZArith Ascii String DecimalString DecimalNat Lia.
From stdpp Require Import base option list gmap strings.

Local Open Scope string_scope.
Local Open Scope Z_scope.
Local Open Scope nat_scope.
Local Open Scope list_scope.

(** ** JavaScript strings and numbers

    A JS string is modelled as a [string]: a sequence of code units, of
    which only the ASCII range matters to the codec (the delimiter, the
    digits, the sign and white space are all ASCII). *)

Module Js.

(** The result of [parseInt]: [NaN] or an integer. *)
Inductive number : Type :=
| NaN : number
| Num : Z → number.

(** [a === b] on numbers: [NaN] is different from everything. *)
Definition strict_eq (a b : number) : bool :=
  match a, b with
  | Num x, Num y => Z.eqb x y
  | _, _ => false
  end.

Definition is_colon (c : ascii) : bool := Ascii.eqb c ":".

Definition cons_head (c : ascii) (parts : list string) : list string :=
  match parts with
  | p :: ps => String c p :: ps
  | [] => [String c ""]
  end.

(** [s.split('::')]: the separator is searched left to right and the
    occurrences found do not overlap. *)
Fixpoint split (s : string) : list string :=
  match s with
  | EmptyString => [""]
  | String c rest =>
      match rest with
      | String d rest' =>
          if is_colon c && is_colon d
          then "" :: split rest'
          else cons_head c (split rest)
      | EmptyString => [String c ""]
      end
  end.

(** [parts.join('::')]. *)
Fixpoint join (parts : list string) : string :=
  match parts with
  | [] => ""
  | [p] => p
  | p :: ps => p +:+ "::" +:+ join ps
  end.

(** [StrWhiteSpaceChar] within the Latin-1 range: TAB, LF, VT, FF, CR,
    SP and NBSP. *)
Definition is_white (c : ascii) : bool :=
  let n := nat_of_ascii c in
  ((9 <=? n) && (n <=? 13)) || (n =? 32) || (n =? 160).

Definition digit_of (c : ascii) : option nat :=
  let n := nat_of_ascii c in
  if (48 <=? n) && (n <=? 57) then Some (n - 48) else None.

Fixpoint trim_start (s : string) : string :=
  match s with
  | String c rest => if is_white c then trim_start rest else s
  | EmptyString => s
  end.

(** The longest prefix of decimal digits, accumulated left to right;
    [None] when the string does not start with a digit. *)
Fixpoint digits_from (acc : nat) (seen : bool) (s : string) : option nat :=
  match s with
  | String c rest =>
      match digit_of c with
      | Some d => digits_from (10 * acc + d) true rest
      | None => if seen then Some acc else None
      end
  | EmptyString => if seen then Some acc else None
  end.

(** [parseInt(s, 10)]: leading white space is skipped, one sign is
    accepted, then the longest run of digits is read and whatever
    follows is ignored. With no digit the result is [NaN]. *)
Definition parseInt (s : string) : number :=
  match trim_start s with
  | String c rest =>
      if Ascii.eqb c "-" then
        match digits_from 0 false rest with
        | Some n => Num (- Z.of_nat n)%Z
        | None => NaN
        end
      else if Ascii.eqb c "+" then
        match digits_from 0 false rest with
        | Some n => Num (Z.of_nat n)
        | None => NaN
        end
      else
        match digits_from 0 false (String c rest) with
        | Some n => Num (Z.of_nat n)
        | None => NaN
        end
  | EmptyString => NaN
  end.

(** [`${n}`] for a non-negative integer [n] (an array index). *)
Definition of_index (n : nat) : string :=
  NilEmpty.string_of_uint (Nat.to_uint n).

(** *** Predicates on strings used to state the codec's properties *)

(** The number of delimiter occurrences met by a left-to-right scan
    (occurrences do not overlap). *)
Fixpoint count_delim (s : string) : nat :=
  match s with
  | EmptyString => 0
  | String c rest =>
      match rest with
      | String d rest' =>
          if is_colon c && is_colon d then S (count_delim rest')
          else count_delim rest
      | EmptyString => 0
      end
  end.

(** The text before the first delimiter occurrence. *)
Fixpoint first_segment (s : string) : string :=
  match s with
  | EmptyString => ""
  | String c rest =>
      match rest with
      | String d _ =>
          if is_colon c && is_colon d then ""
          else String c (first_segment rest)
      | EmptyString => String c ""
      end
  end.

(** [s] contains the delimiter. *)
Fixpoint contains_delim (s : string) : bool :=
  match s with
  | EmptyString => false
  | String c rest =>
      match rest with
      | String d _ => (is_colon c && is_colon d) || contains_delim rest
      | EmptyString => false
      end
  end.

(** [s] neither contains the delimiter nor ends in a colon. *)
Fixpoint delim_free (s : string) : bool :=
  match s with
  | EmptyString => true
  | String c rest =>
      match rest with
      | String d _ => negb (is_colon c && is_colon d) && delim_free rest
      | EmptyString => negb (is_colon c)
      end
  end.

Definition is_digit (c : ascii) : bool := bool_decide (is_Some (digit_of c)).

Fixpoint all_digits (s : string) : bool :=
  match s with
  | EmptyString => true
  | String c rest => is_digit c && all_digits rest
  end.

(** A decimal numeral: one or more digits, after an optional minus sign. *)
Definition is_numeral (s : string) : bool :=
  match s with
  | EmptyString => false
  | String c rest =>
      if Ascii.eqb c "-"
      then negb (String.eqb rest "") && all_digits rest
      else all_digits s
  end.

Definition strip_sign (s : string) : string :=
  match s with
  | String c rest =>
      if Ascii.eqb c "-" || Ascii.eqb c "+" then rest else s
  | EmptyString => s
  end.

(** [s], after leading white space and one optional sign, begins with a
    decimal digit. *)
Definition starts_with_digit (s : string) : bool :=
  match s with
  | String c _ => is_digit c
  | EmptyString => false
  end.

Definition leading_digit (s : string) : bool :=
  starts_with_digit (strip_sign (trim_start s)).

End Js.

(** ** The drag identifier codec ([boardDndUtils.ts]) *)

Module BoardDndUtils.

Record TaskRef : Type := mkTaskRef {
  tr_boardIndex : Js.number;
  tr_columnName : string;
  tr_taskTitle : string
}.

Record ColumnRef : Type := mkColumnRef {
  cr_boardIndex : Js.number;
  cr_columnName : string
}.

Definition encodeTaskId (boardIndex : nat) (columnName taskTitle : string)
  : string :=
  Js.of_index boardIndex +:+ "::" +:+ columnName +:+ "::" +:+ taskTitle.

Definition decodeTaskId (id : string) : option TaskRef :=
  let parts := Js.split id in
  if length parts <? 3 then None
  else
    Some {| tr_boardIndex := Js.parseInt (nth 0 parts "");
            tr_columnName := nth 1 parts "";
            tr_taskTitle := Js.join (drop 2 parts) |}.

Definition encodeColumnId (boardIndex : nat) (columnName : string) : string :=
  Js.of_index boardIndex +:+ "::" +:+ columnName.

Definition decodeColumnId (id : string) : option ColumnRef :=
  let parts := Js.split id in
  if length parts <? 2 then None
  else
    Some {| cr_boardIndex := Js.parseInt (nth 0 parts "");
            cr_columnName := nth 1 parts "" |}.

End BoardDndUtils.

Import BoardDndUtils.

(** ** The data model ([types/types.ts]) *)

Module Types.

Record Subtask : Type := mkSubtask {
  sub_title : string;
  isCompleted : bool
}.

Record Task : Type := mkTask {
  task_id : string;
  task_title : string;
  task_description : option string;
  task_status : option string;
  task_subtasks : option (list Subtask)
}.

(** [RawTask = Omit<Task, 'id'> & { id?: string }]. *)
Record RawTask : Type := mkRawTask {
  raw_id : option string;
  raw_title : string;
  raw_description : option string;
  raw_status : option string;
  raw_subtasks : option (list Subtask)
}.

Record Column : Type := mkColumn {
  col_name : string;
  col_tasks : list Task
}.

Record Board : Type := mkBoard {
  board_name : string;
  board_columns : list Column
}.

Record BoardsState : Type := mkBoardsState {
  boards : list Board
}.

Inductive BoardsAction : Type :=
| ADD_BOARD (board : Board)
| UPDATE_BOARD (boardIndex : nat) (board : Board)
| DELETE_BOARD (boardIndex : nat)
| ADD_TASK (boardIndex : nat) (columnName : string) (task : Task)
| UPDATE_TASK (boardIndex : nat) (columnName taskTitle : string) (task : Task)
| DELETE_TASK (boardIndex : nat) (columnName taskTitle : string)
| REORDER_TASK (boardIndex : nat) (columnName : string) (fromIndex toIndex : nat)
| MOVE_TASK (boardIndex : nat) (fromColumn toColumn taskTitle : string)
| TOGGLE_SUBTASK (boardIndex : nat) (columnName taskTitle subtaskTitle : string)
| SET_BOARDS (boards : list Board)
| ADD_COLUMN (boardIndex : nat) (columnName : string).

Inductive ToastType : Type := success | error | info.

Record UiToast : Type := mkToast {
  toast_id : string;
  toast_type : ToastType;
  toast_message : string
}.

Record StoredUser : Type := mkUser {
  user_id : string;
  user_name : string;
  user_email : string
}.

Inductive Theme : Type := light | dark.

Definition set_status (toColumn : string) (t : Task) : Task :=
  {| task_id := task_id t; task_title := task_title t;
     task_description := task_description t;
     task_status := Some toColumn;
     task_subtasks := task_subtasks t |}.

Definition with_tasks (ts : list Task) (c : Column) : Column :=
  {| col_name := col_name c; col_tasks := ts |}.

Definition with_columns (cs : list Column) (b : Board) : Board :=
  {| board_name := board_name b; board_columns := cs |}.

(** [columns.find((c) => c.name === name)] together with its position. *)
Definition findColumn (name : string) (cs : list Column)
  : option (nat * Column) :=
  list_find (λ c, col_name c = name) cs.

(** [tasks.findIndex((task) => task.title === title)], [None] for -1. *)
Definition findTask (title : string) (ts : list Task) : option (nat * Task) :=
  list_find (λ t, task_title t = title) ts.

(** [sum(column.tasks.length)] over the columns of a board. *)
Definition taskCount (b : Board) : nat :=
  sum_list_with (λ c, length (col_tasks c)) (board_columns b).

End Types.

Import Types.

(** ** The action reducer ([utils/boardsReducer.ts])

    The reducer's own file is not among the sources: its test suite
    ([boardsReducer.test.ts]), the action type and its callers are. Every
    definition of this module is therefore modelled from section 4.1 of the
    spec. Each case yields [None] where the reducer hands back the very state
    object it was given (a no-op by reference) and [Some s] where it builds a
    new state. *)

Module BoardsReducer.

(** Modelled from the spec: [boardsReducer.ts] is missing. A new state in
    which board [bi] has the columns [cs] and all else is shared. *)
Definition setColumns (bi : nat) (b : Board) (cs : list Column)
    (st : BoardsState) : BoardsState :=
  {| boards := <[bi := with_columns cs b]> (boards st) |}.

(** Modelled from the spec: [boardsReducer.ts] is missing. A new state in
    which the column at position [ci] of board [bi] has the tasks [ts]. *)
Definition setTasks (bi : nat) (b : Board) (ci : nat) (c : Column)
    (ts : list Task) (st : BoardsState) : BoardsState :=
  setColumns bi b (<[ci := with_tasks ts c]> (board_columns b)) st.

(** Modelled from the spec: [boardsReducer.ts] is missing. Array
    splice-move: remove at [fromIndex], insert at [toIndex] in the resulting
    shorter array (an insertion point past the end is the end, as with
    [splice]). *)
Definition spliceMove {A} (fromIndex toIndex : nat) (moved : A) (l : list A)
  : list A :=
  let shorter := delete fromIndex l in
  take toIndex shorter ++ moved :: drop toIndex shorter.

(** Modelled from the spec: the body of [boardsReducer] for
    [REORDER_TASK] is not among the sources (only its test and its callers
    are). Section 4.1: move the task within the same column from position
    fromIndex to toIndex with array splice-move semantics; no-op if
    fromIndex equals toIndex; a failed lookup is a no-op. The spec leaves a
    fromIndex outside the task list open; here nothing moves. *)
Definition reorderTask (bi : nat) (columnName : string)
    (fromIndex toIndex : nat) (st : BoardsState) : option BoardsState :=
  if decide (fromIndex = toIndex) then None
  else
    b ← boards st !! bi;
    '(ci, c) ← findColumn columnName (board_columns b);
    t ← col_tasks c !! fromIndex;
    Some (setTasks bi b ci c (spliceMove fromIndex toIndex t (col_tasks c)) st).

(** Modelled from the spec: the body of [boardsReducer] for [MOVE_TASK]
    is not among the sources. Section 4.1: remove the task matching the
    title from fromColumn, append it to the end of toColumn's task list and
    set its status to toColumn's name; no-op if fromColumn equals toColumn
    or the task is not found; every lookup by name or title that fails is a
    no-op; matching is first-match. *)
Definition moveTask (bi : nat) (fromColumn toColumn taskTitle : string)
    (st : BoardsState) : option BoardsState :=
  if decide (fromColumn = toColumn) then None
  else
    b ← boards st !! bi;
    '(fi, fc) ← findColumn fromColumn (board_columns b);
    '(ti, t) ← findTask taskTitle (col_tasks fc);
    '(di, dc) ← findColumn toColumn (board_columns b);
    let cols1 := <[fi := with_tasks (delete ti (col_tasks fc)) fc]>
                   (board_columns b) in
    let cols2 := <[di := with_tasks (col_tasks dc ++ [set_status toColumn t]) dc]>
                   cols1 in
    Some (setColumns bi b cols2 st).

(** Modelled from the spec: [boardsReducer.ts] is missing. ADD_TASK:
    append the task to the named column; column not found, no-op. *)
Definition addTask (bi : nat) (columnName : string) (task : Task)
    (st : BoardsState) : option BoardsState :=
  b ← boards st !! bi;
  '(ci, c) ← findColumn columnName (board_columns b);
  Some (setTasks bi b ci c (col_tasks c ++ [task]) st).

(** Modelled from the spec: [boardsReducer.ts] is missing. UPDATE_TASK:
    replace the task matching the title in the named column. *)
Definition updateTask (bi : nat) (columnName taskTitle : string) (task : Task)
    (st : BoardsState) : option BoardsState :=
  b ← boards st !! bi;
  '(ci, c) ← findColumn columnName (board_columns b);
  '(ti, _) ← findTask taskTitle (col_tasks c);
  Some (setTasks bi b ci c (<[ti := task]> (col_tasks c)) st).

(** Modelled from the spec: [boardsReducer.ts] is missing. DELETE_TASK:
    remove the first task matching the title in the named column. *)
Definition deleteTask (bi : nat) (columnName taskTitle : string)
    (st : BoardsState) : option BoardsState :=
  b ← boards st !! bi;
  '(ci, c) ← findColumn columnName (board_columns b);
  '(ti, _) ← findTask taskTitle (col_tasks c);
  Some (setTasks bi b ci c (delete ti (col_tasks c)) st).

(** Modelled from the spec: [boardsReducer.ts] is missing. Flip
    [isCompleted]. *)
Definition toggle (s : Subtask) : Subtask :=
  {| sub_title := sub_title s; isCompleted := negb (isCompleted s) |}.

(** Modelled from the spec: [boardsReducer.ts] is missing. TOGGLE_SUBTASK:
    flip the subtask matching the title within the matched task. *)
Definition toggleSubtask (bi : nat) (columnName taskTitle subtaskTitle : string)
    (st : BoardsState) : option BoardsState :=
  b ← boards st !! bi;
  '(ci, c) ← findColumn columnName (board_columns b);
  '(ti, t) ← findTask taskTitle (col_tasks c);
  subs ← task_subtasks t;
  '(si, s) ← list_find (λ s, sub_title s = subtaskTitle) subs;
  let t' := {| task_id := task_id t; task_title := task_title t;
               task_description := task_description t;
               task_status := task_status t;
               task_subtasks := Some (<[si := toggle s]> subs) |} in
  Some (setTasks bi b ci c (<[ti := t']> (col_tasks c)) st).

(** Modelled from the spec: [boardsReducer.ts] is missing. ADD_COLUMN:
    append an empty column; no-op if the name is empty after trimming. *)
Definition addColumn (bi : nat) (columnName : string) (st : BoardsState)
  : option BoardsState :=
  if decide (Js.trim_start columnName = "") then None
  else
    b ← boards st !! bi;
    Some (setColumns bi b (board_columns b ++ [mkColumn columnName []]) st).

(** Modelled from the spec: [boardsReducer.ts] is missing. The case
    analysis on the action; ADD_BOARD appends, UPDATE_BOARD and DELETE_BOARD
    are no-ops out of range, SET_BOARDS replaces the boards wholesale. *)
Definition reduce (st : BoardsState) (action : BoardsAction)
  : option BoardsState :=
  match action with
  | ADD_BOARD board => Some {| boards := boards st ++ [board] |}
  | UPDATE_BOARD bi board =>
      _ ← boards st !! bi; Some {| boards := <[bi := board]> (boards st) |}
  | DELETE_BOARD bi =>
      _ ← boards st !! bi; Some {| boards := delete bi (boards st) |}
  | ADD_TASK bi c task => addTask bi c task st
  | UPDATE_TASK bi c title task => updateTask bi c title task st
  | DELETE_TASK bi c title => deleteTask bi c title st
  | REORDER_TASK bi c i j => reorderTask bi c i j st
  | MOVE_TASK bi from to title => moveTask bi from to title st
  | TOGGLE_SUBTASK bi c title sub => toggleSubtask bi c title sub st
  | SET_BOARDS bs => Some {| boards := bs |}
  | ADD_COLUMN bi c => addColumn bi c st
  end.

(** Modelled from the spec: [boardsReducer.ts] is missing.
    [boardsReducer(state, action)]. *)
Definition boardsReducer (st : BoardsState) (action : BoardsAction)
  : BoardsState :=
  default st (reduce st action).

End BoardsReducer.

Import BoardsReducer.

(** ** The drag-end handler ([BoardView.tsx])

    [handleDragEnd] closes over the current [board] and [boardIndex] and
    receives the identifiers of the dragged element and of the element it
    was dropped over ([over] is [null] when dropped nowhere). The result is
    the list of actions handed to [dispatch], in order. *)

Module BoardView.

(** [x.boardIndex !== boardIndex] *)
Definition differs (decoded : Js.number) (boardIndex : nat) : bool :=
  negb (Js.strict_eq decoded (Js.Num (Z.of_nat boardIndex))).

(** The tail of the handler, from [decodeColumnId(overId)] on. *)
Definition columnMove (boardIndex : nat) (activeTask : TaskRef)
    (overId : string) : list BoardsAction :=
  match decodeColumnId overId with
  | None => []
  | Some columnData =>
      if differs (cr_boardIndex columnData) boardIndex then []
      else
        let fromColumn := tr_columnName activeTask in
        let taskTitle := tr_taskTitle activeTask in
        let toColumn := cr_columnName columnData in
        if decide (fromColumn = toColumn) then []
        else [MOVE_TASK boardIndex fromColumn toColumn taskTitle]
  end.

Definition handleDragEnd (board : option Board) (boardIndex : option nat)
    (activeId : string) (over : option string) : list BoardsAction :=
  match boardIndex, over, board with
  | Some boardIndex, Some overId, Some board =>
      match decodeTaskId activeId with
      | None => []
      | Some activeTask =>
          if differs (tr_boardIndex activeTask) boardIndex then []
          else
            match decodeTaskId overId with
            | None => columnMove boardIndex activeTask overId
            | Some overTask =>
                if differs (tr_boardIndex overTask) boardIndex
                then columnMove boardIndex activeTask overId
                else
                  let fromColumn := tr_columnName activeTask in
                  let taskTitle := tr_taskTitle activeTask in
                  let toColumn := tr_columnName overTask in
                  let targetTitle := tr_taskTitle overTask in
                  match findColumn fromColumn (board_columns board),
                        findColumn toColumn (board_columns board) with
                  | Some (_, fromCol), Some (_, toCol) =>
                      match findTask taskTitle (col_tasks fromCol),
                            findTask targetTitle (col_tasks toCol) with
                      | Some (fromIndex, _), Some (toIndex, _) =>
                          if decide (fromColumn = toColumn) then
                            if decide (fromIndex = toIndex) then []
                            else [REORDER_TASK boardIndex fromColumn
                                    fromIndex toIndex]
                          else columnMove boardIndex activeTask overId
                      | _, _ => []
                      end
                  | _, _ => []
                  end
            end
      end
  | _, _, _ => []
  end.

(** The position of the first task titled [title] in the column named
    [columnName] of [board], if both lookups succeed. *)
Definition position (board : Board) (columnName title : string)
  : option nat :=
  '(_, c) ← findColumn columnName (board_columns board);
  '(i, _) ← findTask title (col_tasks c);
  Some i.

End BoardView.

(** ** The compatibility transform ([services/boards.ts]) *)

Module BoardsService.

(** What [generateTaskId] reads from the outside world: [Date.now()] and
    the seven base-36 digits cut from [Math.random()], at each call. *)
Record IdSource : Type := mkIdSource {
  clock : nat → nat;
  random : nat → string;
  calls : nat
}.

(** A computation that may draw fresh task ids. *)
Definition Gen (A : Type) : Type := IdSource → A * IdSource.

Definition ret {A} (x : A) : Gen A := λ g, (x, g).

Definition bind {A B} (m : Gen A) (k : A → Gen B) : Gen B :=
  λ g, let '(x, g') := m g in k x g'.

(** [array.map(f)] for an effectful [f]: elements are visited in index
    order. *)
Fixpoint mapM {A B} (f : A → Gen B) (l : list A) : Gen (list B) :=
  match l with
  | [] => ret []
  | x :: xs => bind (f x) (λ y, bind (mapM f xs) (λ ys, ret (y :: ys)))
  end.

(** [`task-${Date.now()}-${Math.random().toString(36).slice(2, 9)}`] *)
Definition generateTaskId : Gen string :=
  λ g, ("task-" +:+ Js.of_index (clock g (calls g)) +:+ "-"
          +:+ random g (calls g),
        mkIdSource (clock g) (random g) (S (calls g))).

Record RawColumn : Type := mkRawColumn {
  rawcol_name : string;
  rawcol_tasks : list RawTask
}.

Record RawBoard : Type := mkRawBoard {
  rawboard_name : string;
  rawboard_columns : list RawColumn
}.

(** [task.id || generateTaskId()]: a missing id and the empty string are
    both falsy. *)
Definition ensureId (id : option string) : Gen string :=
  match id with
  | Some i => if decide (i = "") then generateTaskId else ret i
  | None => generateTaskId
  end.

Definition ensureTask (task : RawTask) : Gen Task :=
  bind (ensureId (raw_id task)) (λ i,
    ret {| task_id := i; task_title := raw_title task;
           task_description := raw_description task;
           task_status := raw_status task;
           task_subtasks := raw_subtasks task |}).

Definition ensureColumn (column : RawColumn) : Gen Column :=
  bind (mapM ensureTask (rawcol_tasks column)) (λ ts,
    ret {| col_name := rawcol_name column; col_tasks := ts |}).

Definition ensureBoard (board : RawBoard) : Gen Board :=
  bind (mapM ensureColumn (rawboard_columns board)) (λ cs,
    ret {| board_name := rawboard_name board; board_columns := cs |}).

Definition ensureTaskIds (boards : list RawBoard) : Gen (list Board) :=
  mapM ensureBoard boards.

(** A [Board[]] read back as a [RawBoard[]] (every [Task] is a
    [RawTask]). *)
Definition rawTask (t : Task) : RawTask :=
  {| raw_id := Some (task_id t); raw_title := task_title t;
     raw_description := task_description t; raw_status := task_status t;
     raw_subtasks := task_subtasks t |}.

Definition rawColumn (c : Column) : RawColumn :=
  {| rawcol_name := col_name c; rawcol_tasks := map rawTask (col_tasks c) |}.

Definition rawBoard (b : Board) : RawBoard :=
  {| rawboard_name := board_name b;
     rawboard_columns := map rawColumn (board_columns b) |}.

(** The fields of a task other than its id. *)
Definition sameFields (r : RawTask) (t : Task) : Prop :=
  raw_title r = task_title t ∧ raw_description r = task_description t ∧
  raw_status r = task_status t ∧ raw_subtasks r = task_subtasks t.

(** An id that is present is kept. *)
Definition keepsId (r : RawTask) (t : Task) : Prop :=
  ∀ i, raw_id r = Some i → i ≠ "" → task_id t = i.

Definition columnAgrees (r : RawColumn) (c : Column) : Prop :=
  rawcol_name r = col_name c ∧
  Forall2 (λ rt t, sameFields rt t ∧ keepsId rt t ∧ task_id t ≠ "")
    (rawcol_tasks r) (col_tasks c).

Definition boardAgrees (r : RawBoard) (b : Board) : Prop :=
  rawboard_name r = board_name b ∧
  Forall2 columnAgrees (rawboard_columns r) (board_columns b).

Definition hasId (t : Task) : Prop := task_id t ≠ "".
Definition columnHasIds (c : Column) : Prop := Forall hasId (col_tasks c).
Definition boardHasIds (b : Board) : Prop :=
  Forall columnHasIds (board_columns b).

End BoardsService.

(** ** The central store ([store/useStore.ts])

    The store is created with plain [create] (no middleware). zustand's
    [set] computes the next partial state, does nothing when that is the
    current state object itself, and otherwise merges it into a new state
    object and calls every subscribed listener with the new state. *)

Module Store.

Record AppStore : Type := mkStore {
  st_boards : list Board;
  theme : Theme;
  user : option StoredUser;
  isLoggedIn : bool;
  loadingKeys : list string;
  toasts : list UiToast
}.

(** A call into [utils/localStorage]. *)
Inductive StorageWrite : Type :=
| WriteBoards (boards : list Board)
| WriteTheme (t : Theme)
| WriteAuth (loggedIn : bool) (u : option StoredUser).

(** The store, the log of storage writes, and whether the persistence
    mirror of [StoreHydration] is subscribed. *)
Record World : Type := mkWorld {
  store : AppStore;
  writes : list StorageWrite;
  mirror : bool
}.

Definition initialStore (storedTheme : option Theme)
    (storedAuth : option (bool * option StoredUser)) : AppStore :=
  {| st_boards := [];
     theme := default light storedTheme;
     user := match storedAuth with
             | Some (true, Some u) => Some u
             | _ => None
             end;
     isLoggedIn := match storedAuth with
                   | Some (b, _) => b
                   | None => false
                   end;
     loadingKeys := [];
     toasts := [] |}.

Definition initialWorld : World :=
  {| store := initialStore None None; writes := []; mirror := false |}.

Definition log (wr : StorageWrite) (w : World) : World :=
  {| store := store w; writes := writes w ++ [wr]; mirror := mirror w |}.

(** The listener of the second effect of [StoreHydration]:
    [useStore.subscribe((state) => { if (state.boards.length > 0)
     setBoards({ boards: state.boards }) })]. It is subscribed to the whole
    state. *)
Definition persistenceListener (state : AppStore) (w : World) : World :=
  if 0 <? length (st_boards state)
  then log (WriteBoards (st_boards state)) w
  else w.

(** [set(updater)]: [None] stands for an updater that returned the state
    object it was given. *)
Definition setState (updater : AppStore → option AppStore) (w : World)
  : World :=
  match updater (store w) with
  | None => w
  | Some next =>
      let w' := {| store := next; writes := writes w; mirror := mirror w |} in
      if mirror w then persistenceListener next w' else w'
  end.

Definition withBoards (s : AppStore) (b : BoardsState) : AppStore :=
  {| st_boards := boards b; theme := theme s; user := user s;
     isLoggedIn := isLoggedIn s; loadingKeys := loadingKeys s;
     toasts := toasts s |}.

Definition withLoadingKeys (s : AppStore) (ks : list string) : AppStore :=
  {| st_boards := st_boards s; theme := theme s; user := user s;
     isLoggedIn := isLoggedIn s; loadingKeys := ks; toasts := toasts s |}.

Definition withToasts (s : AppStore) (ts : list UiToast) : AppStore :=
  {| st_boards := st_boards s; theme := theme s; user := user s;
     isLoggedIn := isLoggedIn s; loadingKeys := loadingKeys s;
     toasts := ts |}.

Definition withTheme (s : AppStore) (t : Theme) : AppStore :=
  {| st_boards := st_boards s; theme := t; user := user s;
     isLoggedIn := isLoggedIn s; loadingKeys := loadingKeys s;
     toasts := toasts s |}.

Definition withAuth (s : AppStore) (u : option StoredUser) (b : bool)
  : AppStore :=
  {| st_boards := st_boards s; theme := theme s; user := u;
     isLoggedIn := b; loadingKeys := loadingKeys s; toasts := toasts s |}.

Definition dispatch (action : BoardsAction) : World → World :=
  setState (λ s, withBoards s <$> reduce (mkBoardsState (st_boards s)) action).

Definition setTheme (t : Theme) (w : World) : World :=
  log (WriteTheme t) (setState (λ s, Some (withTheme s t)) w).

Definition login (u : StoredUser) (w : World) : World :=
  log (WriteAuth true (Some u))
    (setState (λ s, Some (withAuth s (Some u) true)) w).

Definition logout (w : World) : World :=
  log (WriteAuth false None) (setState (λ s, Some (withAuth s None false)) w).

Definition addLoadingKey (key : string) : World → World :=
  setState (λ s,
    if bool_decide (key ∈ loadingKeys s) then None
    else Some (withLoadingKeys s (loadingKeys s ++ [key]))).

Definition removeLoadingKey (key : string) : World → World :=
  setState (λ s,
    Some (withLoadingKeys s
            (filter (λ k, k ≠ key) (loadingKeys s)))).

Definition addToast (t : UiToast) : World → World :=
  setState (λ s, Some (withToasts s (toasts s ++ [t]))).

Definition removeToast (id : string) : World → World :=
  setState (λ s,
    Some (withToasts s (filter (λ t, toast_id t ≠ id) (toasts s)))).

(** The bound actions of the store. *)
Inductive Op : Type :=
| Dispatch (action : BoardsAction)
| SetTheme (t : Theme)
| Login (u : StoredUser)
| Logout
| AddLoadingKey (key : string)
| RemoveLoadingKey (key : string)
| AddToast (t : UiToast)
| RemoveToast (id : string).

Definition run (op : Op) : World → World :=
  match op with
  | Dispatch a => dispatch a
  | SetTheme t => setTheme t
  | Login u => login u
  | Logout => logout
  | AddLoadingKey k => addLoadingKey k
  | RemoveLoadingKey k => removeLoadingKey k
  | AddToast t => addToast t
  | RemoveToast i => removeToast i
  end.

(** [useStore.subscribe(listener)] of the mirror, and its [unsub]. *)
Definition subscribeMirror (w : World) : World :=
  {| store := store w; writes := writes w; mirror := true |}.

Definition unsubscribeMirror (w : World) : World :=
  {| store := store w; writes := writes w; mirror := false |}.

(** The snapshots written under the boards key. *)
Definition boardsWrites (w : World) : list (list Board) :=
  omap (λ wr, match wr with WriteBoards b => Some b | _ => None end)
    (writes w).

Definition nonemptyWrites (w : World) : Prop :=
  Forall (λ b, b ≠ []) (boardsWrites w).

End Store.

(** ** Minimum-duration busy keys ([context/UiContext.tsx])

    [UiProvider] keeps two maps in refs, the start time of each key and the
    pending removal timer of each key; the busy set itself is the store's
    [loadingKeys]. Time is the value of [Date.now()] in milliseconds; the
    timers of the event loop are the pending [setTimeout] calls, each with
    the time from which it may run. *)

Module UiContext.

Definition MIN_LOADING_DURATION_MS : Z := 300.

Record Timer : Type := mkTimer {
  timer_id : nat;
  timer_due : Z;
  timer_key : string
}.

Record State : Type := mkState {
  world : Store.World;
  now : Z;
  loadingStartTimes : gmap string Z;
  stopTimeouts : gmap string nat;
  pending : list Timer;
  nextTimer : nat
}.

(** Timer handles are positive, hence truthy. *)
Definition initial : State :=
  {| world := Store.initialWorld; now := 0; loadingStartTimes := ∅;
     stopTimeouts := ∅; pending := []; nextTimer := 1 |}.

Definition clearTimeout (id : nat) (s : State) : State :=
  {| world := world s; now := now s;
     loadingStartTimes := loadingStartTimes s;
     stopTimeouts := stopTimeouts s;
     pending := filter (λ t, timer_id t ≠ id) (pending s);
     nextTimer := nextTimer s |}.

(** [const existingTimeout = stopTimeoutsRef.current.get(key);
     if (existingTimeout) clearTimeout(existingTimeout)] *)
Definition clearExisting (key : string) (s : State) : State :=
  match stopTimeouts s !! key with
  | Some id => if decide (id = 0) then s else clearTimeout id s
  | None => s
  end.

Definition forget (key : string) (s : State) : State :=
  match stopTimeouts s !! key with
  | Some id =>
      if decide (id = 0) then s
      else {| world := world s; now := now s;
              loadingStartTimes := loadingStartTimes s;
              stopTimeouts := delete key (stopTimeouts s);
              pending := pending s; nextTimer := nextTimer s |}
  | None => s
  end.

Definition startLoading (key : string) (s : State) : State :=
  let s1 := forget key (clearExisting key s) in
  {| world := Store.addLoadingKey key (world s1); now := now s1;
     loadingStartTimes := <[key := now s1]> (loadingStartTimes s1);
     stopTimeouts := stopTimeouts s1; pending := pending s1;
     nextTimer := nextTimer s1 |}.

Definition doStop (key : string) (s : State) : State :=
  {| world := Store.removeLoadingKey key (world s); now := now s;
     loadingStartTimes := delete key (loadingStartTimes s);
     stopTimeouts := delete key (stopTimeouts s);
     pending := pending s; nextTimer := nextTimer s |}.

(** [startTime ? Date.now() - startTime : 0] *)
Definition elapsedSince (startTime : option Z) (t : Z) : Z :=
  match startTime with
  | Some st => if decide (st = 0%Z) then 0%Z else (t - st)%Z
  | None => 0%Z
  end.

Definition setTimeout (key : string) (delay : Z) (s : State) : State :=
  {| world := world s; now := now s;
     loadingStartTimes := loadingStartTimes s;
     stopTimeouts := <[key := nextTimer s]> (stopTimeouts s);
     pending := pending s ++ [mkTimer (nextTimer s) (now s + delay) key];
     nextTimer := S (nextTimer s) |}.

Definition stopLoading (key : string) (s : State) : State :=
  let elapsed := elapsedSince (loadingStartTimes s !! key) (now s) in
  let remaining := Z.max 0 (MIN_LOADING_DURATION_MS - elapsed) in
  let s1 := clearExisting key s in
  if decide (0 < remaining)%Z then setTimeout key remaining s1
  else doStop key s1.

(** The cleanup of the provider's effect: every pending removal is
    cleared and the timer map emptied. *)
Definition unmount (s : State) : State :=
  {| world := world s; now := now s;
     loadingStartTimes := loadingStartTimes s;
     stopTimeouts := ∅;
     pending := filter (λ t, timer_id t ∉ (map_to_list (stopTimeouts s)).*2)
                  (pending s);
     nextTimer := nextTimer s |}.

Inductive Event : Type :=
| Start (key : string)
| Stop (key : string)
| Elapse (ms : nat)          (* the clock advances *)
| Fire (id : nat)            (* the event loop runs a timer that is due *)
| Unmount.

Definition advance (ms : nat) (s : State) : State :=
  {| world := world s; now := (now s + Z.of_nat ms)%Z;
     loadingStartTimes := loadingStartTimes s;
     stopTimeouts := stopTimeouts s; pending := pending s;
     nextTimer := nextTimer s |}.

(** A timer runs no earlier than the time it was set for. *)
Definition fire (id : nat) (s : State) : State :=
  match list_find (λ t, timer_id t = id) (pending s) with
  | Some (_, t) =>
      if decide (timer_due t ≤ now s)%Z
      then doStop (timer_key t) (clearTimeout id s)
      else s
  | None => s
  end.

Definition step (s : State) (e : Event) : State :=
  match e with
  | Start key => startLoading key s
  | Stop key => stopLoading key s
  | Elapse ms => advance ms s
  | Fire id => fire id s
  | Unmount => unmount s
  end.

Definition run (s : State) (es : list Event) : State := foldl step s es.

Definition busy (key : string) (s : State) : Prop :=
  key ∈ Store.loadingKeys (Store.store (world s)).

(** The pending removals of a key. *)
Definition removalsOf (key : string) (s : State) : list Timer :=
  filter (λ t, timer_key t = key) (pending s).

(** What holds of the refs and the timers in every state the provider can
    reach: the clock is not behind any recorded start time, timer handles
    are positive, and every pending removal is the one registered for its
    key. *)
Definition wellFormed (s : State) : Prop :=
  (0 ≤ now s)%Z ∧ 0 < nextTimer s ∧
  (∀ k st, loadingStartTimes s !! k = Some st → (st ≤ now s)%Z) ∧
  (∀ t, t ∈ pending s → 0 < timer_id t < nextTimer s) ∧
  (∀ t, t ∈ pending s → stopTimeouts s !! timer_key t = Some (timer_id t)).

(** [key] was started at time [t0] and is being held: until the minimum
    duration has passed it is busy, its recorded start time is not before
    [t0] (or is the falsy 0), and no removal of it is due earlier. *)
Definition held (key : string) (t0 : Z) (s : State) : Prop :=
  (t0 ≤ now s)%Z ∧
  ((now s < t0 + MIN_LOADING_DURATION_MS)%Z →
   busy key s ∧
   (∀ st, loadingStartTimes s !! key = Some st → (t0 ≤ st)%Z ∨ st = 0%Z) ∧
   (∀ t, t ∈ pending s → timer_key t = key →
         (t0 + MIN_LOADING_DURATION_MS ≤ timer_due t)%Z)).

End UiContext.

(** ** What the Ui slice leaves alone *)

Module StoreData.

Import Store.

(** Two states of the store agree on everything but the Ui slice
    ([loadingKeys] and [toasts]). *)
Definition sameData (a b : AppStore) : Prop :=
  st_boards b = st_boards a ∧ theme b = theme a ∧
  user b = user a ∧ isLoggedIn b = isLoggedIn a.

(** From [w] to [w'] only the Ui slice of the store has changed, and
    every storage write made is a write of the boards of [w], which are
    still those of [w']. *)
Definition uiOnly (w w' : World) : Prop :=
  sameData (store w) (store w') ∧
  mirror w' = mirror w ∧
  ∃ n, writes w' = writes w ++ replicate n (WriteBoards (st_boards (store w))).

End StoreData.

(** ** The hydration controller ([store/StoreHydration.tsx])

    [StoreHydration] is rendered inside [UiProvider] ([App.tsx]), so the
    [startLoading], [stopLoading] and [showToast] it calls are the
    provider's: they act on the store, where the persistence mirror listens,
    and on the provider's timers. The state of the controller therefore
    holds the provider, and with it the store and the clock.

    Each run of the first effect is an attempt: it owns one [cancelled]
    variable and one fetch in flight. The calls made to the Ui context are
    also logged in order. A fetch settles at most once and the Retry button
    is not always on screen; the model does not need that and admits every
    sequence of events. *)

Module StoreHydration.

Inductive UiCall : Type :=
| StartLoading (key : string)
| StopLoading (key : string)
| ShowToast (type : ToastType) (message : string).

(** How [fetchBoards()] settles; a rejection carries [error.message] when
    the error is an [Error]. *)
Inductive FetchResult : Type :=
| Fulfilled (loadedBoards : list Board)
| Rejected (message : option string).

(** [cancelled] holds the [cancelled] variable of every run of the effect
    so far, oldest first. [nextRandom] is what
    [Math.random().toString(36).slice(2)] gives when it is next called. *)
Record State : Type := mkState {
  provider : UiContext.State;
  nextRandom : string;
  loadError : option string;
  retryAttempt : nat;
  mounted : bool;
  cancelled : list bool;
  ui : list UiCall
}.

(** The store, with the log of storage writes. *)
Definition world (s : State) : Store.World := UiContext.world (provider s).

Definition initial : State :=
  {| provider := UiContext.initial; nextRandom := ""; loadError := None;
     retryAttempt := 0; mounted := false; cancelled := []; ui := [] |}.

Definition withProvider (p : UiContext.State) (s : State) : State :=
  {| provider := p; nextRandom := nextRandom s; loadError := loadError s;
     retryAttempt := retryAttempt s; mounted := mounted s;
     cancelled := cancelled s; ui := ui s |}.

Definition setWorld (w : Store.World) (p : UiContext.State)
  : UiContext.State :=
  {| UiContext.world := w; UiContext.now := UiContext.now p;
     UiContext.loadingStartTimes := UiContext.loadingStartTimes p;
     UiContext.stopTimeouts := UiContext.stopTimeouts p;
     UiContext.pending := UiContext.pending p;
     UiContext.nextTimer := UiContext.nextTimer p |}.

Definition withWorld (w : Store.World) (s : State) : State :=
  withProvider (setWorld w (provider s)) s.

Definition logUi (c : UiCall) (s : State) : State :=
  {| provider := provider s; nextRandom := nextRandom s;
     loadError := loadError s; retryAttempt := retryAttempt s;
     mounted := mounted s; cancelled := cancelled s; ui := ui s ++ [c] |}.

Definition setLoadError (e : option string) (s : State) : State :=
  {| provider := provider s; nextRandom := nextRandom s; loadError := e;
     retryAttempt := retryAttempt s; mounted := mounted s;
     cancelled := cancelled s; ui := ui s |}.

Definition setCancelled (l : list bool) (s : State) : State :=
  {| provider := provider s; nextRandom := nextRandom s;
     loadError := loadError s; retryAttempt := retryAttempt s;
     mounted := mounted s; cancelled := l; ui := ui s |}.

Definition setNextRandom (digits : string) (s : State) : State :=
  {| provider := provider s; nextRandom := digits; loadError := loadError s;
     retryAttempt := retryAttempt s; mounted := mounted s;
     cancelled := cancelled s; ui := ui s |}.

(** The provider's [startLoading] and [stopLoading], called by the
    controller. *)
Definition startLoading (key : string) (s : State) : State :=
  logUi (StartLoading key)
    (withProvider (UiContext.startLoading key (provider s)) s).

Definition stopLoading (key : string) (s : State) : State :=
  logUi (StopLoading key)
    (withProvider (UiContext.stopLoading key (provider s)) s).

(** [`${Date.now()}-${Math.random().toString(36).slice(2)}`]; the
    provider's clock is never negative. *)
Definition toastId (s : State) : string :=
  Js.of_index (Z.to_nat (UiContext.now (provider s))) +:+ "-"
    +:+ nextRandom s.

(** The provider's [showToast]: [addToast({ id, type, message })]. *)
Definition showToast (type : ToastType) (message : string) (s : State)
  : State :=
  logUi (ShowToast type message)
    (withWorld (Store.addToast (mkToast (toastId s) type message) (world s))
       s).

(** The cleanup of the first effect: [cancelled = true] in the closure of
    the latest run. *)
Definition cleanupEffect (s : State) : State :=
  setCancelled (<[length (cancelled s) - 1 := true]> (cancelled s)) s.

(** The body of the first effect up to the [await]:
    [let cancelled = false; setLoadError(null);
     startLoading('initBoards')]. *)
Definition runEffect (s : State) : State :=
  startLoading "initBoards"
    (setLoadError None (setCancelled (cancelled s ++ [false]) s)).

Definition errorMessage (message : option string) : string :=
  default "Failed to load boards" message.

(** The continuation of the [await] in a run that was not cancelled:
    [try] or [catch], then [finally]. *)
Definition deliver (r : FetchResult) (s : State) : State :=
  match r with
  | Fulfilled loadedBoards =>
      stopLoading "initBoards"
        (withWorld (Store.dispatch (SET_BOARDS loadedBoards) (world s)) s)
  | Rejected message =>
      stopLoading "initBoards"
        (showToast error (errorMessage message)
           (setLoadError (Some (errorMessage message)) s))
  end.

Inductive Event : Type :=
| Mount                                  (* the component is activated *)
| Retry                                  (* the Retry button *)
| Unmount                                (* the component is deactivated *)
| Settle (k : nat) (r : FetchResult)     (* the fetch of attempt k settles *)
| StoreOp (op : Store.Op)                (* any other use of the store *)
| Ui (e : UiContext.Event)               (* the provider: other callers of
                                            its callbacks, the clock and
                                            the timers *)
| Random (digits : string).              (* what Math.random gives next *)

Definition setMounted (b : bool) (s : State) : State :=
  {| provider := provider s; nextRandom := nextRandom s;
     loadError := loadError s; retryAttempt := retryAttempt s; mounted := b;
     cancelled := cancelled s; ui := ui s |}.

(** A newly mounted instance starts from [useState(0)]. *)
Definition freshInstance (s : State) : State :=
  {| provider := provider s; nextRandom := nextRandom s;
     loadError := loadError s; retryAttempt := 0; mounted := true;
     cancelled := cancelled s; ui := ui s |}.

Definition bumpRetry (s : State) : State :=
  {| provider := provider s; nextRandom := nextRandom s;
     loadError := loadError s; retryAttempt := S (retryAttempt s);
     mounted := mounted s; cancelled := cancelled s; ui := ui s |}.

(** The effects of a mount run in order: the first effect, then the
    subscription of the mirror. *)
Definition step (s : State) (e : Event) : State :=
  match e with
  | Mount =>
      if mounted s then s
      else
        let s1 := runEffect (freshInstance s) in
        withWorld (Store.subscribeMirror (world s1)) s1
  | Retry =>
      if mounted s then runEffect (cleanupEffect (bumpRetry s)) else s
  | Unmount =>
      if mounted s
      then withWorld (Store.unsubscribeMirror (world s))
             (cleanupEffect (setMounted false s))
      else s
  | Settle k r =>
      match cancelled s !! k with
      | Some false => deliver r s
      | _ => s
      end
  | StoreOp op => withWorld (Store.run op (world s)) s
  | Ui e => withProvider (UiContext.step (provider s) e) s
  | Random digits => setNextRandom digits s
  end.

Definition run (s : State) (es : list Event) : State := foldl step s es.

(** Attempt [k] has been superseded: a later run of the effect exists, or
    the controller was deactivated. *)
Definition superseded (s : State) (k : nat) : Prop :=
  k < length (cancelled s) ∧
  (S k < length (cancelled s) ∨ mounted s = false).

(** Attempt [k] is the current one. *)
Definition current (s : State) (k : nat) : Prop :=
  S k = length (cancelled s) ∧ mounted s = true.

(** Superseded attempts are cancelled. *)
Definition consistent (s : State) : Prop :=
  ∀ k, superseded s k → cancelled s !! k = Some true.

End StoreHydration.

(** ** The current board ([hooks/useCurrentBoard.ts])

    The hook reads the [boardId] route parameter ([None] when the route has
    none) and the boards of the store. *)

Module CurrentBoard.

(** [/^\d+$/.test(boardId)]: one or more decimal digits and nothing
    else. *)
Definition digits_only (boardId : string) : bool :=
  negb (String.eqb boardId "") && Js.all_digits boardId.

Record Result : Type := mkResult {
  board : option Board;
  boardIndex : option Js.number
}.

(** [index != null && Number.isFinite(index) && index >= 0 &&
     index < boards.length ? boards[index] : null] *)
Definition boardAt (boards : list Board) (index : option Js.number)
  : option Board :=
  match index with
  | Some (Js.Num z) =>
      if (0 <=? z)%Z && (z <? Z.of_nat (length boards))%Z
      then boards !! Z.to_nat z
      else None
  | _ => None
  end.

Definition useCurrentBoard (boards : list Board) (boardId : option string)
  : Result :=
  let index :=
    match boardId with
    | Some id => if digits_only id then Some (Js.parseInt id) else None
    | None => None
    end in
  {| board := boardAt boards index; boardIndex := index |}.

End CurrentBoard.

(** ** Runs of the store and what a reload would restore *)

Module StoreRuns.

Import Store.

(** The store as created when local storage holds [storedTheme] and
    [storedAuth]; nothing is subscribed yet. *)
Definition startWorld (storedTheme : option Theme)
    (storedAuth : option (bool * option StoredUser)) : World :=
  {| store := initialStore storedTheme storedAuth; writes := [];
     mirror := false |}.

Definition runAll (w : World) (ops : list Op) : World :=
  foldl (λ w op, run op w) w ops.

(** The value last handed to [persistTheme] (to [persistAuth]) in a log
    of writes, or the value read when the store was created if there is
    none: what [getTheme()] (or [getAuth()]) returns next, for a storage
    that gives back what was last written. *)
Definition persistedTheme (stored : option Theme) (log : list StorageWrite)
  : option Theme :=
  foldl (λ acc wr, match wr with WriteTheme t => Some t | _ => acc end)
    stored log.

Definition persistedAuth (stored : option (bool * option StoredUser))
    (log : list StorageWrite) : option (bool * option StoredUser) :=
  foldl (λ acc wr, match wr with WriteAuth l u => Some (l, u) | _ => acc end)
    stored log.

(** [isLoggedIn] and [user] agree. *)
Definition authConsistent (s : AppStore) : Prop :=
  isLoggedIn s = true ↔ is_Some (user s).

End StoreRuns.

(** ** Ids drawn by the compatibility transform *)

Module BoardsServiceCount.

Import BoardsService.

(** [!task.id]: the task has no id, or an empty one. *)
Definition lacksId (r : RawTask) : bool :=
  match raw_id r with
  | Some i => bool_decide (i = "")
  | None => true
  end.

Definition missingInColumn (c : RawColumn) : nat :=
  length (filter (λ r, lacksId r = true) (rawcol_tasks c)).

Definition missingInBoard (b : RawBoard) : nat :=
  sum_list_with missingInColumn (rawboard_columns b).

Definition missingIds (boards : list RawBoard) : nat :=
  sum_list_with missingInBoard boards.

(** The source [g'] is [g] after [n] more calls of [generateTaskId]. *)
Definition drawn (n : nat) (g g' : IdSource) : Prop :=
  calls g' = calls g + n ∧ clock g' = clock g ∧ random g' = random g.

End BoardsServiceCount.

(** ** More on the busy keys' timers *)

Module UiTimers.

Import UiContext.

(** No two pending timers share a handle. *)
Definition uniqueTimers (s : State) : Prop := NoDup (timer_id <$> pending s).

(** The events the event loop produces by itself: time passing and timers
    running. *)
Definition isTimerEvent (e : Event) : bool :=
  match e with
  | Elapse _ | Fire _ => true
  | _ => false
  end.

Definition busyKeys (s : State) : list string :=
  Store.loadingKeys (Store.store (world s)).

End UiTimers.

(** ** What the hydration controller renders *)

Module HydrationView.

Import StoreHydration.

Inductive View : Type :=
| ErrorScreen (message : string)     (* the message and the Retry button *)
| Children.

(** [if (loadError && boards.length === 0) return <error and Retry>;
     return <>{children}</>]: an empty message is falsy. *)
Definition render (s : State) : View :=
  match loadError s with
  | Some message =>
      if negb (String.eqb message "") &&
         (length (Store.st_boards (Store.store (world s))) =? 0)
      then ErrorScreen message
      else Children
  | None => Children
  end.

(** While mounted, the latest attempt is not cancelled. *)
Definition latestLive (s : State) : Prop :=
  mounted s = true →
  cancelled s !! (length (cancelled s) - 1) = Some false.

End HydrationView.

(** ** The board and task forms ([components/modals])

    A submit handler is modelled by the calls it makes, in order: to the
    UI context, to the store, to the router, to its [onClose] property and
    to its own state setters. An object of optional error messages is the
    list of its keys with their messages, in insertion order. A board index
    is a natural number, as in the actions. *)

Module Forms.

(** White space removed at the end of a string. *)
Fixpoint trim_end (s : string) : string :=
  match s with
  | String c rest =>
      match trim_end rest with
      | EmptyString => if Js.is_white c then "" else String c ""
      | r => String c r
      end
  | EmptyString => ""
  end.

(** [s.trim()]: the white space removed at both ends is that of
    [Js.is_white]. [String.length] counts code units, as [.length] does. *)
Definition trim (s : string) : string := trim_end (Js.trim_start s).

(** [l.map((c) => c.trim()).filter((c) => c.length > 0)] *)
Definition cleaned (l : list string) : list string :=
  filter (λ c, 0 < String.length c) (trim <$> l).

Inductive Call : Type :=
| ShowToast (type : ToastType) (message : string)
| StartLoading (key : string)
| StopLoading (key : string)
| Dispatch (action : BoardsAction)
| Navigate (path : string)
| OnClose
| SetErrors (errors : list (string * string))
| SetName (name : string)
| SetColumns (columns : list string).

Definition isDispatch (c : Call) : bool :=
  match c with Dispatch _ => true | _ => false end.

(** A string that [trim] leaves as it is and that is not empty. *)
Definition clean (s : string) : Prop := trim s = s ∧ s ≠ "".

End Forms.

(** *** [AddBoardModal.tsx] *)

Module AddBoardModal.

Import Forms.

Definition newBoard (name : string) (columns : list string) : Board :=
  {| board_name := trim name;
     board_columns := (λ colName, mkColumn colName []) <$> cleaned columns |}.

(** [boards] is the boards list of the store, [name] and [columns] are the
    fields of the form. *)
Definition handleSubmit (boards : list Board) (name : string)
    (columns : list string) : list Call :=
  let trimmedName := trim name in
  let cleanedColumns := cleaned columns in
  let nameErrors :=
    if decide (trimmedName = "")
    then [("name", "Board name is required.")] else [] in
  let columnsErrors :=
    if decide (length cleanedColumns = 0)
    then [("columns", "Please add at least one column for the new board.")]
    else [] in
  let nextErrors := nameErrors ++ columnsErrors in
  (if decide (trimmedName = "")
   then [ShowToast error "Please provide a name for the board."] else []) ++
  (if decide (length cleanedColumns = 0)
   then [ShowToast error "Please add at least one column for the new board."]
   else []) ++
  match nextErrors with
  | _ :: _ => [SetErrors nextErrors]
  | [] =>
      [SetErrors [];
       StartLoading "addBoard";
       Dispatch (ADD_BOARD (newBoard name columns));
       ShowToast success "Board created";
       Navigate ("/board/" +:+ Js.of_index (length boards));
       StopLoading "addBoard";
       OnClose;
       SetName "";
       SetColumns ["Todo"; "Doing"]]
  end.

End AddBoardModal.

(** *** [EditBoardModal.tsx] *)

Module EditBoardModal.

Import Forms.

(** [existing ? { ...existing, name: colName } : { name: colName, tasks: [] }]
    for [existing] the first column of the original board with that name. *)
Definition updatedColumn (originalBoard : Board) (colName : string) : Column :=
  match findColumn colName (board_columns originalBoard) with
  | Some (_, existing) =>
      {| col_name := colName; col_tasks := col_tasks existing |}
  | None => {| col_name := colName; col_tasks := [] |}
  end.

(** [name.trim() || originalBoard.name] for the name. *)
Definition updatedBoard (originalBoard : Board) (name : string)
    (columns : list string) : Board :=
  {| board_name :=
       if decide (trim name = "") then board_name originalBoard
       else trim name;
     board_columns := updatedColumn originalBoard <$> cleaned columns |}.

Definition handleSubmit (boardIndex : option nat) (originalBoard : Board)
    (name : string) (columns : list string) : list Call :=
  match boardIndex with
  | None =>
      [ShowToast error "Could not update board. Please try again."; OnClose]
  | Some i =>
      [StartLoading "editBoard";
       Dispatch (UPDATE_BOARD i (updatedBoard originalBoard name columns));
       ShowToast success "Board updated";
       StopLoading "editBoard";
       OnClose]
  end.

(** The column names of a board, as the [columnNames] property lists
    them when the form is opened on that board. *)
Definition columnNames (b : Board) : list string :=
  col_name <$> board_columns b.

End EditBoardModal.

(** *** [TaskForm.tsx] *)

Module TaskForm.

Import Forms BoardsService.

Record TaskFormValues : Type := mkValues {
  title : string;
  description : string;
  status : string;
  subtasks : list string
}.

Record ColumnOption : Type := mkOption {
  value : string;
  label : string
}.

Definition MAX_TITLE_LENGTH : nat := 100.
Definition MAX_DESCRIPTION_LENGTH : nat := 500.

Definition validateTaskForm (values : TaskFormValues)
    (columns : list ColumnOption) : list (string * string) :=
  let trimmedTitle := trim (title values) in
  let trimmedDescription := trim (description values) in
  (if decide (trimmedTitle = "") then [("title", "Title is required.")]
   else if decide (MAX_TITLE_LENGTH < String.length trimmedTitle)
   then [("title", "Title must be 100 characters or fewer.")]
   else []) ++
  (if decide (MAX_DESCRIPTION_LENGTH < String.length trimmedDescription)
   then [("description", "Description must be 500 characters or fewer.")]
   else []) ++
  (if decide (status values = "") then [("status", "Status is required.")]
   else if decide (status values ∈ value <$> columns) then []
   else [("status", "Please choose a valid status.")]).

Definition nextValues (values : TaskFormValues) : TaskFormValues :=
  {| title := trim (title values);
     description := trim (description values);
     status := status values;
     subtasks := trim <$> subtasks values |}.

(** [values] is the state of the form; [onSubmit] is the handler of the
    modal the form sits in, which may draw a task id. *)
Definition handleSubmit (values : TaskFormValues)
    (columns : list ColumnOption)
    (onSubmit : TaskFormValues → Gen (list Call)) : Gen (list Call) :=
  let validationErrors := validateTaskForm values columns in
  match validationErrors with
  | _ :: _ => ret [SetErrors validationErrors]
  | [] =>
      bind (onSubmit (nextValues values)) (λ calls,
        ret (SetErrors [] :: calls))
  end.

End TaskForm.

(** *** [AddTaskModal.tsx] *)

Module AddTaskModal.

Import Forms BoardsService TaskForm.

Definition newTask (id : string) (values : TaskFormValues) : Task :=
  {| task_id := id;
     task_title := trim (title values);
     task_description := Some (trim (description values));
     task_status := Some (status values);
     task_subtasks :=
       Some ((λ s, mkSubtask s false) <$>
             filter (λ s, 0 < String.length s) (subtasks values)) |}.

Definition handleSubmit (boardIndex : option nat) (values : TaskFormValues)
  : Gen (list Call) :=
  match boardIndex with
  | None =>
      ret [ShowToast error
             "Could not determine which board to add the task to."]
  | Some i =>
      bind generateTaskId (λ id,
        ret [StartLoading "addTask";
             Dispatch (ADD_TASK i (status values) (newTask id values));
             ShowToast success "Task created";
             StopLoading "addTask";
             OnClose])
  end.

(** The form of the modal, submitted. *)
Definition submit (boardIndex : option nat) (columnOptions : list ColumnOption)
    (values : TaskFormValues) : Gen (list Call) :=
  TaskForm.handleSubmit values columnOptions (handleSubmit boardIndex).

End AddTaskModal.

(** *** [EditTaskModal.tsx] *)

Module EditTaskModal.

Import Forms BoardsService TaskForm.

Section Props.

Variable boards : list Board.
Variable columnOptions : list ColumnOption.
Variable boardIndex : option nat.
Variable columnName taskTitle : option string.

(** [boardIndex !== null && boardIndex >= 0 ? boards[boardIndex] : null] *)
Definition board : option Board :=
  match boardIndex with
  | Some i => boards !! i
  | None => None
  end.

(** [board && columnName ? board.columns.find(...) : null]: an empty name
    is falsy. *)
Definition column : option Column :=
  match board, columnName with
  | Some b, Some name =>
      if decide (name = "") then None
      else snd <$> findColumn name (board_columns b)
  | _, _ => None
  end.

Definition task : option Task :=
  match column, taskTitle with
  | Some c, Some t =>
      if decide (t = "") then None
      else snd <$> findTask t (col_tasks c)
  | _, _ => None
  end.

(** [columnName ?? task?.status ?? columnOptions[0]?.value ?? ''] *)
Definition effectiveColumnName : string :=
  match columnName with
  | Some name => name
  | None =>
      match task ≫= task_status with
      | Some s => s
      | None =>
          match columnOptions with
          | o :: _ => value o
          | [] => ""
          end
      end
  end.

(** [task?.title ?? ''], [task?.description ?? ''],
    [task?.status ?? effectiveColumnName] and
    [task?.subtasks?.map((s) => s.title) ?? ['', '']] *)
Definition initialValues : TaskFormValues :=
  {| title := match task with Some t => task_title t | None => "" end;
     description := default "" (task ≫= task_description);
     status := default effectiveColumnName (task ≫= task_status);
     subtasks :=
       match task ≫= task_subtasks with
       | Some subs => sub_title <$> subs
       | None => [""; ""]
       end |}.

(** [task.subtasks?.find((subtask) => subtask.title === s)?.isCompleted
     ?? false] *)
Definition completionOf (t : Task) (s : string) : bool :=
  match task_subtasks t with
  | Some subs =>
      match list_find (λ subtask, sub_title subtask = s) subs with
      | Some (_, subtask) => isCompleted subtask
      | None => false
      end
  | None => false
  end.

Definition updatedTask (t : Task) (values : TaskFormValues) : Task :=
  {| task_id := task_id t;
     task_title := trim (title values);
     task_description := Some (trim (description values));
     task_status := Some (status values);
     task_subtasks :=
       Some ((λ s, mkSubtask s (completionOf t s)) <$>
             cleaned (subtasks values)) |}.

Definition failure : list Call :=
  [ShowToast error "Could not update task. Please try again."; OnClose].

Definition handleSubmit (values : TaskFormValues) : Gen (list Call) :=
  match boardIndex, taskTitle, task with
  | Some i, Some oldTitle, Some t =>
      if decide (effectiveColumnName = "") then ret failure
      else if decide (oldTitle = "") then ret failure
      else
        ret [StartLoading "editTask";
             Dispatch (UPDATE_TASK i effectiveColumnName oldTitle
                         (updatedTask t values));
             ShowToast success "Task changes saved";
             StopLoading "editTask";
             OnClose]
  | _, _, _ => ret failure
  end.

(** The form of the modal, submitted with the field values [values]. *)
Definition submit (values : TaskFormValues) : Gen (list Call) :=
  TaskForm.handleSubmit values columnOptions handleSubmit.

End Props.

End EditTaskModal.

(** ** States used in the examples

    The states of [boardsReducer.test.ts] and a few small ones. *)

Module Fixtures.

Definition test_task (id title status : string) : Task :=
  mkTask id title (Some "") (Some status) None.

Definition move_test_state : BoardsState :=
  mkBoardsState
    [mkBoard "Board"
       [mkColumn "Todo" [test_task "task-1" "Move Me" "Todo"];
        mkColumn "Done" []]].

Definition reorder_test_state : BoardsState :=
  mkBoardsState
    [mkBoard "Board"
       [mkColumn "Todo" [test_task "task-1" "Task 1" "Todo";
                         test_task "task-2" "Task 2" "Todo"]]].

Definition drag_board : Board :=
  mkBoard "Board"
    [mkColumn "Todo" [test_task "t1" "X" "Todo"; test_task "t2" "Y" "Todo"];
     mkColumn "Done" [];
     mkColumn "In::Review" []].

Definition one_board : list Board := [mkBoard "Board" []].

Definition hydrated_world : Store.World :=
  Store.dispatch (SET_BOARDS one_board)
    (Store.subscribeMirror Store.initialWorld).

Definition slow_boards : list Board := [mkBoard "Stale" []].
Definition fast_boards : list Board := [mkBoard "Fresh" []].

(** A source of ids whose clock and random digits are fixed. *)
Definition fixed_ids : BoardsService.IdSource :=
  BoardsService.mkIdSource (λ _, 42) (λ _, "k3x9q2a") 0.

Definition raw_boards : list BoardsService.RawBoard :=
  [BoardsService.mkRawBoard "Board"
     [BoardsService.mkRawColumn "Todo"
        [mkRawTask None "No id" None (Some "Todo") None;
         mkRawTask (Some "") "Empty id" None (Some "Todo") None;
         mkRawTask (Some "task-7") "Has id" None (Some "Todo") None]]].

(** A board with one task that has subtasks, and the column options of
    its task forms. *)
Definition form_task : Task :=
  mkTask "task-1" "Build UI" (Some "Header and footer") (Some "Todo")
    (Some [mkSubtask "Header" true; mkSubtask "Footer" false]).

Definition form_board : Board :=
  mkBoard "Launch" [mkColumn "Todo" [form_task]; mkColumn "Done" []].

Definition form_options : list TaskForm.ColumnOption :=
  [TaskForm.mkOption "Todo" "Todo"; TaskForm.mkOption "Done" "Done"].

End Fixtures.

Import Fixtures.

(** * Properties *)

(** ** The drag identifier codec *)

Section Codec.

Import Js.

Example split_triple_colon : Js.split ":::" = [""; ":"].
Proof. reflexivity. Qed.

Example decode_title_with_delim :
  decodeTaskId (encodeTaskId 12 "Todo" "a::b") =
  Some (mkTaskRef (Js.Num 12) "Todo" "a::b").
Proof. reflexivity. Qed.

Example parseInt_prefix : Js.parseInt " -12abc" = Js.Num (-12)%Z.
Proof. reflexivity. Qed.

(** Induction on strings two characters at a time, the way [split]
    scans. *)
Lemma string_pair_ind (P : string → Prop) :
  P "" →
  (∀ c, P (String c "")) →
  (∀ c d s, P s → P (String d s) → P (String c (String d s))) →
  ∀ s, P s.
Proof.
  intros H0 H1 H2 s.
  assert (P s ∧ ∀ c, P (String c s)) as [? _]; [|done].
  induction s as [|d s [IH1 IH2]]; split; auto.
Qed.

Lemma split_nonempty s : split s ≠ [].
Proof.
  induction s as [|c|c d s IH1 IH2] using string_pair_ind; try done.
  change (split (String c (String d s))) with
    (if is_colon c && is_colon d then "" :: split s
     else cons_head c (split (String d s))).
  destruct (is_colon c && is_colon d); [done|].
  unfold cons_head. by destruct (split (String d s)).
Qed.

Lemma app_String c s r : String c s +:+ r = String c (s +:+ r).
Proof. reflexivity. Qed.

Lemma app_empty r : "" +:+ r = r.
Proof. reflexivity. Qed.

Lemma join_cons_head c parts :
  parts ≠ [] → join (cons_head c parts) = String c (join parts).
Proof. destruct parts as [|p [|q ps]]; done. Qed.

Lemma join_split s : join (split s) = s.
Proof.
  induction s as [|c|c d s IH1 IH2] using string_pair_ind; try done.
  change (split (String c (String d s))) with
    (if is_colon c && is_colon d then "" :: split s
     else cons_head c (split (String d s))).
  destruct (is_colon c && is_colon d) eqn:E.
  - apply andb_prop in E as [Ec Ed].
    apply Ascii.eqb_eq in Ec, Ed. subst.
    pose proof (split_nonempty s).
    destruct (split s) as [|p ps] eqn:Es; [done|].
    change (join ("" :: p :: ps)) with ("::" +:+ join (p :: ps)).
    by rewrite IH1.
  - rewrite join_cons_head by apply split_nonempty. by rewrite IH2.
Qed.

Lemma length_cons_head c parts :
  parts ≠ [] → length (cons_head c parts) = length parts.
Proof. by destruct parts. Qed.

Lemma length_split s : length (split s) = S (count_delim s).
Proof.
  induction s as [|c|c d s IH1 IH2] using string_pair_ind; try done.
  change (split (String c (String d s))) with
    (if is_colon c && is_colon d then "" :: split s
     else cons_head c (split (String d s))).
  change (count_delim (String c (String d s))) with
    (if is_colon c && is_colon d then S (count_delim s)
     else count_delim (String d s)).
  destruct (is_colon c && is_colon d).
  - simpl. by rewrite IH1.
  - rewrite length_cons_head by apply split_nonempty. done.
Qed.

Lemma head_cons_head c parts :
  parts ≠ [] → nth 0 (cons_head c parts) "" = String c (nth 0 parts "").
Proof. by destruct parts. Qed.

Lemma head_split s : nth 0 (split s) "" = first_segment s.
Proof.
  induction s as [|c|c d s IH1 IH2] using string_pair_ind; try done.
  change (split (String c (String d s))) with
    (if is_colon c && is_colon d then "" :: split s
     else cons_head c (split (String d s))).
  change (first_segment (String c (String d s))) with
    (if is_colon c && is_colon d then ""
     else String c (first_segment (String d s))).
  destruct (is_colon c && is_colon d); [done|].
  rewrite head_cons_head by apply split_nonempty. by rewrite IH2.
Qed.

(** A delimiter-free segment followed by the delimiter is split off
    whole. *)
Lemma split_segment s r :
  delim_free s = true → split (s +:+ "::" +:+ r) = s :: split r.
Proof.
  induction s as [|c|c d s IH1 IH2] using string_pair_ind; intros Hs.
  - done.
  - simpl in Hs. apply negb_true_iff in Hs.
    rewrite !app_String, !app_empty.
    change (split (String c (String ":" (String ":" r)))) with
      (if is_colon c && is_colon ":" then "" :: split (String ":" r)
       else cons_head c (split (String ":" (String ":" r)))).
    rewrite Hs. done.
  - change (delim_free (String c (String d s))) with
      (negb (is_colon c && is_colon d) && delim_free (String d s)) in Hs.
    apply andb_prop in Hs as [Hcd Hs]. apply negb_true_iff in Hcd.
    change (split (String c (String d s) +:+ "::" +:+ r)) with
      (if is_colon c && is_colon d then "" :: split (s +:+ "::" +:+ r)
       else cons_head c (split (String d s +:+ "::" +:+ r))).
    rewrite Hcd, IH2 by done. done.
Qed.

(** Conversely, a segment is split off whole only if it is
    delimiter-free. *)
Lemma first_segment_whole s r :
  first_segment (s +:+ "::" +:+ r) = s → delim_free s = true.
Proof.
  induction s as [|c|c d s IH1 IH2] using string_pair_ind; intros Hs.
  - done.
  - rewrite !app_String, !app_empty in Hs.
    change (first_segment (String c (String ":" (String ":" r)))) with
      (if is_colon c && is_colon ":" then ""
       else String c (first_segment (String ":" (String ":" r)))) in Hs.
    simpl. destruct (is_colon c); [done|]. simpl in Hs. done.
  - change (first_segment (String c (String d s) +:+ "::" +:+ r)) with
      (if is_colon c && is_colon d then ""
       else String c (first_segment (String d s +:+ "::" +:+ r))) in Hs.
    change (delim_free (String c (String d s))) with
      (negb (is_colon c && is_colon d) && delim_free (String d s)).
    destruct (is_colon c && is_colon d); [done|].
    injection Hs as Hs. by rewrite IH2.
Qed.

Lemma split_no_delim s : contains_delim s = false → split s = [s].
Proof.
  induction s as [|c|c d s IH1 IH2] using string_pair_ind; intros Hs;
    try done.
  change (contains_delim (String c (String d s))) with
    ((is_colon c && is_colon d) || contains_delim (String d s)) in Hs.
  apply orb_false_elim in Hs as [Hcd Hs].
  change (split (String c (String d s))) with
    (if is_colon c && is_colon d then "" :: split s
     else cons_head c (split (String d s))).
  by rewrite Hcd, IH2.
Qed.

Lemma first_segment_no_delim s :
  first_segment s = s → contains_delim s = false.
Proof.
  induction s as [|c|c d s IH1 IH2] using string_pair_ind; intros Hs;
    try done.
  change (first_segment (String c (String d s))) with
    (if is_colon c && is_colon d then ""
     else String c (first_segment (String d s))) in Hs.
  change (contains_delim (String c (String d s))) with
    ((is_colon c && is_colon d) || contains_delim (String d s)).
  destruct (is_colon c && is_colon d); [done|].
  injection Hs as Hs. by rewrite IH2.
Qed.

(** *** Printing and reading back a board index *)

Lemma to_uint_nonnil n : Nat.to_uint n ≠ Decimal.Nil.
Proof.
  intros H. pose proof (Unsigned.of_to n) as Hn. rewrite H in Hn.
  simpl in Hn. subst n. discriminate H.
Qed.

Lemma digits_from_uint d acc rest :
  digit_of (match rest with String c _ => c | EmptyString => ":"%char end)
    = None →
  digits_from acc true (NilEmpty.string_of_uint d +:+ rest) =
  Some (Nat.of_uint_acc d acc).
Proof.
  intros Hrest. revert acc.
  induction d; intros acc; simpl NilEmpty.string_of_uint;
    rewrite ?app_String, ?app_empty;
    [ destruct rest; simpl in *; [done | by rewrite Hrest] | .. ];
    simpl; rewrite IHd, Nat.tail_mul_spec; do 2 f_equal; lia.
Qed.

Lemma digits_from_index n rest :
  digit_of (match rest with String c _ => c | EmptyString => ":"%char end)
    = None →
  digits_from 0 false (of_index n +:+ rest) = Some n.
Proof.
  intros Hrest. unfold of_index.
  rewrite <- (Unsigned.of_to n) at 2. unfold Nat.of_uint.
  pose proof (to_uint_nonnil n) as Hnil.
  destruct (Nat.to_uint n) as [|d|d|d|d|d|d|d|d|d|d]; [done | ..];
    simpl NilEmpty.string_of_uint; rewrite app_String; simpl;
    rewrite digits_from_uint by done; done.
Qed.

Lemma parseInt_index n : parseInt (of_index n) = Num (Z.of_nat n).
Proof.
  pose proof (digits_from_index n "" eq_refl) as H.
  assert (of_index n +:+ "" = of_index n) as E.
  { generalize (of_index n). induction s as [|c s IH]; [done|].
    by rewrite app_String, IH. }
  rewrite E in H. revert H. unfold parseInt, of_index.
  pose proof (to_uint_nonnil n) as Hnil.
  destruct (Nat.to_uint n) as [|d|d|d|d|d|d|d|d|d|d]; [done | ..];
    simpl NilEmpty.string_of_uint; intros H;
    cbn [trim_start];
    match goal with
    | |- context [is_white ?c] => change (is_white c) with false
    end; cbv iota;
    match goal with
    | |- context [Ascii.eqb ?c "-"] =>
        change (Ascii.eqb c "-") with false;
        change (Ascii.eqb c "+") with false
    end; cbv iota; rewrite H; done.
Qed.

Lemma delim_free_uint d : delim_free (NilEmpty.string_of_uint d) = true.
Proof.
  induction d; [done | ..]; simpl NilEmpty.string_of_uint;
    destruct (NilEmpty.string_of_uint d) eqn:E; try done;
    match goal with
    | |- delim_free (String ?c (String ?a ?s)) = true =>
        change (delim_free (String c (String a s))) with
          (negb (is_colon c && is_colon a) && delim_free (String a s))
    end; rewrite IHd; done.
Qed.

Lemma delim_free_index n : delim_free (of_index n) = true.
Proof. apply delim_free_uint. Qed.

Lemma split_encoded n r : split (of_index n +:+ "::" +:+ r) = of_index n :: split r.
Proof. apply split_segment, delim_free_index. Qed.

Lemma decodeTaskId_encoded bi c t :
  decodeTaskId (encodeTaskId bi c t) =
  Some (mkTaskRef (Num (Z.of_nat bi))
          (first_segment (c +:+ "::" +:+ t))
          (join (drop 1 (split (c +:+ "::" +:+ t))))).
Proof.
  unfold decodeTaskId, encodeTaskId. rewrite split_encoded.
  pose proof (length_split (c +:+ "::" +:+ t)) as Hlen.
  pose proof (head_split (c +:+ "::" +:+ t)) as Hhd.
  assert (1 ≤ count_delim (c +:+ "::" +:+ t)) as Hcount.
  { clear. induction c as [|a|a b c IH1 IH2] using string_pair_ind.
    - rewrite app_empty. simpl. lia.
    - rewrite !app_String, !app_empty.
      change (count_delim (String a (String ":" (String ":" t)))) with
        (if is_colon a && is_colon ":" then S (count_delim (String ":" t))
         else count_delim (String ":" (String ":" t))).
      change (count_delim (String ":" (String ":" t))) with
        (S (count_delim t)).
      destruct (is_colon a && is_colon ":"); lia.
    - change (count_delim (String a (String b c) +:+ "::" +:+ t)) with
        (if is_colon a && is_colon b then S (count_delim (c +:+ "::" +:+ t))
         else count_delim (String b c +:+ "::" +:+ t)).
      destruct (is_colon a && is_colon b); lia. }
  destruct (split (c +:+ "::" +:+ t)) as [|p [|q ps]]; simpl in Hlen;
    [lia | lia |].
  simpl in Hhd. subst p. simpl. by rewrite parseInt_index.
Qed.

Lemma decodeColumnId_encoded bi c :
  decodeColumnId (encodeColumnId bi c) =
  Some (mkColumnRef (Num (Z.of_nat bi)) (first_segment c)).
Proof.
  unfold decodeColumnId, encodeColumnId. rewrite split_encoded.
  pose proof (split_nonempty c) as Hne. pose proof (head_split c) as Hhd.
  destruct (split c) as [|p ps]; [done|].
  simpl in Hhd. subst p. simpl. by rewrite parseInt_index.
Qed.

(** C6, as amended. For every board index and every task title (also one
    that holds the delimiter), decoding an encoded task identifier gives
    back exactly the triple if and only if the column name neither
    contains the delimiter nor ends in a colon; decoding an encoded column
    identifier gives back exactly the pair if and only if the column name
    does not contain the delimiter. *)
Theorem codec_round_trip :
  (∀ bi c t,
     decodeTaskId (encodeTaskId bi c t) =
       Some (mkTaskRef (Num (Z.of_nat bi)) c t)
     ↔ delim_free c = true) ∧
  (∀ bi c,
     decodeColumnId (encodeColumnId bi c) =
       Some (mkColumnRef (Num (Z.of_nat bi)) c)
     ↔ contains_delim c = false).
Proof.
  split.
  - intros bi c t. rewrite decodeTaskId_encoded. split.
    + intros [= Hc _]. by apply first_segment_whole in Hc.
    + intros Hc. pose proof (head_split (c +:+ "::" +:+ t)) as Hhd.
      rewrite split_segment in * by done. simpl in Hhd.
      rewrite <- Hhd.
      change (drop 1 (c :: split t)) with (split t). by rewrite join_split.
  - intros bi c. rewrite decodeColumnId_encoded. split.
    + intros [= Hc]. by apply first_segment_no_delim.
    + intros Hc. pose proof (head_split c) as Hhd.
      rewrite split_no_delim in Hhd by done. simpl in Hhd. by rewrite <- Hhd.
Qed.

(** A title with the delimiter in it, under a plain column name. *)
Lemma codec_round_trip_witness :
  decodeTaskId (encodeTaskId 3 "Doing" "fix a::b::c") =
  Some (mkTaskRef (Num 3) "Doing" "fix a::b::c").
Proof. apply (proj1 codec_round_trip 3 "Doing" "fix a::b::c"). reflexivity. Defined.

(** C6 as stated fails for a column name that holds the delimiter: the
    decoders cut the column name short. *)
Lemma codec_round_trip_fails :
  decodeTaskId (encodeTaskId 0 "a::b" "t") ≠
    Some (mkTaskRef (Num 0) "a::b" "t") ∧
  decodeColumnId (encodeColumnId 0 "a::b") ≠
    Some (mkColumnRef (Num 0) "a::b").
Proof. split; vm_compute; discriminate. Qed.

(** *** Totality and the null results *)

Lemma digits_from_seen s acc : is_Some (digits_from acc true s).
Proof.
  revert acc.
  induction s as [|c s IH]; intros acc; cbn [digits_from]; [by eexists|].
  destruct (digit_of c); [apply IH | by eexists].
Qed.

Lemma digits_from_unseen s acc :
  digits_from acc false s = None ↔ starts_with_digit s = false.
Proof.
  destruct s as [|c s]; cbn [digits_from starts_with_digit]; [done|].
  unfold is_digit.
  destruct (digit_of c) as [d|] eqn:E.
  - destruct (digits_from_seen s (10 * acc + d)) as [n Hn]. rewrite Hn.
    split; [done|]. intros H. apply bool_decide_eq_false in H.
    destruct H. by eexists.
  - split; [|done]. intros _. apply bool_decide_eq_false. by intros [? ?].
Qed.

Lemma parseInt_NaN s : parseInt s = NaN ↔ leading_digit s = false.
Proof.
  unfold parseInt, leading_digit, strip_sign.
  destruct (trim_start s) as [|c rest]; [done|].
  destruct (Ascii.eqb c "-") eqn:Em; simpl orb; cbv iota.
  - rewrite <- (digits_from_unseen rest 0).
    destruct (digits_from 0 false rest); split; done.
  - destruct (Ascii.eqb c "+") eqn:Ep; cbv iota.
    + rewrite <- (digits_from_unseen rest 0).
      destruct (digits_from 0 false rest); split; done.
    + rewrite <- (digits_from_unseen (String c rest) 0).
      destruct (digits_from 0 false (String c rest)); split; done.
Qed.

(** C10, as amended. The decoders are total functions. [decodeTaskId]
    returns null exactly when the identifier has fewer than two delimiter
    occurrences and [decodeColumnId] exactly when it has none. Otherwise
    the result's board index is [parseInt] of the first segment, which is
    NaN exactly when that segment, after leading white space and an
    optional sign, does not begin with a decimal digit (a segment that only
    begins with a numeral decodes to that numeral). A NaN board index in
    the dragged identifier makes the drag-end handler dispatch nothing. *)
Theorem decoders_total :
  (∀ id, decodeTaskId id = None ↔ count_delim id < 2) ∧
  (∀ id, decodeColumnId id = None ↔ count_delim id < 1) ∧
  (∀ id r, decodeTaskId id = Some r →
     tr_boardIndex r = parseInt (first_segment id)) ∧
  (∀ id r, decodeColumnId id = Some r →
     cr_boardIndex r = parseInt (first_segment id)) ∧
  (∀ seg, parseInt seg = NaN ↔ leading_digit seg = false) ∧
  (∀ board boardIndex activeId over r,
     decodeTaskId activeId = Some r → tr_boardIndex r = NaN →
     BoardView.handleDragEnd board boardIndex activeId over = []).
Proof.
  repeat split.
  - unfold decodeTaskId. rewrite length_split.
    destruct (_ <? 3) eqn:E; [intros _; apply Nat.ltb_lt in E; lia | done].
  - unfold decodeTaskId. rewrite length_split. intros H.
    destruct (_ <? 3) eqn:E; [done | apply Nat.ltb_ge in E; lia].
  - unfold decodeColumnId. rewrite length_split.
    destruct (_ <? 2) eqn:E; [intros _; apply Nat.ltb_lt in E; lia | done].
  - unfold decodeColumnId. rewrite length_split. intros H.
    destruct (_ <? 2) eqn:E; [done | apply Nat.ltb_ge in E; lia].
  - intros id r. unfold decodeTaskId. rewrite head_split.
    destruct (_ <? 3); [done|]. by intros [= <-].
  - intros id r. unfold decodeColumnId. rewrite head_split.
    destruct (_ <? 2); [done|]. by intros [= <-].
  - apply parseInt_NaN.
  - apply parseInt_NaN.
  - intros board boardIndex activeId over r Hr HNaN.
    unfold BoardView.handleDragEnd.
    destruct boardIndex, over, board; try done.
    rewrite Hr. unfold BoardView.differs. by rewrite HNaN.
Qed.

Lemma decoders_total_witness :
  BoardView.handleDragEnd
    (Some (mkBoard "B" [mkColumn "Todo" []; mkColumn "Done" []])) (Some 0)
    "x::Todo::T" (Some "0::Done") = [].
Proof.
  apply (proj2 (proj2 (proj2 (proj2 (proj2 decoders_total)))) _ _ _ _
           (mkTaskRef NaN "Todo" "T")); reflexivity.
Defined.

(** C10 as stated fails for a first segment that begins with a numeral
    without being one: the decoded board index is that numeral, not NaN,
    and the caller's equality check lets it through. *)
Lemma decoders_prefix_numeral :
  is_numeral (first_segment "1x::Todo::T") = false ∧
  decodeTaskId "1x::Todo::T" = Some (mkTaskRef (Num 1) "Todo" "T") ∧
  BoardView.handleDragEnd
    (Some (mkBoard "B" [mkColumn "Todo" []; mkColumn "Done" []])) (Some 1)
    "1x::Todo::T" (Some "1::Done") = [MOVE_TASK 1 "Todo" "Done" "T"].
Proof. repeat split. Qed.

End Codec.

(** ** The drag-end handler *)

Section DragEnd.

Import Js BoardView.

Lemma differs_false n bi : differs n bi = false ↔ n = Num (Z.of_nat bi).
Proof.
  unfold differs. rewrite negb_false_iff. destruct n as [|z]; simpl.
  - split; discriminate.
  - rewrite Z.eqb_eq. split; [by intros -> | by intros [= ->]].
Qed.

(** A task identifier read as a column identifier names the task's
    column. *)
Lemma decodeColumnId_of_task id o :
  decodeTaskId id = Some o →
  decodeColumnId id = Some (mkColumnRef (tr_boardIndex o) (tr_columnName o)).
Proof.
  unfold decodeTaskId, decodeColumnId.
  destruct (_ <? 3) eqn:E3; [done|]. intros [= <-]. simpl.
  apply Nat.ltb_ge in E3.
  destruct (_ <? 2) eqn:E2; [apply Nat.ltb_lt in E2; lia | done].
Qed.

Lemma columnMove_length bi a overId : length (columnMove bi a overId) ≤ 1.
Proof.
  unfold columnMove. destruct (decodeColumnId overId); simpl; [|lia].
  destruct (differs _ _); simpl; [lia|]. case_decide; simpl; lia.
Qed.

Lemma columnMove_hit bi a overId c :
  decodeColumnId overId = Some c →
  cr_boardIndex c = Num (Z.of_nat bi) →
  cr_columnName c ≠ tr_columnName a →
  columnMove bi a overId =
    [MOVE_TASK bi (tr_columnName a) (cr_columnName c) (tr_taskTitle a)].
Proof.
  intros Hc Hbi Hne. unfold columnMove. rewrite Hc.
  apply differs_false in Hbi. rewrite Hbi. by rewrite decide_False.
Qed.

Lemma position_Some b col title i :
  position b col title = Some i ↔
  ∃ ci c t, findColumn col (board_columns b) = Some (ci, c) ∧
            findTask title (col_tasks c) = Some (i, t).
Proof.
  unfold position. split.
  - destruct (findColumn col (board_columns b)) as [[ci c]|]; [|done].
    simpl. destruct (findTask title (col_tasks c)) as [[j t]|] eqn:E; [|done].
    simpl. intros [= ->]. by exists ci, c, t.
  - intros (ci & c & t & -> & Ht). simpl. by rewrite Ht.
Qed.

Lemma position_None b col title :
  position b col title = None ↔
  findColumn col (board_columns b) = None ∨
  ∃ ci c, findColumn col (board_columns b) = Some (ci, c) ∧
          findTask title (col_tasks c) = None.
Proof.
  unfold position. split.
  - destruct (findColumn col (board_columns b)) as [[ci c]|]; [|by left].
    simpl. destruct (findTask title (col_tasks c)) as [[j t]|] eqn:E;
      [done|]. intros _. right. eauto.
  - intros [-> | (ci & c & -> & Ht)]; [done|]. simpl. by rewrite Ht.
Qed.

(** The handler, once the guards on the dragged identifier have passed and
    the drop target reads as a task of the current board. *)
Lemma handleDragEnd_over_task b bi activeId overId a o :
  decodeTaskId activeId = Some a →
  tr_boardIndex a = Num (Z.of_nat bi) →
  decodeTaskId overId = Some o →
  tr_boardIndex o = Num (Z.of_nat bi) →
  handleDragEnd (Some b) (Some bi) activeId (Some overId) =
  match position b (tr_columnName a) (tr_taskTitle a),
        position b (tr_columnName o) (tr_taskTitle o) with
  | Some i, Some j =>
      if decide (tr_columnName a = tr_columnName o) then
        if decide (i = j) then []
        else [REORDER_TASK bi (tr_columnName a) i j]
      else [MOVE_TASK bi (tr_columnName a) (tr_columnName o) (tr_taskTitle a)]
  | _, _ => []
  end.
Proof.
  intros Ha Hab Ho Hob. unfold handleDragEnd. rewrite Ha, Ho.
  apply differs_false in Hab, Hob. rewrite Hab, Hob. unfold position.
  destruct (findColumn (tr_columnName a) _) as [[fi fc]|]; [|done].
  destruct (findColumn (tr_columnName o) _) as [[ti tc]|]; simpl.
  2: { by destruct (findTask (tr_taskTitle a) (col_tasks fc)) as [[? ?]|]. }
  destruct (findTask (tr_taskTitle a) (col_tasks fc)) as [[i ta]|]; [|done].
  destruct (findTask (tr_taskTitle o) (col_tasks tc)) as [[j to]|]; [|done].
  simpl. case_decide as Hcol; [done|].
  apply differs_false in Hob.
  by rewrite (columnMove_hit bi a overId _ (decodeColumnId_of_task _ _ Ho)).
Qed.

(** The handler when the drop target does not read as a task of the
    current board. *)
Lemma handleDragEnd_over_column b bi activeId overId a :
  decodeTaskId activeId = Some a →
  tr_boardIndex a = Num (Z.of_nat bi) →
  (∀ o, decodeTaskId overId = Some o → tr_boardIndex o ≠ Num (Z.of_nat bi)) →
  handleDragEnd (Some b) (Some bi) activeId (Some overId) =
  columnMove bi a overId.
Proof.
  intros Ha Hab Ho. unfold handleDragEnd. rewrite Ha.
  apply differs_false in Hab. rewrite Hab.
  destruct (decodeTaskId overId) as [o|]; [|done].
  destruct (differs (tr_boardIndex o) bi) eqn:E; [done|].
  apply differs_false in E. by destruct (Ho o eq_refl).
Qed.

(** C7, as amended. A drag-end event dispatches at most one action. It
    dispatches nothing when there is no current board, no board index or
    no drop target, or when the dragged identifier does not decode as a
    task of the current board. Otherwise:
    - if the drop target decodes as a task of the current board, both
      tasks' positions are resolved by column and title lookup and nothing
      is dispatched when either is unresolvable, whether the columns are
      equal or not; with both resolved, equal columns give REORDER_TASK
      with the two positions (nothing when the positions are equal) and
      different columns give MOVE_TASK to the drop target's column;
    - otherwise, if the drop target decodes as a column of the current
      board other than the source column, MOVE_TASK to that column is
      dispatched, and nothing in every remaining case. *)
Theorem drag_end_dispatch (board : option Board) (boardIndex : option nat)
    (activeId : string) (over : option string) :
  let out := handleDragEnd board boardIndex activeId over in
  length out ≤ 1 ∧
  (board = None ∨ boardIndex = None ∨ over = None ∨
   decodeTaskId activeId = None ∨
   (∃ bi a, boardIndex = Some bi ∧ decodeTaskId activeId = Some a ∧
            tr_boardIndex a ≠ Num (Z.of_nat bi)) →
   out = []) ∧
  (∀ b bi overId a,
     board = Some b → boardIndex = Some bi → over = Some overId →
     decodeTaskId activeId = Some a →
     tr_boardIndex a = Num (Z.of_nat bi) →
     (∀ o, decodeTaskId overId = Some o →
           tr_boardIndex o = Num (Z.of_nat bi) →
           out =
           match position b (tr_columnName a) (tr_taskTitle a),
                 position b (tr_columnName o) (tr_taskTitle o) with
           | Some i, Some j =>
               if decide (tr_columnName a = tr_columnName o) then
                 if decide (i = j) then []
                 else [REORDER_TASK bi (tr_columnName a) i j]
               else [MOVE_TASK bi (tr_columnName a) (tr_columnName o)
                       (tr_taskTitle a)]
           | _, _ => []
           end) ∧
     ((∀ o, decodeTaskId overId = Some o →
            tr_boardIndex o ≠ Num (Z.of_nat bi)) →
      (∀ c, decodeColumnId overId = Some c →
            cr_boardIndex c = Num (Z.of_nat bi) →
            cr_columnName c ≠ tr_columnName a →
            out = [MOVE_TASK bi (tr_columnName a) (cr_columnName c)
                     (tr_taskTitle a)]) ∧
      (decodeColumnId overId = None ∨
       (∃ c, decodeColumnId overId = Some c ∧
             (cr_boardIndex c ≠ Num (Z.of_nat bi) ∨
              cr_columnName c = tr_columnName a)) →
       out = []))).
Proof.
  cbv zeta. split; [|split].
  - unfold handleDragEnd.
    destruct boardIndex as [bi|], over as [overId|], board as [b|];
      simpl; try lia.
    destruct (decodeTaskId activeId) as [a|]; simpl; [|lia].
    destruct (differs (tr_boardIndex a) bi); simpl; [lia|].
    destruct (decodeTaskId overId) as [o|]; [|apply columnMove_length].
    destruct (differs (tr_boardIndex o) bi); [apply columnMove_length|].
    destruct (findColumn (tr_columnName a) _) as [[fi fc]|]; simpl; [|lia].
    destruct (findColumn (tr_columnName o) _) as [[ti tc]|]; simpl; [|lia].
    destruct (findTask (tr_taskTitle a) _) as [[i ta]|]; simpl; [|lia].
    destruct (findTask (tr_taskTitle o) _) as [[j to]|]; simpl; [|lia].
    repeat case_decide; simpl; try lia. apply columnMove_length.
  - unfold handleDragEnd.
    intros [-> | [-> | [-> | [Ha | (bi & a & -> & Ha & Hne)]]]].
    + by destruct boardIndex, over.
    + done.
    + by destruct boardIndex.
    + destruct boardIndex, over, board; try done. by rewrite Ha.
    + destruct over, board; try done. rewrite Ha.
      destruct (differs (tr_boardIndex a) bi) eqn:E; [done|].
      by apply differs_false in E.
  - intros b bi overId a -> -> -> Ha Hab. split.
    + intros o Ho Hob. by apply handleDragEnd_over_task.
    + intros Ho. rewrite (handleDragEnd_over_column _ _ _ _ a) by done.
      split.
      * intros c Hc Hcb Hne. by apply columnMove_hit.
      * unfold columnMove.
        intros [-> | (c & -> & [Hcb | Hcol])]; [done | |].
        -- destruct (differs (cr_boardIndex c) bi) eqn:E; [done|].
           by apply differs_false in E.
        -- destruct (differs (cr_boardIndex c) bi); [done|].
           by rewrite decide_True.
Qed.

(** Dropping the first task of a column on the second one reorders. *)
Lemma drag_end_dispatch_witness :
  handleDragEnd (Some drag_board) (Some 0) "0::Todo::X" (Some "0::Todo::Y")
  = [REORDER_TASK 0 "Todo" 0 1].
Proof.
  destruct (drag_end_dispatch (Some drag_board) (Some 0) "0::Todo::X"
              (Some "0::Todo::Y")) as (_ & _ & H).
  destruct (H drag_board 0 "0::Todo::Y" (mkTaskRef (Num 0) "Todo" "X")
              eq_refl eq_refl eq_refl eq_refl eq_refl) as [H1 _].
  exact (H1 (mkTaskRef (Num 0) "Todo" "Y") eq_refl eq_refl).
Defined.

(** C7 as stated fails when the drop target decodes as a task of another
    column but a lookup does not resolve: no MOVE_TASK is dispatched. This
    is so for a task that is no longer in the target column, and for a
    droppable column whose name holds the delimiter, whose identifier reads
    as a task. *)
Lemma drag_end_unresolved_target :
  decodeTaskId "0::Done::Ghost" = Some (mkTaskRef (Num 0) "Done" "Ghost") ∧
  handleDragEnd (Some drag_board) (Some 0) "0::Todo::X"
    (Some "0::Done::Ghost") ≠ [MOVE_TASK 0 "Todo" "Done" "X"] ∧
  decodeColumnId (encodeColumnId 0 "In::Review") =
    Some (mkColumnRef (Num 0) "In") ∧
  handleDragEnd (Some drag_board) (Some 0) "0::Todo::X"
    (Some (encodeColumnId 0 "In::Review")) = [].
Proof. repeat split. vm_compute. discriminate. Qed.

End DragEnd.

(** ** The compatibility transform *)

Section EnsureTaskIds.

Import BoardsService.

(** [mapM] relates each element to its image, in order. *)
Lemma mapM_Forall2 {A B} (f : A → Gen B) (R : A → B → Prop) l g :
  (∀ x g, R x (f x g).1) → Forall2 R l (mapM f l g).1.
Proof.
  intros Hf. revert g. induction l as [|x l IH]; intros g; simpl.
  - constructor.
  - unfold bind, ret. specialize (Hf x g). destruct (f x g) as [y g1].
    specialize (IH g1). destruct (mapM f l g1) as [ys g2]. simpl in *.
    by constructor.
Qed.

(** [mapM] over elements that [f] hands back unchanged draws nothing. *)
Lemma mapM_fixed {A B} (f : A → Gen B) (h : B → A) (P : B → Prop) ys g :
  (∀ y g, P y → f (h y) g = (y, g)) →
  Forall P ys → mapM f (map h ys) g = (ys, g).
Proof.
  intros Hf Hys. induction Hys as [|y ys Hy _ IH]; simpl; [done|].
  unfold bind, ret. by rewrite Hf, IH.
Qed.

Lemma generateTaskId_nonempty g : (generateTaskId g).1 ≠ "".
Proof. done. Qed.

Lemma ensureTask_agrees r g :
  let t := (ensureTask r g).1 in
  sameFields r t ∧ keepsId r t ∧ task_id t ≠ "".
Proof.
  unfold ensureTask, ensureId, bind, ret, sameFields, keepsId.
  destruct (raw_id r) as [i|] eqn:Ei; [case_decide as Hi|]; simpl;
    repeat split; try done.
  - intros j [= <-]. done.
  - by intros j [= <-].
Qed.

Lemma ensureColumn_agrees r g : columnAgrees r (ensureColumn r g).1.
Proof.
  unfold ensureColumn, bind, ret, columnAgrees.
  pose proof (mapM_Forall2 ensureTask
    (λ rt t, sameFields rt t ∧ keepsId rt t ∧ task_id t ≠ "")
    (rawcol_tasks r) g ensureTask_agrees) as H.
  by destruct (mapM ensureTask (rawcol_tasks r) g) as [ts g1].
Qed.

Lemma ensureBoard_agrees r g : boardAgrees r (ensureBoard r g).1.
Proof.
  unfold ensureBoard, bind, ret, boardAgrees.
  pose proof (mapM_Forall2 ensureColumn columnAgrees
    (rawboard_columns r) g ensureColumn_agrees) as H.
  by destruct (mapM ensureColumn (rawboard_columns r) g) as [cs g1].
Qed.

Lemma ensureTask_fixed t g : hasId t → ensureTask (rawTask t) g = (t, g).
Proof.
  intros Ht. unfold ensureTask, ensureId, bind, ret. simpl.
  rewrite decide_False by done. by destruct t.
Qed.

Lemma ensureColumn_fixed c g :
  columnHasIds c → ensureColumn (rawColumn c) g = (c, g).
Proof.
  intros Hc. unfold ensureColumn, bind, ret. simpl.
  rewrite (mapM_fixed ensureTask rawTask hasId) by (done || apply ensureTask_fixed).
  by destruct c.
Qed.

Lemma ensureBoard_fixed b g :
  boardHasIds b → ensureBoard (rawBoard b) g = (b, g).
Proof.
  intros Hb. unfold ensureBoard, bind, ret. simpl.
  rewrite (mapM_fixed ensureColumn rawColumn columnHasIds)
    by (done || apply ensureColumn_fixed).
  by destruct b.
Qed.

Lemma columnAgrees_hasIds r c : columnAgrees r c → columnHasIds c.
Proof.
  intros [_ H]. unfold columnHasIds.
  induction H as [|rt t rts ts (_ & _ & Ht) _ IH]; by constructor.
Qed.

Lemma boardAgrees_hasIds r b : boardAgrees r b → boardHasIds b.
Proof.
  intros [_ H]. unfold boardHasIds.
  induction H as [|rc c rcs cs Hc _ IH]; constructor; [|done].
  by eapply columnAgrees_hasIds.
Qed.

(** C8. Whatever ids the outside world supplies: the output of
    [ensureTaskIds] has the boards, columns and tasks of the input in the
    same number and order, with every name and every task field other than
    the id unchanged, every non-empty id kept and every task given a
    non-empty id; and running the transform again on that output returns
    it unchanged, without drawing a single new id. *)
Theorem ensureTaskIds_idempotent (raw : list RawBoard) (g g' : IdSource) :
  let out := (ensureTaskIds raw g).1 in
  Forall2 boardAgrees raw out ∧
  length out = length raw ∧
  ensureTaskIds (map rawBoard out) g' = (out, g').
Proof.
  cbv zeta.
  pose proof (mapM_Forall2 ensureBoard boardAgrees raw g ensureBoard_agrees)
    as H.
  fold (ensureTaskIds raw) in H. split; [done|]. split.
  - symmetry. by eapply Forall2_length.
  - unfold ensureTaskIds at 1.
    apply (mapM_fixed ensureBoard rawBoard boardHasIds);
      [intros; by apply ensureBoard_fixed|].
    induction H as [|r b rs bs Hb _ IH]; constructor; [|done].
    by eapply boardAgrees_hasIds.
Qed.

(** Ids are drawn for the task without an id and for the one whose id is
    empty; the id that is present is kept. *)
Example ensureTaskIds_fills_missing :
  map task_id
    (concat (map col_tasks
       (concat (map board_columns (ensureTaskIds raw_boards fixed_ids).1)))) =
  ["task-42-k3x9q2a"; "task-42-k3x9q2a"; "task-7"] ∧
  calls (ensureTaskIds raw_boards fixed_ids).2 = 2.
Proof. split; reflexivity. Qed.

End EnsureTaskIds.

(** ** The action reducer *)

Section Reducer.

(** The [MOVE_TASK] and [REORDER_TASK] cases of [boardsReducer.test.ts]. *)
Example handles_MOVE_TASK :
  boardsReducer move_test_state (MOVE_TASK 0 "Todo" "Done" "Move Me") =
  mkBoardsState
    [mkBoard "Board"
       [mkColumn "Todo" [];
        mkColumn "Done" [test_task "task-1" "Move Me" "Done"]]].
Proof. reflexivity. Qed.

Example handles_REORDER_TASK :
  boardsReducer reorder_test_state (REORDER_TASK 0 "Todo" 0 1) =
  mkBoardsState
    [mkBoard "Board"
       [mkColumn "Todo" [test_task "task-2" "Task 2" "Todo";
                         test_task "task-1" "Task 1" "Todo"]]].
Proof. reflexivity. Qed.

Lemma spliceMove_spec {A} (l : list A) i j t :
  l !! i = Some t → j < length l →
  let l' := spliceMove i j t l in
  l' ≡ₚ l ∧ length l' = length l ∧
  l' !! j = Some t ∧ delete j l' = delete i l.
Proof.
  intros Hi Hj. cbv zeta. unfold spliceMove.
  assert (length (delete i l) = length l - 1) as Hlen
    by (apply length_delete; eauto).
  assert (length (take j (delete i l)) = j) as Htake
    by (apply length_take_le; lia).
  repeat split.
  - rewrite <- Permutation_middle, take_drop, delete_take_drop.
    rewrite <- (take_drop_middle l i t) at 3 by done.
    by rewrite <- Permutation_middle.
  - apply lookup_lt_Some in Hi.
    rewrite length_app, Htake. simpl. rewrite length_drop. lia.
  - by apply list_lookup_middle.
  - rewrite (delete_take_drop (_ ++ _)).
    rewrite take_app_length' by done.
    rewrite cons_middle, (assoc_L (++)).
    rewrite drop_app_length' by (rewrite length_app, Htake; simpl; lia).
    apply take_drop.
Qed.

Lemma sum_insert {A} (f : A → nat) (l : list A) i x y :
  l !! i = Some x →
  sum_list_with f (<[i := y]> l) + f x = sum_list_with f l + f y.
Proof.
  revert i. induction l as [|a l IH]; intros [|i] Hi; simpl in *; try done.
  - injection Hi as ->. lia.
  - specialize (IH i Hi). lia.
Qed.

Lemma findColumn_Some name cs i c :
  findColumn name cs = Some (i, c) → cs !! i = Some c ∧ col_name c = name.
Proof. intros H. apply list_find_Some in H. by destruct H as (? & ? & _). Qed.

Lemma findTask_first title ts i t :
  ts !! i = Some t → task_title t = title →
  (∀ j t', j < i → ts !! j = Some t' → task_title t' ≠ title) →
  findTask title ts = Some (i, t).
Proof. intros. apply list_find_Some. naive_solver. Qed.

(** C2. In a state where board [bi] has a column named [columnName] and
    [fromIndex], [toIndex] are two different valid positions of its task
    list, REORDER_TASK puts in place of that list the one obtained by
    removing the element at [fromIndex] and inserting it at [toIndex] in
    the resulting shorter list; the new list is a permutation of the old
    one with the moved task at [toIndex] and the others in their old
    order; nothing else in the state changes. With [fromIndex] equal to
    [toIndex] the state is returned unchanged. *)
Theorem reorder_task_permutation :
  (∀ st bi columnName fromIndex toIndex b ci c,
     boards st !! bi = Some b →
     findColumn columnName (board_columns b) = Some (ci, c) →
     fromIndex < length (col_tasks c) →
     toIndex < length (col_tasks c) →
     fromIndex ≠ toIndex →
     ∃ t tasks',
       col_tasks c !! fromIndex = Some t ∧
       tasks' = (take toIndex (delete fromIndex (col_tasks c)) ++
                 t :: drop toIndex (delete fromIndex (col_tasks c)))%list ∧
       boardsReducer st (REORDER_TASK bi columnName fromIndex toIndex) =
         {| boards :=
              <[bi := with_columns
                        (<[ci := with_tasks tasks' c]> (board_columns b)) b]>
                (boards st) |} ∧
       tasks' ≡ₚ col_tasks c ∧
       length tasks' = length (col_tasks c) ∧
       tasks' !! toIndex = Some t ∧
       delete toIndex tasks' = delete fromIndex (col_tasks c)) ∧
  (∀ st bi columnName index,
     boardsReducer st (REORDER_TASK bi columnName index index) = st).
Proof.
  split.
  - intros st bi columnName fromIndex toIndex b ci c Hb Hc Hfrom Hto Hne.
    destruct (lookup_lt_is_Some_2 _ _ Hfrom) as [t Ht].
    exists t, (spliceMove fromIndex toIndex t (col_tasks c)).
    split; [done|]. split; [done|]. split.
    + unfold boardsReducer, reduce, reorderTask.
      rewrite decide_False by done. rewrite Hb. simpl. rewrite Hc. simpl.
      by rewrite Ht.
    + by apply spliceMove_spec.
  - intros st bi columnName index. unfold boardsReducer, reduce, reorderTask.
    by rewrite decide_True.
Qed.

(** C1. In a state where board [bi] has columns named [fromColumn] and
    [toColumn], different from each other, and [t] is the first task of
    [fromColumn] titled [taskTitle], MOVE_TASK removes [t] from
    [fromColumn], appends it with its status set to [toColumn] at the end
    of [toColumn]'s task list, changes nothing else, and leaves the number
    of tasks of the board unchanged. With [fromColumn] equal to [toColumn],
    or with no task of that title in [fromColumn], the state is returned
    unchanged. *)
Theorem move_task_effect :
  (∀ st bi fromColumn toColumn taskTitle b fi fc ti t di dc,
     boards st !! bi = Some b →
     findColumn fromColumn (board_columns b) = Some (fi, fc) →
     findColumn toColumn (board_columns b) = Some (di, dc) →
     col_tasks fc !! ti = Some t →
     task_title t = taskTitle →
     (∀ j t', j < ti → col_tasks fc !! j = Some t' →
              task_title t' ≠ taskTitle) →
     fromColumn ≠ toColumn →
     ∃ b',
       boardsReducer st (MOVE_TASK bi fromColumn toColumn taskTitle) =
         {| boards := <[bi := b']> (boards st) |} ∧
       board_name b' = board_name b ∧
       length (board_columns b') = length (board_columns b) ∧
       board_columns b' !! fi =
         Some (with_tasks (delete ti (col_tasks fc)) fc) ∧
       board_columns b' !! di =
         Some (with_tasks (col_tasks dc ++ [set_status toColumn t]) dc) ∧
       (∀ j, j ≠ fi → j ≠ di →
             board_columns b' !! j = board_columns b !! j) ∧
       taskCount b' = taskCount b) ∧
  (∀ st bi fromColumn toColumn taskTitle,
     fromColumn = toColumn ∨
     (∀ b fi fc,
        boards st !! bi = Some b →
        findColumn fromColumn (board_columns b) = Some (fi, fc) →
        Forall (λ t, task_title t ≠ taskTitle) (col_tasks fc)) →
     boardsReducer st (MOVE_TASK bi fromColumn toColumn taskTitle) = st).
Proof.
  split.
  - intros st bi fromColumn toColumn taskTitle b fi fc ti t di dc
      Hb Hfc Hdc Ht Htitle Hfirst Hne.
    pose proof (findTask_first _ _ _ _ Ht Htitle Hfirst) as Hfind.
    destruct (findColumn_Some _ _ _ _ Hfc) as [Hfi Hfn].
    destruct (findColumn_Some _ _ _ _ Hdc) as [Hdi Hdn].
    assert (fi ≠ di) as Hidx by (intros ->; congruence).
    pose proof (lookup_lt_Some _ _ _ Hfi) as Hfil.
    pose proof (lookup_lt_Some _ _ _ Hdi) as Hdil.
    eexists. split.
    { unfold boardsReducer, reduce, moveTask.
      rewrite decide_False by done. rewrite Hb. simpl. rewrite Hfc. simpl.
      rewrite Hfind. simpl. rewrite Hdc. simpl. reflexivity. }
    simpl. rewrite !length_insert.
    split; [done|]. split; [done|]. split.
    { rewrite list_lookup_insert_ne by done.
      by rewrite list_lookup_insert_eq. }
    split. { rewrite list_lookup_insert_eq; [done|]. by rewrite length_insert. }
    split. { intros j Hj1 Hj2. by rewrite !list_lookup_insert_ne. }
    unfold taskCount. simpl.
    pose proof (sum_insert (λ c, length (col_tasks c)) (board_columns b) fi
                  fc (with_tasks (delete ti (col_tasks fc)) fc) Hfi) as H1.
    pose proof (sum_insert (λ c, length (col_tasks c))
                  (<[fi := with_tasks (delete ti (col_tasks fc)) fc]>
                     (board_columns b)) di dc
                  (with_tasks (col_tasks dc ++ [set_status toColumn t]) dc))
      as H2.
    rewrite list_lookup_insert_ne in H2 by done. specialize (H2 Hdi).
    simpl in H1, H2. rewrite length_app in H2. simpl in H2.
    rewrite length_delete in H1 by eauto.
    pose proof (lookup_lt_Some _ _ _ Ht). lia.
  - intros st bi fromColumn toColumn taskTitle [Heq | Hnone];
      unfold boardsReducer, reduce, moveTask.
    + by rewrite decide_True.
    + case_decide; [done|].
      destruct (boards st !! bi) as [b|] eqn:Hb; [|done]. simpl.
      destruct (findColumn fromColumn (board_columns b)) as [[fi fc]|]
        eqn:Hfc; [|done]. simpl.
      specialize (Hnone b fi fc eq_refl Hfc).
      apply (list_find_None (λ t, task_title t = taskTitle)) in Hnone.
      unfold findTask. by rewrite Hnone.
Qed.

(** The [REORDER_TASK] case of the reducer's test suite, through C2. *)
Lemma reorder_task_permutation_witness :
  ∃ tasks',
    boardsReducer reorder_test_state (REORDER_TASK 0 "Todo" 0 1) =
      mkBoardsState [mkBoard "Board" [mkColumn "Todo" tasks']] ∧
    tasks' ≡ₚ [test_task "task-1" "Task 1" "Todo";
               test_task "task-2" "Task 2" "Todo"] ∧
    tasks' !! 1 = Some (test_task "task-1" "Task 1" "Todo").
Proof.
  destruct (proj1 reorder_task_permutation reorder_test_state 0 "Todo" 0 1
              (mkBoard "Board"
                 [mkColumn "Todo" [test_task "task-1" "Task 1" "Todo";
                                   test_task "task-2" "Task 2" "Todo"]])
              0
              (mkColumn "Todo" [test_task "task-1" "Task 1" "Todo";
                                test_task "task-2" "Task 2" "Todo"])
              eq_refl eq_refl)
    as (t & tasks' & Ht & _ & Hred & Hperm & _ & Hto & _);
    [simpl; lia | simpl; lia | lia |].
  exists tasks'. injection Ht as <-. by rewrite Hred.
Defined.

(** The [MOVE_TASK] case of the reducer's test suite, through C1. *)
Lemma move_task_effect_witness :
  ∃ b',
    boardsReducer move_test_state (MOVE_TASK 0 "Todo" "Done" "Move Me") =
      mkBoardsState [b'] ∧
    board_columns b' !! 0 = Some (mkColumn "Todo" []) ∧
    board_columns b' !! 1 =
      Some (mkColumn "Done" [test_task "task-1" "Move Me" "Done"]) ∧
    taskCount b' = 1.
Proof.
  destruct (proj1 move_task_effect move_test_state 0 "Todo" "Done" "Move Me"
              (mkBoard "Board"
                 [mkColumn "Todo" [test_task "task-1" "Move Me" "Todo"];
                  mkColumn "Done" []])
              0 (mkColumn "Todo" [test_task "task-1" "Move Me" "Todo"])
              0 (test_task "task-1" "Move Me" "Todo")
              1 (mkColumn "Done" [])
              eq_refl eq_refl eq_refl eq_refl eq_refl)
    as (b' & Hred & _ & _ & Hfrom & Hto & _ & Hcount);
    [intros j t' Hj; lia | discriminate |].
  exists b'. by rewrite Hred, Hfrom, Hto, Hcount.
Defined.

End Reducer.

(** ** The store and its persistence mirror *)

Section Persistence.

Import Store.

Lemma boardsWrites_log wr w :
  boardsWrites (log wr w) =
  boardsWrites w ++ match wr with WriteBoards b => [b] | _ => [] end.
Proof.
  unfold boardsWrites, log. simpl. rewrite omap_app. by destruct wr.
Qed.

Lemma persistenceListener_nonempty state w :
  nonemptyWrites w → nonemptyWrites (persistenceListener state w).
Proof.
  unfold persistenceListener, nonemptyWrites. intros Hw.
  destruct (0 <? length (st_boards state)) eqn:E; [|done].
  rewrite boardsWrites_log. apply Forall_app. split; [done|].
  constructor; [|done]. apply Nat.ltb_lt in E.
  destruct (st_boards state); [simpl in E; lia | done].
Qed.

Lemma setState_nonempty updater w :
  nonemptyWrites w → nonemptyWrites (setState updater w).
Proof.
  intros Hw. unfold setState. destruct (updater (store w)); [|done].
  destruct (mirror w); [|done]. by apply persistenceListener_nonempty.
Qed.

Lemma log_other_nonempty wr w :
  (∀ b, wr ≠ WriteBoards b) → nonemptyWrites w → nonemptyWrites (log wr w).
Proof.
  intros Hwr Hw. unfold nonemptyWrites. rewrite boardsWrites_log.
  destruct wr; [by destruct (Hwr boards0) | by rewrite app_nil_r ..].
Qed.

(** The part of the mirror's contract that holds: whatever is done to the
    store, an empty boards list is never written to storage. *)
Lemma mirror_never_writes_empty op w :
  nonemptyWrites w → nonemptyWrites (run op w).
Proof.
  intros Hw.
  destruct op; simpl; unfold dispatch, setTheme, login, logout,
    addLoadingKey, removeLoadingKey, addToast, removeToast;
    repeat (apply log_other_nonempty; [done|]);
    by apply setState_nonempty.
Qed.

(** C4, where the code departs from it. With the mirror subscribed and a
    non-empty boards list in the store, adding a toast, or setting the theme,
    leaves the boards untouched and yet writes the boards snapshot to storage
    once more: the listener is subscribed to the whole state, not to the
    boards slice. *)
Theorem mirror_writes_on_toast (w : World) (t : UiToast) (th : Theme) :
  mirror w = true →
  st_boards (store w) ≠ [] →
  st_boards (store (addToast t w)) = st_boards (store w) ∧
  boardsWrites (addToast t w) = boardsWrites w ++ [st_boards (store w)] ∧
  st_boards (store (setTheme th w)) = st_boards (store w) ∧
  boardsWrites (setTheme th w) = boardsWrites w ++ [st_boards (store w)].
Proof.
  intros Hm Hb.
  assert ((0 <? length (st_boards (store w))) = true) as Hlen.
  { apply Nat.ltb_lt. destruct (st_boards (store w)); [done | simpl; lia]. }
  unfold addToast, setTheme, setState. rewrite Hm.
  unfold persistenceListener. simpl. rewrite Hlen.
  rewrite !boardsWrites_log. simpl. by rewrite app_nil_r.
Qed.

(** One board in the store, then a toast: two writes of the same
    snapshot. *)
Lemma mirror_writes_on_toast_witness :
  boardsWrites hydrated_world = [one_board] ∧
  st_boards (store (addToast (mkToast "1-a" info "Saved") hydrated_world))
    = one_board ∧
  boardsWrites (addToast (mkToast "1-a" info "Saved") hydrated_world)
    = [one_board; one_board].
Proof.
  destruct (mirror_writes_on_toast hydrated_world
              (mkToast "1-a" info "Saved") dark eq_refl)
    as (Hb & Hw & _); [discriminate|].
  rewrite Hb, Hw. repeat split.
Defined.

(** The store's own tests: a dispatch goes through the reducer, a theme
    change is persisted, toasts are added and removed. *)
Example store_dispatch_add_board :
  st_boards (store (dispatch (ADD_BOARD (mkBoard "Test Board" [])) initialWorld))
  = [mkBoard "Test Board" []].
Proof. reflexivity. Qed.

Example store_sets_theme :
  theme (store (setTheme dark initialWorld)) = dark ∧
  writes (setTheme dark initialWorld) = [WriteTheme dark].
Proof. split; reflexivity. Qed.

Example store_manages_toasts :
  let t := mkToast "1" success "Test toast" in
  toasts (store (addToast t initialWorld)) = [t] ∧
  toasts (store (removeToast "1" (addToast t initialWorld))) = [].
Proof. split; reflexivity. Qed.

End Persistence.

(** ** Minimum-duration busy keys *)

Section BusyKeys.

Import UiContext.

Lemma store_setState updater w :
  Store.store (Store.setState updater w) =
  default (Store.store w) (updater (Store.store w)).
Proof.
  unfold Store.setState. destruct (updater (Store.store w)); [|done].
  destruct (Store.mirror w); [|done]. unfold Store.persistenceListener.
  by destruct (0 <? _).
Qed.

Lemma elem_of_addLoadingKey key k w :
  key ∈ Store.loadingKeys (Store.store (Store.addLoadingKey k w)) ↔
  key = k ∨ key ∈ Store.loadingKeys (Store.store w).
Proof.
  unfold Store.addLoadingKey. rewrite store_setState.
  case_bool_decide as Hin; simpl.
  - split; [auto|]. by intros [->|?].
  - rewrite elem_of_app, list_elem_of_singleton. tauto.
Qed.

Lemma elem_of_removeLoadingKey key k w :
  key ∈ Store.loadingKeys (Store.store (Store.removeLoadingKey k w)) ↔
  key ≠ k ∧ key ∈ Store.loadingKeys (Store.store w).
Proof.
  unfold Store.removeLoadingKey. rewrite store_setState. simpl.
  rewrite list_elem_of_filter. tauto.
Qed.

(** *** The timers left by [clearExisting] *)

Lemma clearExisting_fields k s :
  let s' := clearExisting k s in
  world s' = world s ∧ now s' = now s ∧
  loadingStartTimes s' = loadingStartTimes s ∧
  stopTimeouts s' = stopTimeouts s ∧ nextTimer s' = nextTimer s.
Proof.
  unfold clearExisting. destruct (stopTimeouts s !! k) as [id|]; [|done].
  by case_decide.
Qed.

Lemma clearExisting_pending k s t :
  t ∈ pending (clearExisting k s) → t ∈ pending s.
Proof.
  unfold clearExisting. destruct (stopTimeouts s !! k) as [id|]; [|done].
  case_decide; [done|]. simpl. rewrite list_elem_of_filter. tauto.
Qed.

Lemma clearExisting_clears k s t :
  wellFormed s → t ∈ pending (clearExisting k s) → timer_key t ≠ k.
Proof.
  intros (_ & _ & _ & Hpos & Hreg) Ht Hk.
  pose proof (clearExisting_pending _ _ _ Ht) as Ht0.
  specialize (Hpos t Ht0). specialize (Hreg t Ht0). rewrite Hk in Hreg.
  unfold clearExisting in Ht. rewrite Hreg in Ht.
  rewrite decide_False in Ht by lia. simpl in Ht.
  apply list_elem_of_filter in Ht. tauto.
Qed.

Lemma forget_fields k s :
  let s' := forget k s in
  world s' = world s ∧ now s' = now s ∧
  loadingStartTimes s' = loadingStartTimes s ∧
  pending s' = pending s ∧ nextTimer s' = nextTimer s.
Proof.
  unfold forget. destruct (stopTimeouts s !! k) as [id|]; [|done].
  by case_decide.
Qed.

Lemma forget_other k s k' :
  k' ≠ k → stopTimeouts (forget k s) !! k' = stopTimeouts s !! k'.
Proof.
  intros Hne. unfold forget. destruct (stopTimeouts s !! k) as [id|]; [|done].
  case_decide; [done|]. simpl. by rewrite lookup_delete_ne.
Qed.

(** *** Every reachable state is well formed *)

Lemma startLoading_pending k s t :
  t ∈ pending (startLoading k s) → t ∈ pending (clearExisting k s).
Proof.
  unfold startLoading. simpl.
  destruct (forget_fields k (clearExisting k s)) as (_ & _ & _ & -> & _).
  done.
Qed.

Lemma startLoading_wellFormed k s :
  wellFormed s → wellFormed (startLoading k s).
Proof.
  intros Hs. pose proof Hs as (Hnow & Hnext & Hst & Hpos & Hreg).
  destruct (clearExisting_fields k s) as (_ & Hn & Hl & Hm & Hx).
  destruct (forget_fields k (clearExisting k s))
    as (_ & Hn' & Hl' & Hp' & Hx').
  unfold wellFormed, startLoading. simpl.
  rewrite Hn', Hn, Hl', Hl, Hx', Hx, Hp'. split_and!; try done.
  - intros k' st. rewrite lookup_insert. case_decide; [|apply Hst].
    intros [= <-]. lia.
  - intros t Ht. by apply clearExisting_pending, Hpos in Ht.
  - intros t Ht. pose proof (clearExisting_clears _ _ _ Hs Ht) as Hne.
    rewrite forget_other, Hm by done.
    by apply clearExisting_pending, Hreg in Ht.
Qed.

Lemma stopLoading_wellFormed k s :
  wellFormed s → wellFormed (stopLoading k s).
Proof.
  intros Hs. pose proof Hs as (Hnow & Hnext & Hst & Hpos & Hreg).
  destruct (clearExisting_fields k s) as (_ & Hn & Hl & Hm & Hx).
  unfold wellFormed, stopLoading. case_decide as Hrem; simpl;
    rewrite ?Hn, ?Hl, ?Hm, ?Hx; split_and!; try done; try lia.
  - intros t [Ht | ->%list_elem_of_singleton]%elem_of_app; simpl; [|lia].
    apply clearExisting_pending, Hpos in Ht. lia.
  - intros t [Ht | ->%list_elem_of_singleton]%elem_of_app; simpl.
    + pose proof (clearExisting_clears _ _ _ Hs Ht) as Hne.
      rewrite lookup_insert_ne by done.
      by apply clearExisting_pending, Hreg in Ht.
    + by rewrite lookup_insert_eq.
  - intros k' st. rewrite lookup_delete. case_decide; [done|apply Hst].
  - intros t Ht. by apply clearExisting_pending, Hpos in Ht.
  - intros t Ht. pose proof (clearExisting_clears _ _ _ Hs Ht) as Hne.
    rewrite lookup_delete_ne by done.
    by apply clearExisting_pending, Hreg in Ht.
Qed.

Lemma fire_wellFormed id s : wellFormed s → wellFormed (fire id s).
Proof.
  intros Hs. pose proof Hs as (Hnow & Hnext & Hst & Hpos & Hreg).
  unfold fire.
  destruct (list_find _ (pending s)) as [[i t]|] eqn:Hfind; [|done].
  case_decide as Hdue; [|done].
  apply list_find_Some in Hfind as (Hi & Hid & _).
  apply list_elem_of_lookup_2 in Hi.
  unfold wellFormed. simpl. split_and!; try done.
  - intros k' st. rewrite lookup_delete. case_decide; [done|apply Hst].
  - intros t' [_ Ht']%list_elem_of_filter. by apply Hpos.
  - intros t' [Hne Ht']%list_elem_of_filter.
    rewrite lookup_delete_ne; [by apply Hreg|].
    intros Hk. pose proof (Hreg t Hi) as H1. pose proof (Hreg t' Ht') as H2.
    rewrite Hk in H1. congruence.
Qed.

Lemma unmount_wellFormed s : wellFormed s → wellFormed (unmount s).
Proof.
  intros (Hnow & Hnext & Hst & Hpos & Hreg).
  assert (∀ t, t ∈ pending (unmount s) → False) as Hnone.
  { simpl. intros t [Hout Ht]%list_elem_of_filter. apply Hout.
    apply list_elem_of_fmap. exists (timer_key t, timer_id t).
    split; [done|]. by apply elem_of_map_to_list, Hreg. }
  unfold wellFormed. split_and!; try done.
  - intros t Ht. by destruct (Hnone t).
  - intros t Ht. by destruct (Hnone t).
Qed.

Lemma step_wellFormed s e : wellFormed s → wellFormed (step s e).
Proof.
  destruct e as [k|k|ms|id|]; simpl.
  - apply startLoading_wellFormed.
  - apply stopLoading_wellFormed.
  - intros (Hnow & Hnext & Hst & Hpos & Hreg).
    unfold wellFormed. simpl. split_and!; try done; [lia|].
    intros k st Hk. specialize (Hst k st Hk). lia.
  - apply fire_wellFormed.
  - apply unmount_wellFormed.
Qed.

Lemma run_wellFormed es s : wellFormed s → wellFormed (run s es).
Proof.
  revert s. induction es as [|e es IH]; intros s Hs; [done|].
  simpl. by apply IH, step_wellFormed.
Qed.

Lemma initial_wellFormed : wellFormed initial.
Proof.
  unfold wellFormed. simpl. split_and!; try done; try lia.
  - intros t Ht. by apply elem_of_nil in Ht.
  - intros t Ht. by apply elem_of_nil in Ht.
Qed.

(** *** A started key is held for the minimum duration *)

Lemma startLoading_now k s : now (startLoading k s) = now s.
Proof.
  destruct (clearExisting_fields k s) as (_ & Hn & _).
  destruct (forget_fields k (clearExisting k s)) as (_ & Hn' & _).
  unfold startLoading. simpl. congruence.
Qed.

Lemma startLoading_held key t0 k s :
  held key t0 s → held key t0 (startLoading k s).
Proof.
  intros [Ht0 Hheld].
  destruct (clearExisting_fields k s) as (Hw & Hn & Hl & _ & _).
  destruct (forget_fields k (clearExisting k s)) as (Hw' & Hn' & Hl' & _ & _).
  assert (now (startLoading k s) = now s) as Hnow
    by (unfold startLoading; simpl; congruence).
  split; [by rewrite Hnow|]. rewrite Hnow. intros Hlt.
  destruct (Hheld Hlt) as (Hbusy & Hst & Hdue). repeat split.
  - unfold busy, startLoading. simpl. rewrite elem_of_addLoadingKey.
    right. by rewrite Hw', Hw.
  - unfold startLoading. simpl. intros st. rewrite Hl', Hl, Hn', Hn.
    rewrite lookup_insert. case_decide; [|apply Hst].
    intros [= <-]. by left.
  - intros t Ht Hk. apply Hdue; [|done].
    by apply startLoading_pending, clearExisting_pending in Ht.
Qed.

Lemma stopLoading_held key t0 k s :
  held key t0 s → held key t0 (stopLoading k s).
Proof.
  intros [Ht0 Hheld].
  destruct (clearExisting_fields k s) as (Hw & Hn & Hl & _ & _).
  assert (now (stopLoading k s) = now s) as Hnow
    by (unfold stopLoading; case_decide; simpl; congruence).
  split; [by rewrite Hnow|]. rewrite Hnow. intros Hlt.
  destruct (Hheld Hlt) as (Hbusy & Hst & Hdue).
  unfold stopLoading. case_decide as Hrem.
  - repeat split.
    + unfold busy. simpl. by rewrite Hw.
    + simpl. by rewrite Hl.
    + simpl. intros t [Ht | ->%list_elem_of_singleton]%elem_of_app Hk.
      * apply Hdue; [|done]. by apply clearExisting_pending in Ht.
      * simpl in *. subst k. rewrite Hn. unfold elapsedSince in *.
        unfold MIN_LOADING_DURATION_MS in *.
        destruct (loadingStartTimes s !! key) as [st|] eqn:Est; [|lia].
        case_decide; [lia|]. destruct (Hst st eq_refl); lia.
  - destruct (decide (k = key)) as [->|Hne].
    + (* the minimum duration cannot have passed yet *)
      exfalso. unfold elapsedSince, MIN_LOADING_DURATION_MS in *.
      destruct (loadingStartTimes s !! key) as [st|] eqn:Est; [|lia].
      case_decide; [lia|]. destruct (Hst st eq_refl); lia.
    + repeat split.
      * unfold busy. simpl. rewrite elem_of_removeLoadingKey, Hw.
        split; [congruence | done].
      * simpl. intros st. rewrite Hl, lookup_delete_ne by done. apply Hst.
      * simpl. intros t Ht Hk. apply Hdue; [|done].
        by apply clearExisting_pending in Ht.
Qed.

Lemma fire_held key t0 id s : held key t0 s → held key t0 (fire id s).
Proof.
  intros [Ht0 Hheld]. unfold fire.
  destruct (list_find _ (pending s)) as [[i t]|] eqn:Hfind; [|done].
  case_decide as Hfire; [|done].
  apply list_find_Some in Hfind as (Hi & Hid & _).
  apply list_elem_of_lookup_2 in Hi.
  split; [done|]. simpl. intros Hlt.
  destruct (Hheld Hlt) as (Hbusy & Hst & Hdue).
  assert (timer_key t ≠ key) as Hne.
  { intros Hk. specialize (Hdue t Hi Hk). lia. }
  repeat split.
  - unfold busy. simpl. rewrite elem_of_removeLoadingKey.
    split; [congruence | done].
  - intros st. rewrite lookup_delete_ne by done. apply Hst.
  - intros t' [_ Ht']%list_elem_of_filter. by apply Hdue.
Qed.

Lemma step_held key t0 s e : held key t0 s → held key t0 (step s e).
Proof.
  destruct e as [k|k|ms|id|]; simpl.
  - apply startLoading_held.
  - apply stopLoading_held.
  - intros [Ht0 Hheld]. split; simpl; [lia|]. intros Hlt. apply Hheld. lia.
  - apply fire_held.
  - intros [Ht0 Hheld]. split; [done|]. simpl. intros Hlt.
    destruct (Hheld Hlt) as (Hbusy & Hst & Hdue). repeat split; try done.
    intros t [_ Ht]%list_elem_of_filter. by apply Hdue.
Qed.

Lemma run_held key t0 es s : held key t0 s → held key t0 (run s es).
Proof.
  revert s. induction es as [|e es IH]; intros s Hs; [done|].
  simpl. by apply IH, step_held.
Qed.

Lemma filter_none {A} (P : A → Prop) `{!∀ x, Decision (P x)} (l : list A) :
  (∀ x, x ∈ l → ¬ P x) → filter P l = [].
Proof.
  intros Hl. destruct (filter P l) as [|x l'] eqn:E; [done|].
  assert (x ∈ filter P l) as Hx by (rewrite E; left).
  apply list_elem_of_filter in Hx as [HP Hx]. by destruct (Hl x).
Qed.

Lemma startLoading_busy key s : busy key (startLoading key s).
Proof.
  unfold busy, startLoading. simpl. rewrite elem_of_addLoadingKey. by left.
Qed.

Lemma startLoading_no_removal key s :
  wellFormed s → removalsOf key (startLoading key s) = [].
Proof.
  intros Hs. unfold removalsOf. apply filter_none.
  intros t Ht%startLoading_pending. by apply clearExisting_clears in Ht.
Qed.

Lemma started_held key s :
  wellFormed s → held key (now s) (startLoading key s).
Proof.
  intros Hs.
  destruct (clearExisting_fields key s) as (_ & Hn & Hl & _ & _).
  destruct (forget_fields key (clearExisting key s)) as (_ & Hn' & Hl' & _ & _).
  assert (now (startLoading key s) = now s) as Hnow
    by (unfold startLoading; simpl; congruence).
  split; [lia|]. intros _. repeat split.
  - apply startLoading_busy.
  - unfold startLoading. simpl. rewrite lookup_insert_eq.
    intros st [= <-]. left. lia.
  - intros t Ht%startLoading_pending Hk.
    by apply clearExisting_clears in Ht.
Qed.

(** What [stopLoading] leaves scheduled. *)
Lemma stopLoading_removals key s :
  wellFormed s →
  let elapsed := elapsedSince (loadingStartTimes s !! key) (now s) in
  let remaining := Z.max 0 (MIN_LOADING_DURATION_MS - elapsed) in
  removalsOf key (stopLoading key s) =
  if decide (0 < remaining)%Z
  then [mkTimer (nextTimer s) (now s + remaining) key]
  else [].
Proof.
  intros Hs. cbv zeta.
  destruct (clearExisting_fields key s) as (_ & Hn & _ & _ & Hx).
  assert (filter (λ t, timer_key t = key) (pending (clearExisting key s)) = [])
    as Hold.
  { apply filter_none. intros t Ht. by apply clearExisting_clears in Ht. }
  unfold removalsOf, stopLoading. case_decide as Hrem; simpl.
  - rewrite filter_app, Hold, Hn, Hx. simpl.
    by rewrite filter_cons_True, filter_nil.
  - done.
Qed.

Lemma fire_found id s i t :
  list_find (λ t, timer_id t = id) (pending s) = Some (i, t) →
  (timer_due t ≤ now s)%Z →
  fire id s = doStop (timer_key t) (clearTimeout id s).
Proof. intros Hfind Hdue. unfold fire. by rewrite Hfind, decide_True. Qed.

Lemma fire_missing id s :
  (∀ t, t ∈ pending s → timer_id t ≠ id) → fire id s = s.
Proof.
  intros Hnone. unfold fire.
  destruct (list_find _ (pending s)) as [[i t]|] eqn:Hfind; [|done].
  apply list_find_Some in Hfind as (Hi & Hid & _).
  by apply list_elem_of_lookup_2, Hnone in Hi.
Qed.

Lemma doStop_not_busy key s : ¬ busy key (doStop key s).
Proof. unfold busy. simpl. rewrite elem_of_removeLoadingKey. tauto. Qed.

(** A stop does clear the key: at the latest when the minimum duration has
    passed and the event loop runs the removal it scheduled. *)
Lemma stopLoading_clears key s :
  wellFormed s →
  ¬ busy key (run s [Stop key; Elapse 300; Fire (nextTimer s)]).
Proof.
  intros Hs. pose proof Hs as (Hnow & Hnext & Hst & Hpos & Hreg).
  destruct (clearExisting_fields key s) as (Hw & Hn & Hl & Hm & Hx).
  change (run s [Stop key; Elapse 300; Fire (nextTimer s)])
    with (fire (nextTimer s) (advance 300 (stopLoading key s))).
  assert (∀ t, t ∈ pending (clearExisting key s) →
               timer_id t ≠ nextTimer s) as Hfresh.
  { intros t Ht%clearExisting_pending%Hpos. lia. }
  unfold stopLoading. case_decide as Hrem.
  - set (remaining := Z.max 0 (MIN_LOADING_DURATION_MS -
           elapsedSince (loadingStartTimes s !! key) (now s))) in *.
    set (new := mkTimer (nextTimer s) (now s + remaining) key).
    assert (list_find (λ t, timer_id t = nextTimer s)
              (pending (advance 300
                 (setTimeout key remaining (clearExisting key s))))
            = Some (length (pending (clearExisting key s)), new)) as Hfind.
    { simpl. rewrite Hx, Hn. fold new. apply list_find_Some. split_and!.
      - by apply list_lookup_middle.
      - done.
      - intros j y Hy Hj. rewrite lookup_app_l in Hy by done.
        by apply list_elem_of_lookup_2, Hfresh in Hy. }
    rewrite (fire_found _ _ _ _ Hfind); [apply doStop_not_busy|].
    simpl. rewrite Hn. subst remaining.
    unfold elapsedSince, MIN_LOADING_DURATION_MS.
    destruct (loadingStartTimes s !! key) as [st|] eqn:Est; [|lia].
    specialize (Hst key st Est). case_decide; lia.
  - rewrite fire_missing; [apply doStop_not_busy|]. simpl. apply Hfresh.
Qed.

(** C9. After any history of the provider, once [startLoading(key)] has
    run: whatever follows (stops, other starts, the clock advancing, timers
    running when due, the provider unmounting), the key is in the busy set
    at every moment earlier than the minimum duration after that start; the
    start itself leaves no removal of the key pending, so a start after a
    stop cancels the removal that stop scheduled; and a [stopLoading(key)]
    made at time [now] for a key started at [st], before [st] plus the
    minimum duration, removes nothing and schedules exactly one removal,
    due at [now + (minimum - elapsed)], while a later stop removes the key
    at once. *)
Theorem busy_key_min_duration (pre : list Event) (key : string) :
  let s1 := step (run initial pre) (Start key) in
  (∀ post,
     (now (run s1 post) < now s1 + MIN_LOADING_DURATION_MS)%Z →
     busy key (run s1 post)) ∧
  removalsOf key s1 = [] ∧
  (∀ post st,
     let s := run s1 post in
     let s' := step s (Stop key) in
     loadingStartTimes s !! key = Some st → st ≠ 0%Z →
     ((now s < st + MIN_LOADING_DURATION_MS)%Z →
      removalsOf key s' =
        [mkTimer (nextTimer s)
           (now s + (MIN_LOADING_DURATION_MS - (now s - st))) key] ∧
      (busy key s → busy key s')) ∧
     ((st + MIN_LOADING_DURATION_MS ≤ now s)%Z →
      removalsOf key s' = [] ∧ ¬ busy key s')).
Proof.
  cbv zeta.
  pose proof (run_wellFormed pre initial initial_wellFormed) as Hwf.
  split; [|split].
  - intros post Hlt.
    pose proof (run_held key _ post _ (started_held key _ Hwf)) as [_ Hheld].
    change (step (run initial pre) (Start key))
      with (startLoading key (run initial pre)) in *.
    rewrite startLoading_now in Hlt. by destruct (Hheld Hlt) as [Hbusy _].
  - by apply startLoading_no_removal.
  - intros post st Hst Hnz.
    set (s := run (step (run initial pre) (Start key)) post) in *.
    assert (wellFormed s) as Hs.
    { apply run_wellFormed. by apply (step_wellFormed _ (Start key)). }
    pose proof (stopLoading_removals key s Hs) as Hrem. cbv zeta in Hrem.
    change (step s (Stop key)) with (stopLoading key s).
    assert (elapsedSince (loadingStartTimes s !! key) (now s) = now s - st)%Z
      as Hel.
    { rewrite Hst. unfold elapsedSince. by rewrite decide_False. }
    rewrite Hel in Hrem. unfold MIN_LOADING_DURATION_MS in *. split.
    + intros Hlt. rewrite decide_True in Hrem by lia. split.
      * rewrite Hrem. do 2 f_equal. lia.
      * unfold stopLoading. rewrite Hel. unfold MIN_LOADING_DURATION_MS.
        rewrite decide_True by lia. unfold busy. simpl.
        by destruct (clearExisting_fields key s) as (-> & _).
    + intros Hge. rewrite decide_False in Hrem by lia. split; [done|].
      unfold stopLoading. rewrite Hel. unfold MIN_LOADING_DURATION_MS.
      rewrite decide_False by lia.
      unfold busy. simpl. rewrite elem_of_removeLoadingKey. tauto.
Qed.

(** Started and stopped at once, the key is still busy 299 ms later, even
    if the event loop is asked to run its removal timer. *)
Lemma busy_key_min_duration_witness :
  busy "initBoards"
    (run initial [Start "initBoards"; Stop "initBoards"; Elapse 299; Fire 1]).
Proof.
  apply (proj1 (busy_key_min_duration [] "initBoards")
           [Stop "initBoards"; Elapse 299; Fire 1]).
  vm_compute. reflexivity.
Defined.

(** Once the minimum duration has passed the removal does run. *)
Example removal_after_minimum :
  Store.loadingKeys (Store.store (world
    (run initial [Start "initBoards"; Stop "initBoards"; Elapse 300; Fire 1])))
  = [].
Proof. vm_compute. reflexivity. Qed.

(** Start, stop, start in quick succession: the removal scheduled by the
    stop is cancelled and cannot run, however long one waits. *)
Example rapid_start_stop_start :
  let s := run initial [Start "save"; Elapse 10; Stop "save"; Elapse 10;
                        Start "save"; Elapse 1000; Fire 1] in
  Store.loadingKeys (Store.store (world s)) = ["save"] ∧ pending s = [].
Proof. vm_compute. split; reflexivity. Qed.

End BusyKeys.

(** ** The hydration controller *)

Section Hydration.

Import StoreData StoreHydration.

(** *** What the provider's callbacks do to the store *)

Lemma uiOnly_refl w : uiOnly w w.
Proof.
  split; [by repeat split|]. split; [done|]. exists 0. by rewrite app_nil_r.
Qed.

Lemma uiOnly_trans w1 w2 w3 : uiOnly w1 w2 → uiOnly w2 w3 → uiOnly w1 w3.
Proof.
  intros ((Hb & Ht & Hu & Hl) & Hm & n & Hw)
         ((Hb' & Ht' & Hu' & Hl') & Hm' & n' & Hw').
  split; [repeat split; congruence|]. split; [congruence|]. exists (n + n').
  rewrite Hw', Hw, Hb. rewrite (replicate_add n n'). by rewrite (assoc_L (++)).
Qed.

Lemma setState_uiOnly updater w :
  (∀ next, updater (Store.store w) = Some next →
           sameData (Store.store w) next) →
  uiOnly w (Store.setState updater w).
Proof.
  intros H. unfold Store.setState.
  destruct (updater (Store.store w)) as [next|] eqn:E; [|apply uiOnly_refl].
  destruct (H next eq_refl) as (Hb & Ht & Hu & Hl).
  unfold Store.persistenceListener.
  destruct (Store.mirror w) eqn:Em; [destruct (0 <? _)|]; simpl;
    (split; [by repeat split|]); (split; [done|]).
  - exists 1. simpl. by rewrite Hb.
  - exists 0. by rewrite app_nil_r.
  - exists 0. by rewrite app_nil_r.
Qed.

Lemma addLoadingKey_uiOnly key w : uiOnly w (Store.addLoadingKey key w).
Proof.
  apply setState_uiOnly. intros next. case_bool_decide; [done|].
  by intros [= <-].
Qed.

Lemma removeLoadingKey_uiOnly key w : uiOnly w (Store.removeLoadingKey key w).
Proof. apply setState_uiOnly. by intros next [= <-]. Qed.

Lemma addToast_uiOnly t w : uiOnly w (Store.addToast t w).
Proof. apply setState_uiOnly. by intros next [= <-]. Qed.

Lemma provider_startLoading_uiOnly key p :
  uiOnly (UiContext.world p) (UiContext.world (UiContext.startLoading key p)).
Proof.
  unfold UiContext.startLoading. cbn [UiContext.world].
  destruct (forget_fields key (UiContext.clearExisting key p)) as [-> _].
  destruct (clearExisting_fields key p) as [-> _].
  apply addLoadingKey_uiOnly.
Qed.

Lemma provider_stopLoading_uiOnly key p :
  uiOnly (UiContext.world p) (UiContext.world (UiContext.stopLoading key p)).
Proof.
  unfold UiContext.stopLoading.
  destruct (clearExisting_fields key p) as [Hw _]. case_decide.
  - cbn [UiContext.setTimeout UiContext.world]. rewrite Hw.
    apply uiOnly_refl.
  - cbn [UiContext.doStop UiContext.world]. rewrite Hw.
    apply removeLoadingKey_uiOnly.
Qed.

Lemma provider_fire_uiOnly id p :
  uiOnly (UiContext.world p) (UiContext.world (UiContext.fire id p)).
Proof.
  unfold UiContext.fire.
  destruct (list_find _ _) as [[i t]|]; [|apply uiOnly_refl].
  case_decide; [|apply uiOnly_refl].
  cbn [UiContext.doStop UiContext.clearTimeout UiContext.world].
  apply removeLoadingKey_uiOnly.
Qed.

Lemma provider_step_uiOnly p e :
  uiOnly (UiContext.world p) (UiContext.world (UiContext.step p e)).
Proof.
  destruct e; cbn [UiContext.step].
  - apply provider_startLoading_uiOnly.
  - apply provider_stopLoading_uiOnly.
  - apply uiOnly_refl.
  - apply provider_fire_uiOnly.
  - apply uiOnly_refl.
Qed.

Lemma runEffect_uiOnly s : uiOnly (world s) (world (runEffect s)).
Proof. apply provider_startLoading_uiOnly. Qed.

Lemma showToast_uiOnly type message s :
  uiOnly (world s) (world (showToast type message s)).
Proof. apply addToast_uiOnly. Qed.

Lemma stopLoading_uiOnly key s : uiOnly (world s) (world (stopLoading key s)).
Proof. apply provider_stopLoading_uiOnly. Qed.

Lemma deliver_rejected_uiOnly message s :
  uiOnly (world s) (world (deliver (Rejected message) s)).
Proof.
  eapply uiOnly_trans; [|apply stopLoading_uiOnly].
  apply (showToast_uiOnly error (errorMessage message)
           (setLoadError (Some (errorMessage message)) s)).
Qed.

(** *** The provider stays well formed *)

Lemma setWorld_wellFormed w p :
  UiContext.wellFormed p → UiContext.wellFormed (setWorld w p).
Proof. done. Qed.

Lemma step_provider_wellFormed s e :
  UiContext.wellFormed (provider s) →
  UiContext.wellFormed (provider (step s e)).
Proof.
  intros Hs. destruct e as [| | |k r|op|e|digits]; cbn [step].
  - destruct (mounted s); [done|]. by apply startLoading_wellFormed.
  - destruct (mounted s); [|done]. by apply startLoading_wellFormed.
  - by destruct (mounted s).
  - destruct (cancelled s !! k) as [[]|]; try done.
    destruct r; by apply stopLoading_wellFormed.
  - done.
  - by apply step_wellFormed.
  - done.
Qed.

Lemma run_app s es es' : run s (es ++ es') = run (run s es) es'.
Proof. apply foldl_app. Qed.

Lemma run_provider_wellFormed es :
  UiContext.wellFormed (provider (run initial es)).
Proof.
  induction es as [|e es IH] using rev_ind; [apply initial_wellFormed|].
  rewrite run_app. by apply step_provider_wellFormed.
Qed.

(** *** Attempts and their [cancelled] variables *)

Lemma cancelled_runEffect s : cancelled (runEffect s) = cancelled s ++ [false].
Proof. done. Qed.

Lemma mounted_runEffect s : mounted (runEffect s) = mounted s.
Proof. done. Qed.

Lemma cancelled_deliver r s : cancelled (deliver r s) = cancelled s.
Proof. by destruct r. Qed.

Lemma mounted_deliver r s : mounted (deliver r s) = mounted s.
Proof. by destruct r. Qed.

Lemma step_consistent s e : consistent s → consistent (step s e).
Proof.
  intros Hs. destruct e as [| | |k r|op|e|digits]; cbn [step].
  - destruct (mounted s) eqn:Hm; [done|].
    intros k [Hk Hsup]. simpl in *.
    rewrite length_app in Hk, Hsup. simpl in Hk, Hsup.
    destruct Hsup as [Hlt|Hfalse]; [|done].
    rewrite lookup_app_l by lia. apply Hs. split; [lia | by right].
  - destruct (mounted s) eqn:Hm; [|done].
    intros k [Hk Hsup]. simpl in *.
    rewrite length_app, length_insert in Hk, Hsup. simpl in Hk, Hsup.
    destruct Hsup as [Hlt|Hfalse]; [|congruence].
    rewrite lookup_app_l by (rewrite length_insert; lia).
    destruct (decide (k = length (cancelled s) - 1)) as [->|Hne].
    + apply list_lookup_insert_eq. lia.
    + rewrite list_lookup_insert_ne by done. apply Hs. split; [lia|].
      left. lia.
  - destruct (mounted s) eqn:Hm; [|done].
    intros k [Hk _]. simpl in *. rewrite length_insert in Hk.
    destruct (decide (k = length (cancelled s) - 1)) as [->|Hne].
    + apply list_lookup_insert_eq. lia.
    + rewrite list_lookup_insert_ne by done. apply Hs. split; [lia|].
      left. lia.
  - destruct (cancelled s !! k) as [[]|]; try done.
    intros j Hj. unfold superseded in Hj.
    rewrite cancelled_deliver, mounted_deliver in *. by apply Hs.
  - done.
  - done.
  - done.
Qed.

Lemma run_consistent es s : consistent s → consistent (run s es).
Proof.
  revert s. induction es as [|e es IH]; intros s Hs; [done|].
  simpl. by apply IH, step_consistent.
Qed.

Lemma initial_consistent : consistent initial.
Proof. intros k [Hk _]. simpl in Hk. lia. Qed.

(** C3. After any sequence of activations, retries, deactivations, fetch
    settlements and other store operations: when the fetch of a superseded
    attempt settles, with boards or with an error, the state stays exactly
    as it was (no dispatch, so no boards change and no storage write; no
    error recorded; no Ui call, so no notice), and so does everything that
    follows. *)
Theorem stale_attempt_discarded (es : list Event) (k : nat)
    (r : FetchResult) :
  let s := run initial es in
  superseded s k →
  step s (Settle k r) = s ∧
  ∀ es', run initial (es ++ Settle k r :: es') = run initial (es ++ es').
Proof.
  cbv zeta. intros Hk.
  assert (step (run initial es) (Settle k r) = run initial es) as Hstep.
  { cbn [step]. by rewrite (run_consistent es initial initial_consistent k Hk). }
  split; [done|]. intros es'.
  rewrite !run_app.
  change (run (run initial es) (Settle k r :: es')) with
    (run (step (run initial es) (Settle k r)) es').
  by rewrite Hstep.
Qed.

(** The controller is deactivated while the fetch of attempt 0 is in
    flight and activated again; attempt 1 succeeds first: when attempt 0
    resolves later the boards are still those of attempt 1. *)
Lemma stale_attempt_discarded_witness :
  Store.st_boards (Store.store (world
    (run initial [Mount; Unmount; Mount; Settle 1 (Fulfilled fast_boards);
                  Settle 0 (Fulfilled slow_boards)]))) = fast_boards.
Proof.
  pose proof (stale_attempt_discarded
                [Mount; Unmount; Mount; Settle 1 (Fulfilled fast_boards)] 0
                (Fulfilled slow_boards)) as H.
  destruct H as [_ H].
  - split; [vm_compute; lia | left; vm_compute; lia].
  - change [Mount; Unmount; Mount; Settle 1 (Fulfilled fast_boards);
            Settle 0 (Fulfilled slow_boards)]
      with ([Mount; Unmount; Mount; Settle 1 (Fulfilled fast_boards)] ++
            Settle 0 (Fulfilled slow_boards) :: []).
    rewrite (H []). reflexivity.
Defined.

Lemma live_is_current s k :
  consistent s → cancelled s !! k = Some false → current s k.
Proof.
  intros Hs Hk. pose proof (lookup_lt_Some _ _ _ Hk) as Hlt.
  unfold current.
  destruct (decide (S k = length (cancelled s))) as [Heq|Hne].
  - split; [done|]. destruct (mounted s) eqn:Hm; [done|].
    assert (cancelled s !! k = Some true) by (apply Hs; split; auto).
    congruence.
  - assert (cancelled s !! k = Some true)
      by (apply Hs; split; [done | left; lia]).
    congruence.
Qed.

Lemma toasts_removeLoadingKey key w :
  Store.toasts (Store.store (Store.removeLoadingKey key w)) =
  Store.toasts (Store.store w).
Proof. unfold Store.removeLoadingKey. by rewrite store_setState. Qed.

Lemma toasts_provider_stopLoading key p :
  Store.toasts (Store.store (UiContext.world (UiContext.stopLoading key p))) =
  Store.toasts (Store.store (UiContext.world p)).
Proof.
  unfold UiContext.stopLoading.
  destruct (clearExisting_fields key p) as [Hw _]. case_decide.
  - cbn [UiContext.setTimeout UiContext.world]. by rewrite Hw.
  - cbn [UiContext.doStop UiContext.world].
    by rewrite toasts_removeLoadingKey, Hw.
Qed.

(** C5, as amended. After any sequence of events, when the fetch of an
    attempt that has not been cancelled fails (that attempt is then the
    current one): nothing is dispatched, so the boards, the theme and the
    session in the store are as they were, and whatever is written to
    storage is the unchanged boards once more; the error message is
    recorded; the notice is an error toast with that message, added to the
    store's toasts; [stopLoading] is called, which clears the busy key at
    once or leaves a removal timer, so that 300 ms later, once that timer
    has run, the key is not busy; the attempt stays uncancelled. The
    handler is a total function: nothing is thrown. *)
Theorem failed_fetch_recorded (es : list Event) (k : nat)
    (message : option string) :
  let s := run initial es in
  let s' := step s (Settle k (Rejected message)) in
  cancelled s !! k = Some false →
  current s k ∧
  uiOnly (world s) (world s') ∧
  loadError s' = Some (errorMessage message) ∧
  Store.toasts (Store.store (world s')) =
    Store.toasts (Store.store (world s)) ++
    [mkToast (toastId s) error (errorMessage message)] ∧
  ui s' = ui s ++ [ShowToast error (errorMessage message);
                   StopLoading "initBoards"] ∧
  ¬ UiContext.busy "initBoards"
      (provider (run s' [Ui (UiContext.Elapse 300);
                         Ui (UiContext.Fire
                               (UiContext.nextTimer (provider s)))])) ∧
  cancelled s' = cancelled s ∧ mounted s' = mounted s.
Proof.
  cbv zeta. intros Hk. set (s := run initial es) in *.
  assert (step s (Settle k (Rejected message)) = deliver (Rejected message) s)
    as -> by (cbn [step]; by rewrite Hk).
  split_and!.
  - apply live_is_current; [|done].
    apply run_consistent, initial_consistent.
  - apply deliver_rejected_uiOnly.
  - done.
  - change (world (deliver (Rejected message) s)) with
      (UiContext.world
         (UiContext.stopLoading "initBoards"
            (setWorld (Store.addToast
                         (mkToast (toastId s) error (errorMessage message))
                         (world s)) (provider s)))).
    rewrite toasts_provider_stopLoading. cbn [setWorld UiContext.world].
    unfold Store.addToast. by rewrite store_setState.
  - unfold deliver, stopLoading, showToast, logUi. cbn [ui withWorld
      withProvider setLoadError]. by rewrite <- (assoc_L (++)).
  - apply (stopLoading_clears "initBoards"
             (setWorld (Store.addToast
                          (mkToast (toastId s) error (errorMessage message))
                          (world s)) (provider s))).
    apply setWorld_wellFormed, run_provider_wellFormed.
  - done.
  - done.
Qed.

Lemma failed_fetch_recorded_witness :
  let s' := run initial [Mount; Settle 0 (Rejected (Some "Network Error"))] in
  Store.st_boards (Store.store (world s')) = [] ∧
  loadError s' = Some "Network Error" ∧
  Store.toasts (Store.store (world s')) =
    [mkToast "0-" error "Network Error"] ∧
  ui s' = [StartLoading "initBoards"; ShowToast error "Network Error";
           StopLoading "initBoards"].
Proof.
  destruct (failed_fetch_recorded [Mount] 0 (Some "Network Error") eq_refl)
    as (_ & ((Hb & _) & _) & He & Ht & Hu & _).
  change (run initial [Mount; Settle 0 (Rejected (Some "Network Error"))])
    with (step (run initial [Mount])
            (Settle 0 (Rejected (Some "Network Error")))).
  cbv zeta. rewrite Hb, He, Ht, Hu. repeat split.
Defined.

(** C5 as stated fails for an attempt that was superseded before its
    fetch failed. The controller is deactivated while the fetch is in
    flight: when the fetch fails no error is recorded, no notice is shown,
    and [stopLoading] is not called, so the busy key stays. *)
Lemma failed_stale_fetch_silent :
  let s := run initial [Mount; Unmount] in
  let s' := step s (Settle 0 (Rejected (Some "Network Error"))) in
  loadError s' = None ∧
  Store.toasts (Store.store (world s')) = [] ∧
  ui s' = [StartLoading "initBoards"] ∧
  Store.loadingKeys (Store.store (world s')) = ["initBoards"].
Proof. repeat split; vm_compute; reflexivity. Qed.

End Hydration.

(** ** More on the drag identifiers *)

Section CodecMore.

Import Js.

Lemma count_delim_contains s : count_delim s = 0 ↔ contains_delim s = false.
Proof.
  induction s as [|c|c d s IH1 IH2] using string_pair_ind; try done.
  change (count_delim (String c (String d s))) with
    (if is_colon c && is_colon d then S (count_delim s)
     else count_delim (String d s)).
  change (contains_delim (String c (String d s))) with
    ((is_colon c && is_colon d) || contains_delim (String d s)).
  destruct (is_colon c && is_colon d); simpl; [split; [lia | done] | done].
Qed.

Lemma count_delim_index n : count_delim (of_index n) = 0.
Proof.
  pose proof (split_segment (of_index n) "" (delim_free_index n)) as H.
  apply count_delim_contains.
  destruct (contains_delim (of_index n)) eqn:E; [|done].
  exfalso. clear H. revert E. unfold of_index.
  generalize (Nat.to_uint n). intros d.
  induction d; [done | ..]; simpl NilEmpty.string_of_uint;
    destruct (NilEmpty.string_of_uint d) eqn:Ed; try done;
    match goal with
    | |- contains_delim (String ?c (String ?a ?s)) = true → False =>
        change (contains_delim (String c (String a s))) with
          ((is_colon c && is_colon a) || contains_delim (String a s))
    end; simpl orb; exact IHd.
Qed.

Lemma decodeTaskId_clean bi c t :
  delim_free c = true →
  decodeTaskId (encodeTaskId bi c t) = Some (mkTaskRef (Num (Z.of_nat bi)) c t).
Proof.
  intros Hc. rewrite decodeTaskId_encoded.
  pose proof (head_split (c +:+ "::" +:+ t)) as Hhd.
  rewrite split_segment in * by done. simpl in Hhd. rewrite <- Hhd.
  change (drop 1 (c :: split t)) with (split t). by rewrite join_split.
Qed.

(** X1. Whatever the column name and the title, decoding an encoded task
    identifier gives back the board index, and the decoded column name and
    title, put together again around the delimiter, are the encoded column
    name and title around the delimiter: the decoder may cut at another
    delimiter occurrence but neither loses nor adds a character. *)
Theorem decode_encode_preserves_text bi c t :
  ∃ r, decodeTaskId (encodeTaskId bi c t) = Some r ∧
       tr_boardIndex r = Num (Z.of_nat bi) ∧
       tr_columnName r +:+ "::" +:+ tr_taskTitle r = c +:+ "::" +:+ t.
Proof.
  eexists. split; [apply decodeTaskId_encoded|]. split; [done|]. simpl.
  pose proof (join_split (c +:+ "::" +:+ t)) as Hjoin.
  pose proof (head_split (c +:+ "::" +:+ t)) as Hhd.
  pose proof (decodeTaskId_encoded bi c t) as Hdec.
  unfold decodeTaskId, encodeTaskId in Hdec. rewrite split_encoded in Hdec.
  destruct (split (c +:+ "::" +:+ t)) as [|p [|q ps]]; [done | done |].
  simpl in Hhd. rewrite <- Hhd. exact Hjoin.
Qed.

(** X2. For every identifier that decodes as a task (any string with two
    delimiter occurrences, not only an encoded one): its first segment, the
    decoded column name and the decoded title, joined by the delimiter, are
    the identifier itself. *)
Theorem decodeTaskId_keeps_text id r :
  decodeTaskId id = Some r →
  first_segment id +:+ "::" +:+ tr_columnName r +:+ "::" +:+ tr_taskTitle r
  = id.
Proof.
  unfold decodeTaskId. destruct (_ <? 3) eqn:E; [done|].
  apply Nat.ltb_ge in E. intros [= <-]. simpl.
  pose proof (join_split id) as Hjoin. pose proof (head_split id) as Hhd.
  destruct (split id) as [|p [|q [|q' ps]]]; simpl in E; try lia.
  simpl in Hhd. subst p. exact Hjoin.
Qed.

Lemma decodeTaskId_keeps_text_witness :
  first_segment "7::Doing::a::b" +:+ "::" +:+ "Doing" +:+ "::" +:+ "a::b"
  = "7::Doing::a::b".
Proof.
  exact (decodeTaskId_keeps_text "7::Doing::a::b"
           (mkTaskRef (Num 7) "Doing" "a::b") eq_refl).
Defined.

Lemma decodeTaskId_of_column bi c :
  decodeTaskId (encodeColumnId bi c) = None ↔ contains_delim c = false.
Proof.
  unfold decodeTaskId, encodeColumnId.
  rewrite split_encoded. simpl length. rewrite length_split.
  rewrite <- count_delim_contains.
  destruct (_ <? 3) eqn:E.
  - apply Nat.ltb_lt in E. split; [lia | done].
  - apply Nat.ltb_ge in E. split; [done | lia].
Qed.

Lemma decodeColumnId_clean bi c :
  contains_delim c = false →
  decodeColumnId (encodeColumnId bi c) = Some (mkColumnRef (Num (Z.of_nat bi)) c).
Proof.
  intros Hc. rewrite decodeColumnId_encoded.
  pose proof (head_split c) as Hhd. rewrite split_no_delim in Hhd by done.
  simpl in Hhd. by rewrite <- Hhd.
Qed.

(** X3. An identifier that decodes as a task also decodes as a column,
    naming the task's board and column; and the identifier of a droppable
    column is mistaken for a task identifier exactly when the column name
    contains the delimiter. *)
Theorem task_and_column_identifiers :
  (∀ id o, decodeTaskId id = Some o →
     decodeColumnId id =
       Some (mkColumnRef (tr_boardIndex o) (tr_columnName o))) ∧
  (∀ bi c, decodeTaskId (encodeColumnId bi c) = None ↔
           contains_delim c = false).
Proof. split; [apply decodeColumnId_of_task | apply decodeTaskId_of_column]. Qed.

Lemma task_and_column_identifiers_witness :
  decodeColumnId "0::Todo::Write tests" = Some (mkColumnRef (Num 0) "Todo").
Proof.
  exact (proj1 task_and_column_identifiers "0::Todo::Write tests"
           (mkTaskRef (Num 0) "Todo" "Write tests") eq_refl).
Defined.

(** X4. Task identifiers are distinct for distinct tasks as long as the
    column names neither contain the delimiter nor end in a colon. Without
    that condition they are not: a colon moved from the end of the column
    name to the start of the title gives the same identifier. *)
Theorem encodeTaskId_injective :
  (∀ bi c t bi' c' t',
     delim_free c = true → delim_free c' = true →
     encodeTaskId bi c t = encodeTaskId bi' c' t' →
     bi = bi' ∧ c = c' ∧ t = t') ∧
  (∀ bi c t, encodeTaskId bi (c +:+ ":") t = encodeTaskId bi c (":" +:+ t)).
Proof.
  split.
  - intros bi c t bi' c' t' Hc Hc' Heq.
    pose proof (decodeTaskId_clean bi c t Hc) as H1.
    pose proof (decodeTaskId_clean bi' c' t' Hc') as H2.
    rewrite Heq, H2 in H1. injection H1 as Hbi -> ->. split; [lia | done].
  - intros bi c t. unfold encodeTaskId. do 2 f_equal.
    induction c as [|a c IH]; [done|].
    change (String a ((c +:+ ":") +:+ "::" +:+ t) =
            String a (c +:+ "::" +:+ ":" +:+ t)).
    by rewrite IH.
Qed.

Lemma encodeTaskId_injective_witness :
  3 = 3 ∧ "Todo" = "Todo" ∧ "a::b" = "a::b".
Proof.
  exact (proj1 encodeTaskId_injective 3 "Todo" "a::b" 3 "Todo" "a::b"
           eq_refl eq_refl eq_refl).
Defined.

End CodecMore.

(** ** Drag and drop, from the rendered identifiers to the action *)

Section DragEndMore.

Import Js BoardView.

Lemma position_found b c ci col title i t :
  findColumn c (board_columns b) = Some (ci, col) →
  findTask title (col_tasks col) = Some (i, t) →
  position b c title = Some i.
Proof. intros Hc Ht. apply position_Some. by exists ci, col, t. Qed.

(** X5. A task card dropped on a task card of the current board, with
    column names that neither contain the delimiter nor end in a colon and
    both cards' columns and titles found in the board: in the same column the
    handler dispatches REORDER_TASK with the positions of the first tasks
    carrying the two titles (nothing if these positions are equal), in
    another column it dispatches MOVE_TASK to the target card's column. *)
Theorem drop_on_task b bi c ci col a i ta c' ci' col' a' j ta' :
  delim_free c = true → delim_free c' = true →
  findColumn c (board_columns b) = Some (ci, col) →
  findTask a (col_tasks col) = Some (i, ta) →
  findColumn c' (board_columns b) = Some (ci', col') →
  findTask a' (col_tasks col') = Some (j, ta') →
  handleDragEnd (Some b) (Some bi) (encodeTaskId bi c a)
    (Some (encodeTaskId bi c' a')) =
  if decide (c = c') then
    if decide (i = j) then [] else [REORDER_TASK bi c i j]
  else [MOVE_TASK bi c c' a].
Proof.
  intros Hc Hc' Hcol Ht Hcol' Ht'.
  rewrite (handleDragEnd_over_task b bi _ _
             (mkTaskRef (Num (Z.of_nat bi)) c a)
             (mkTaskRef (Num (Z.of_nat bi)) c' a'));
    [| by apply decodeTaskId_clean | done | by apply decodeTaskId_clean | done].
  simpl. by rewrite (position_found _ _ _ _ _ _ _ Hcol Ht),
                    (position_found _ _ _ _ _ _ _ Hcol' Ht').
Qed.

Lemma drop_on_task_witness :
  handleDragEnd (Some drag_board) (Some 0) (encodeTaskId 0 "Todo" "Y")
    (Some (encodeTaskId 0 "Todo" "X")) = [REORDER_TASK 0 "Todo" 1 0].
Proof.
  exact (drop_on_task drag_board 0
           "Todo" 0 (mkColumn "Todo" [test_task "t1" "X" "Todo";
                                      test_task "t2" "Y" "Todo"])
           "Y" 1 (test_task "t2" "Y" "Todo")
           "Todo" 0 (mkColumn "Todo" [test_task "t1" "X" "Todo";
                                      test_task "t2" "Y" "Todo"])
           "X" 0 (test_task "t1" "X" "Todo")
           eq_refl eq_refl eq_refl eq_refl eq_refl eq_refl).
Defined.

(** X6. A task card whose own column name neither contains the delimiter
    nor ends in a colon, dropped on a droppable column whose name does not
    contain the delimiter: MOVE_TASK to that column is dispatched when it is
    not the card's own column, nothing otherwise. The handler does not look
    the columns or the task up in the board on this path. *)
Theorem drop_on_column b bi c a c' :
  delim_free c = true → contains_delim c' = false →
  handleDragEnd (Some b) (Some bi) (encodeTaskId bi c a)
    (Some (encodeColumnId bi c')) =
  if decide (c = c') then [] else [MOVE_TASK bi c c' a].
Proof.
  intros Hc Hc'.
  rewrite (handleDragEnd_over_column b bi _ _
             (mkTaskRef (Num (Z.of_nat bi)) c a));
    [| by apply decodeTaskId_clean | done |].
  - unfold columnMove. rewrite decodeColumnId_clean by done. simpl.
    assert (differs (Num (Z.of_nat bi)) bi = false) as ->
      by by apply differs_false.
    done.
  - intros o Ho. by rewrite (proj2 (decodeTaskId_of_column bi c') Hc') in Ho.
Qed.

Lemma drop_on_column_witness :
  handleDragEnd (Some drag_board) (Some 0) (encodeTaskId 0 "Todo" "X")
    (Some (encodeColumnId 0 "Done")) = [MOVE_TASK 0 "Todo" "Done" "X"].
Proof.
  exact (drop_on_column drag_board 0 "Todo" "X" "Done" eq_refl eq_refl).
Defined.

(** X7. Dropping a card on its own identifier dispatches nothing, for
    every identifier (encoded or not), every board and every current board
    index. In particular a task card dropped on a card with the same board
    index, column name and title dispatches nothing: two tasks of one column
    with the same title carry the same identifier, so neither can be dropped
    on the other. *)
Theorem drop_on_itself :
  (∀ board boardIndex id, handleDragEnd board boardIndex id (Some id) = []) ∧
  (∀ board boardIndex bi c title,
     handleDragEnd board boardIndex (encodeTaskId bi c title)
       (Some (encodeTaskId bi c title)) = []).
Proof.
  assert (∀ board boardIndex id,
            handleDragEnd board boardIndex id (Some id) = []) as H;
    [|by split].
  intros [b|] [bi|] id; try done. unfold handleDragEnd.
  destruct (decodeTaskId id) as [t|] eqn:E; [|done].
  destruct (differs (tr_boardIndex t) bi) eqn:Ed; [done|].
  destruct (findColumn (tr_columnName t) (board_columns b)) as [[ci col]|];
    [|done].
  destruct (findTask (tr_taskTitle t) (col_tasks col)) as [[i ta]|]; [|done].
  by rewrite !decide_True.
Qed.

End DragEndMore.

(** ** The current board *)

Section CurrentBoardFacts.

Import Js CurrentBoard.

Lemma digit_not_white_or_sign c :
  is_digit c = true →
  is_white c = false ∧ Ascii.eqb c "-" = false ∧ Ascii.eqb c "+" = false.
Proof.
  destruct c as [[] [] [] [] [] [] [] []]; vm_compute; intros H;
    first [discriminate H | done].
Qed.

Lemma parseInt_digits s :
  digits_only s = true → ∃ n, parseInt s = Num (Z.of_nat n).
Proof.
  unfold digits_only. destruct s as [|c rest]; [done|]. simpl.
  intros [Hc Hrest]%andb_prop.
  destruct (digit_not_white_or_sign c Hc) as (Hw & Hm & Hp).
  unfold parseInt. cbn [trim_start]. rewrite Hw, Hm, Hp.
  cbn [digits_from]. unfold is_digit in Hc. apply bool_decide_eq_true in Hc.
  destruct Hc as [d Hd]. rewrite Hd.
  destruct (digits_from_seen rest (10 * 0 + d)) as [n Hn]. rewrite Hn.
  by exists n.
Qed.

Lemma all_digits_uint d : all_digits (NilEmpty.string_of_uint d) = true.
Proof. induction d; simpl; try done. Qed.

Lemma digits_only_index i : digits_only (of_index i) = true.
Proof.
  unfold digits_only, of_index. rewrite all_digits_uint.
  pose proof (to_uint_nonnil i). by destruct (Nat.to_uint i).
Qed.

Lemma boardAt_index boards i :
  boardAt boards (Some (Num (Z.of_nat i))) = boards !! i.
Proof.
  unfold boardAt. rewrite Nat2Z.id.
  destruct (0 <=? Z.of_nat i)%Z eqn:E0; [|apply Z.leb_gt in E0; lia].
  destruct (Z.of_nat i <? Z.of_nat (length boards))%Z eqn:E1; [done|].
  apply Z.ltb_ge in E1. symmetry. apply lookup_ge_None. lia.
Qed.

(** X8. The hook resolves a board exactly for a [boardId] made of decimal
    digits only that indexes the boards list: the route written for index
    [i] gives back [i] and the board at [i] (no board when [i] is out of
    range); an absent [boardId] or one with any other character (a sign, a
    space, a letter after the digits) gives no index and no board; and a
    board that is returned is always the one at the returned index. *)
Theorem useCurrentBoard_resolves (boards : list Board) :
  (∀ i, useCurrentBoard boards (Some (of_index i)) =
        mkResult (boards !! i) (Some (Num (Z.of_nat i)))) ∧
  (∀ boardId, digits_only boardId = false →
     useCurrentBoard boards (Some boardId) = mkResult None None) ∧
  useCurrentBoard boards None = mkResult None None ∧
  (∀ boardId b, board (useCurrentBoard boards boardId) = Some b →
     ∃ i, boardIndex (useCurrentBoard boards boardId) =
            Some (Num (Z.of_nat i)) ∧ boards !! i = Some b).
Proof.
  split_and!.
  - intros i. unfold useCurrentBoard.
    by rewrite digits_only_index, parseInt_index, boardAt_index.
  - intros boardId H. unfold useCurrentBoard. by rewrite H.
  - done.
  - intros [boardId|] b; [|done]. unfold useCurrentBoard.
    destruct (digits_only boardId) eqn:E; [|done]. cbn [board boardIndex].
    destruct (parseInt_digits boardId E) as [n ->].
    rewrite boardAt_index. intros Hb. by exists n.
Qed.

Lemma useCurrentBoard_resolves_witness :
  ∃ i, boardIndex (useCurrentBoard one_board (Some "0")) =
         Some (Num (Z.of_nat i)) ∧
       one_board !! i = Some (mkBoard "Board" []).
Proof.
  exact (proj2 (proj2 (proj2 (useCurrentBoard_resolves one_board)))
           (Some "0") (mkBoard "Board" []) eq_refl).
Defined.

End CurrentBoardFacts.

(** ** Ids drawn by the compatibility transform *)

Section EnsureTaskIdsCount.

Import BoardsService BoardsServiceCount.

Lemma mapM_drawn {A B} (f : A → Gen B) (w : A → nat) l g :
  (∀ x g, drawn (w x) g (f x g).2) →
  drawn (sum_list_with w l) g (mapM f l g).2.
Proof.
  intros Hf. revert g. induction l as [|x l IH]; intros g; simpl.
  - unfold drawn. split_and!; [lia | done | done].
  - unfold bind, ret. specialize (Hf x g). destruct (f x g) as [y g1].
    specialize (IH g1). destruct (mapM f l g1) as [ys g2]. simpl in *.
    destruct Hf as (H1 & H2 & H3), IH as (H4 & H5 & H6).
    unfold drawn. split_and!; [lia | congruence | congruence].
Qed.

Lemma ensureTask_drawn r g :
  drawn (if lacksId r then 1 else 0) g (ensureTask r g).2.
Proof.
  unfold ensureTask, ensureId, lacksId, bind, ret, drawn.
  destruct (raw_id r) as [i|]; [|simpl; split_and!; [lia | done | done]].
  case_decide as Hi.
  - rewrite bool_decide_eq_true_2 by done. simpl. split_and!; [lia|done|done].
  - rewrite bool_decide_eq_false_2 by done. simpl. split_and!; [lia|done|done].
Qed.

Lemma sum_indicator {A} (P : A → Prop) `{!∀ x, Decision (P x)} (f : A → bool)
    (l : list A) :
  (∀ x, f x = true ↔ P x) →
  sum_list_with (λ x, if f x then 1 else 0) l = length (filter P l).
Proof.
  intros Hf. induction l as [|x l IH]; [done|]. simpl.
  rewrite filter_cons. destruct (f x) eqn:E.
  - rewrite decide_True by by apply Hf. simpl. by rewrite IH.
  - rewrite decide_False; [done|]. intros HP. apply Hf in HP. congruence.
Qed.

(** X9. [ensureTaskIds] calls [generateTaskId] exactly once for every task
    that has no id or an empty one, and not at all otherwise; in particular
    boards whose tasks all have ids are passed through without touching the
    clock or the random generator. *)
Theorem ensureTaskIds_draws (raw : list RawBoard) (g : IdSource) :
  drawn (missingIds raw) g (ensureTaskIds raw g).2.
Proof.
  unfold ensureTaskIds, missingIds. apply mapM_drawn. intros b g1.
  unfold ensureBoard, bind, ret.
  pose proof (mapM_drawn ensureColumn missingInColumn (rawboard_columns b) g1)
    as Hb.
  destruct (mapM ensureColumn (rawboard_columns b) g1) as [cs g2]. simpl in *.
  apply Hb. clear. intros c g1. unfold ensureColumn, bind, ret.
  pose proof (mapM_drawn ensureTask (λ r, if lacksId r then 1 else 0)
                (rawcol_tasks c) g1 ensureTask_drawn) as Hc.
  destruct (mapM ensureTask (rawcol_tasks c) g1) as [ts g2]. simpl in *.
  unfold missingInColumn.
  by rewrite <- (sum_indicator (λ r, lacksId r = true) lacksId).
Qed.

End EnsureTaskIdsCount.

(** ** The store over whole runs *)

Section StoreRunsFacts.

Import Store StoreRuns.

Lemma runAll_snoc w ops op : runAll w (ops ++ [op]) = run op (runAll w ops).
Proof. unfold runAll. by rewrite foldl_app. Qed.

Lemma store_log wr w : store (log wr w) = store w.
Proof. done. Qed.

(** The store after each bound action. *)
Lemma store_run op w :
  store (run op w) =
  match op with
  | Dispatch a =>
      default (store w)
        (withBoards (store w) <$> reduce (mkBoardsState (st_boards (store w))) a)
  | SetTheme t => withTheme (store w) t
  | Login u => withAuth (store w) (Some u) true
  | Logout => withAuth (store w) None false
  | AddLoadingKey k =>
      if bool_decide (k ∈ loadingKeys (store w)) then store w
      else withLoadingKeys (store w) (loadingKeys (store w) ++ [k])
  | RemoveLoadingKey k =>
      withLoadingKeys (store w) (filter (λ k', k' ≠ k) (loadingKeys (store w)))
  | AddToast t => withToasts (store w) (toasts (store w) ++ [t])
  | RemoveToast i =>
      withToasts (store w) (filter (λ t, toast_id t ≠ i) (toasts (store w)))
  end.
Proof.
  destruct op; simpl; unfold dispatch, setTheme, login, logout, addLoadingKey,
    removeLoadingKey, addToast, removeToast;
    rewrite ?store_log, store_setState; try done.
  by case_bool_decide.
Qed.

(** X10. The busy set never holds a key twice, whatever is done to the
    store. *)
Theorem loadingKeys_NoDup storedTheme storedAuth (ops : list Op) :
  NoDup (loadingKeys (store (runAll (startWorld storedTheme storedAuth) ops))).
Proof.
  induction ops as [|op ops IH] using rev_ind; [constructor|].
  rewrite runAll_snoc, store_run.
  set (w := runAll (startWorld storedTheme storedAuth) ops) in *.
  destruct op; simpl; try done.
  - by destruct (reduce _ _).
  - case_bool_decide as Hin; [done|]. simpl.
    apply NoDup_app. split_and!; [done | | apply NoDup_singleton].
    intros x Hx ->%list_elem_of_singleton. done.
  - by apply NoDup_filter.
Qed.

(** X11. [isLoggedIn] holds exactly when there is a user, after any run of
    the store, unless local storage held a logged-in session without a user
    when the store was created: that initial state is logged in with no
    user. *)
Theorem auth_consistent storedTheme :
  (∀ storedAuth ops,
     (∀ u, storedAuth = Some (true, u) → is_Some u) →
     authConsistent (store (runAll (startWorld storedTheme storedAuth) ops))) ∧
  isLoggedIn (initialStore storedTheme (Some (true, None))) = true ∧
  user (initialStore storedTheme (Some (true, None))) = None.
Proof.
  split; [|done]. intros storedAuth ops Hstored.
  induction ops as [|op ops IH] using rev_ind.
  - unfold authConsistent. simpl.
    destruct storedAuth as [[[] [u|]]|]; simpl; split; intros H;
      first [done | by eexists | by destruct H | by apply (Hstored None)].
  - rewrite runAll_snoc, store_run.
    set (w := runAll (startWorld storedTheme storedAuth) ops) in *.
    unfold authConsistent in *.
    destruct op; simpl; try done.
    all: try (split; intros H; first [done | by eexists | by destruct H]).
    + by destruct (reduce _ _).
    + by case_bool_decide.
Qed.

Lemma auth_consistent_witness :
  authConsistent
    (store (runAll (startWorld None (Some (true, Some (mkUser "1" "a" "a@b"))))
              [Logout; Login (mkUser "2" "b" "b@c"); SetTheme dark])).
Proof.
  apply (proj1 (auth_consistent None)). intros u [= <-]. by eexists.
Defined.

Lemma persisted_setState (f : AppStore → option AppStore) w t0 a0 :
  persistedTheme t0 (writes (setState f w)) = persistedTheme t0 (writes w) ∧
  persistedAuth a0 (writes (setState f w)) = persistedAuth a0 (writes w).
Proof.
  unfold setState. destruct (f (store w)); [|done].
  destruct (mirror w); [|done]. unfold persistenceListener.
  destruct (0 <? _); [|done]. simpl.
  unfold persistedTheme, persistedAuth. by rewrite !foldl_app.
Qed.

Lemma persisted_log wr w t0 a0 :
  persistedTheme t0 (writes (log wr w)) =
    match wr with
    | WriteTheme t => Some t
    | _ => persistedTheme t0 (writes w)
    end ∧
  persistedAuth a0 (writes (log wr w)) =
    match wr with
    | WriteAuth l u => Some (l, u)
    | _ => persistedAuth a0 (writes w)
    end.
Proof.
  unfold persistedTheme, persistedAuth, log. simpl. rewrite !foldl_app.
  by destruct wr.
Qed.

Lemma persisted_run op w t0 a0 :
  persistedTheme t0 (writes (run op w)) =
    match op with
    | SetTheme t => Some t
    | _ => persistedTheme t0 (writes w)
    end ∧
  persistedAuth a0 (writes (run op w)) =
    match op with
    | Login u => Some (true, Some u)
    | Logout => Some (false, None)
    | _ => persistedAuth a0 (writes w)
    end.
Proof.
  destruct op; cbn [run]; unfold dispatch, setTheme, login, logout,
    addLoadingKey, removeLoadingKey, addToast, removeToast;
    try apply persisted_setState;
    match goal with
    | |- context [log ?wr (setState ?f w)] =>
        destruct (persisted_log wr (setState f w) t0 a0) as [-> ->];
        destruct (persisted_setState f w t0 a0) as [H1 H2];
        rewrite ?H1, ?H2
    end; done.
Qed.

(** X12. The store keeps local storage in step with its theme and its
    session: after any run of the store, creating the store anew from the
    values last handed to [persistTheme] and [persistAuth] (or from the
    values read at creation, where nothing was written) gives the same theme,
    user and login flag as the store has now. So a reload restores them. *)
Theorem reload_restores storedTheme storedAuth (ops : list Op) :
  let w := runAll (startWorld storedTheme storedAuth) ops in
  let reloaded := initialStore (persistedTheme storedTheme (writes w))
                    (persistedAuth storedAuth (writes w)) in
  theme reloaded = theme (store w) ∧
  user reloaded = user (store w) ∧
  isLoggedIn reloaded = isLoggedIn (store w).
Proof.
  cbv zeta. induction ops as [|op ops IH] using rev_ind; [done|].
  rewrite runAll_snoc.
  set (w := runAll (startWorld storedTheme storedAuth) ops) in *.
  destruct (persisted_run op w storedTheme storedAuth) as [-> ->].
  rewrite store_run. destruct IH as (Ht & Hu & Hl).
  destruct op; simpl; try done.
  - by destruct (reduce _ _).
  - by case_bool_decide.
Qed.

Lemma runAll_nonempty ops w : nonemptyWrites w → nonemptyWrites (runAll w ops).
Proof.
  induction ops as [|op ops IH] using rev_ind; [done|].
  intros Hw. rewrite runAll_snoc. by apply mirror_never_writes_empty, IH.
Qed.

(** X13. With the persistence mirror subscribed from the start, no run of
    the store ever writes an empty boards list to storage: neither the empty
    initial state nor a board list emptied later overwrites the snapshot
    saved before. *)
Theorem mirror_writes_nonempty storedTheme storedAuth (ops : list Op) :
  Forall (λ b, b ≠ [])
    (boardsWrites
       (runAll (subscribeMirror (startWorld storedTheme storedAuth)) ops)).
Proof. apply runAll_nonempty. constructor. Qed.

(** X14. Adding a busy key that is already there changes nothing at all:
    the state object is kept, so no listener runs and nothing is written. And
    adding a key that was absent, then removing it, gives back the busy set
    as it was. *)
Theorem loadingKey_add_remove (key : string) (w : World) :
  (key ∈ loadingKeys (store w) → addLoadingKey key w = w) ∧
  (key ∉ loadingKeys (store w) →
   loadingKeys (store (removeLoadingKey key (addLoadingKey key w))) =
   loadingKeys (store w)).
Proof.
  split.
  - intros Hin. unfold addLoadingKey, setState.
    by rewrite bool_decide_eq_true_2.
  - intros Hout.
    change (removeLoadingKey key (addLoadingKey key w))
      with (run (RemoveLoadingKey key) (run (AddLoadingKey key) w)).
    rewrite !store_run.
    rewrite bool_decide_eq_false_2 by done. simpl.
    rewrite filter_app, filter_cons_False, filter_nil, app_nil_r by auto.
    clear -Hout. induction (loadingKeys (store w)) as [|k l IH]; [done|].
    apply not_elem_of_cons in Hout as [Hne Hout].
    rewrite filter_cons_True by done. by rewrite IH.
Qed.

Lemma loadingKey_add_remove_witness :
  loadingKeys (store (removeLoadingKey "save"
                        (addLoadingKey "save" initialWorld))) = [].
Proof.
  apply (proj2 (loadingKey_add_remove "save" initialWorld)).
  apply not_elem_of_nil.
Defined.

End StoreRunsFacts.

(** ** More on the busy keys *)

Section BusyKeysMore.

Import UiContext UiTimers.

Lemma NoDup_fmap_filter {A B} (f : A → B) (P : A → Prop)
    `{!∀ x, Decision (P x)} (l : list A) :
  NoDup (f <$> l) → NoDup (f <$> filter P l).
Proof.
  induction l as [|x l IH]; [done|]. rewrite fmap_cons, NoDup_cons.
  intros [Hx Hl]. rewrite filter_cons. case_decide; [|by apply IH].
  rewrite fmap_cons, NoDup_cons. split; [|by apply IH].
  intros Hin. apply Hx. apply list_elem_of_fmap in Hin as (y & -> & Hy).
  apply list_elem_of_fmap. exists y. split; [done|].
  by apply list_elem_of_filter in Hy as [_ Hy].
Qed.

Lemma clearExisting_unique k s :
  uniqueTimers s → uniqueTimers (clearExisting k s).
Proof.
  unfold uniqueTimers, clearExisting.
  destruct (stopTimeouts s !! k) as [id|]; [|done]. case_decide; [done|].
  simpl. apply NoDup_fmap_filter.
Qed.

Lemma step_unique s e :
  wellFormed s → uniqueTimers s → uniqueTimers (step s e).
Proof.
  intros Hs Hu. pose proof Hs as (_ & _ & _ & Hpos & _).
  destruct e as [k|k|ms|id|]; simpl.
  - unfold uniqueTimers, startLoading. simpl.
    destruct (forget_fields k (clearExisting k s)) as (_ & _ & _ & -> & _).
    by apply clearExisting_unique.
  - unfold stopLoading. case_decide; [|by apply clearExisting_unique].
    unfold uniqueTimers. simpl. rewrite fmap_app. apply NoDup_app.
    split_and!; [by apply clearExisting_unique | | apply NoDup_singleton].
    intros x (t & -> & Ht)%list_elem_of_fmap Heq%list_elem_of_singleton.
    destruct (clearExisting_fields k s) as (_ & _ & _ & _ & Hx).
    apply clearExisting_pending, Hpos in Ht. simpl in *. lia.
  - done.
  - unfold fire. destruct (list_find _ _) as [[i t]|]; [|done].
    case_decide; [|done]. unfold uniqueTimers. simpl.
    by apply NoDup_fmap_filter.
  - unfold uniqueTimers. simpl. by apply NoDup_fmap_filter.
Qed.

Lemma run_unique es s :
  wellFormed s → uniqueTimers s → uniqueTimers (run s es).
Proof.
  revert s. induction es as [|e es IH]; intros s Hs Hu; [done|].
  simpl. apply IH; [by apply step_wellFormed | by apply step_unique].
Qed.

Lemma NoDup_constant {A} (l : list A) (r : A) :
  NoDup l → (∀ x, x ∈ l → x = r) → length l ≤ 1.
Proof.
  destruct l as [|x [|y l]]; simpl; [lia | lia |].
  intros Hn Hall. exfalso. apply NoDup_cons in Hn as [Hx _]. apply Hx.
  rewrite (Hall x) by left. rewrite <- (Hall y) by (right; left). left.
Qed.

(** X15. Removals are debounced: after any history of the provider, at
    most one removal timer is pending for any key. *)
Theorem one_pending_removal (es : list Event) (key : string) :
  length (removalsOf key (run initial es)) ≤ 1.
Proof.
  pose proof (run_wellFormed es initial initial_wellFormed) as Hs.
  assert (uniqueTimers (run initial es)) as Hu.
  { apply run_unique; [apply initial_wellFormed | constructor]. }
  destruct Hs as (_ & _ & _ & _ & Hreg). unfold removalsOf.
  set (s := run initial es) in *.
  destruct (stopTimeouts s !! key) as [r|] eqn:Er.
  - rewrite <- (length_fmap timer_id).
    apply (NoDup_constant _ r); [by apply NoDup_fmap_filter|].
    intros x (t & -> & [Hk Ht]%list_elem_of_filter)%list_elem_of_fmap.
    specialize (Hreg t Ht). rewrite Hk in Hreg. congruence.
  - rewrite filter_none; [simpl; lia|].
    intros t Ht Hk. specialize (Hreg t Ht). rewrite Hk in Hreg. congruence.
Qed.

Lemma unmount_no_timers s : wellFormed s → pending (unmount s) = [].
Proof.
  intros (_ & _ & _ & _ & Hreg). simpl. apply filter_none.
  intros t Ht Hout. apply Hout.
  apply list_elem_of_fmap. exists (timer_key t, timer_id t).
  split; [done|]. by apply elem_of_map_to_list, Hreg.
Qed.

Lemma timer_events_idle es s :
  pending s = [] → forallb isTimerEvent es = true →
  busyKeys (run s es) = busyKeys s ∧ pending (run s es) = [].
Proof.
  revert s. induction es as [|e es IH]; intros s Hp Hes; [done|].
  cbn [forallb] in Hes. apply andb_prop in Hes as [He Hes].
  change (run s (e :: es)) with (run (step s e) es).
  destruct e as [| |ms|id|]; try done; cbn [step].
  - by destruct (IH (advance ms s) Hp Hes) as [H1 H2].
  - rewrite fire_missing; [by apply IH|].
    intros t Ht. rewrite Hp in Ht. by apply elem_of_nil in Ht.
Qed.

(** X16. Unmounting the provider clears every pending removal, and the
    keys keep their place in the store: after any history, once the provider
    has unmounted, no passing of time and no timer changes the busy set, so a
    key that was waiting for its delayed removal stays busy. *)
Theorem unmount_freezes_keys (es es' : list Event) :
  forallb isTimerEvent es' = true →
  let s := run initial es in
  pending (unmount s) = [] ∧
  busyKeys (run (unmount s) es') = busyKeys s.
Proof.
  intros Hes'. cbv zeta.
  pose proof (unmount_no_timers _ (run_wellFormed es initial initial_wellFormed))
    as Hp.
  split; [done|]. by destruct (timer_events_idle es' _ Hp Hes') as [-> _].
Qed.

Lemma unmount_freezes_keys_witness :
  busyKeys (run (unmount (run initial [Start "save"; Stop "save"]))
              [Elapse 1000; Fire 1]) = ["save"].
Proof.
  exact (proj2 (unmount_freezes_keys [Start "save"; Stop "save"]
                  [Elapse 1000; Fire 1] eq_refl)).
Defined.

Lemma busy_startLoading k key s :
  busy key (startLoading k s) ↔ key = k ∨ busy key s.
Proof.
  unfold busy, startLoading. simpl. rewrite elem_of_addLoadingKey.
  destruct (forget_fields k (clearExisting k s)) as (-> & _).
  by destruct (clearExisting_fields k s) as (-> & _).
Qed.

Lemma busy_stopLoading k key s :
  (busy key (stopLoading k s) → busy key s) ∧
  (busy key s → key ≠ k → busy key (stopLoading k s)).
Proof.
  destruct (clearExisting_fields k s) as (Hw & _).
  unfold busy, stopLoading. case_decide; simpl.
  - by rewrite Hw.
  - rewrite elem_of_removeLoadingKey, Hw. tauto.
Qed.

Lemma busy_fire id key s :
  (busy key (fire id s) → busy key s) ∧
  (busy key s →
   (∀ t, t ∈ pending s → timer_id t = id → timer_key t ≠ key) →
   busy key (fire id s)).
Proof.
  unfold fire.
  destruct (list_find _ (pending s)) as [[i t]|] eqn:Hfind; [|done].
  case_decide; [|done].
  apply list_find_Some in Hfind as (Hi & Hid & _).
  apply list_elem_of_lookup_2 in Hi.
  unfold busy. simpl. rewrite elem_of_removeLoadingKey.
  split; [tauto|]. intros Hb Hother. split; [|done].
  intros ->. by apply (Hother t).
Qed.

(** X17. A key enters the busy set only by its own [startLoading], and
    leaves it only by its own removal: a [stopLoading] of that key or the
    running of a timer set for that key. Starting, stopping or removing
    other keys, the clock and unmounting never change whether it is busy. *)
Theorem busy_changes_by_own_events (s : State) (e : Event) (key : string) :
  (busy key (step s e) → busy key s ∨ e = Start key) ∧
  (busy key s → e ≠ Stop key →
   (∀ id t, e = Fire id → t ∈ pending s → timer_id t = id →
            timer_key t ≠ key) →
   busy key (step s e)).
Proof.
  destruct e as [k|k|ms|id|]; cbn [step].
  - split.
    + intros [->|H]%busy_startLoading; auto.
    + intros H _ _. apply busy_startLoading. by right.
  - destruct (busy_stopLoading k key s) as [H1 H2]. split; [auto|].
    intros Hb Hne _. apply H2; [done | congruence].
  - split; [auto | by intros].
  - destruct (busy_fire id key s) as [H1 H2]. split; [auto|].
    intros Hb _ Hother. apply H2; [done|]. intros t. by apply Hother.
  - split; [auto | by intros].
Qed.

Lemma busy_changes_by_own_events_witness :
  busy "a" (step (run initial [Start "a"; Start "b"]) (Stop "b")).
Proof.
  apply (proj2 (busy_changes_by_own_events
                  (run initial [Start "a"; Start "b"]) (Stop "b") "a")).
  - unfold busy. vm_compute. apply list_elem_of_here.
  - discriminate.
  - discriminate.
Defined.

(** X18. A [stopLoading] does end the busy state: after any history, if
    the key is stopped and nothing else happens to it, then 300 ms later,
    once the event loop has run the timer the stop set (if it set one), the
    key is not busy. *)
Theorem stop_ends_busy (es : list Event) (key : string) :
  let s := run initial es in
  ¬ busy key (run s [Stop key; Elapse 300; Fire (nextTimer s)]).
Proof.
  apply stopLoading_clears, run_wellFormed, initial_wellFormed.
Qed.

End BusyKeysMore.

(** ** More on the hydration controller *)

Section HydrationMore.

Import StoreData StoreHydration HydrationView.

Lemma mirror_setState f w : Store.mirror (Store.setState f w) = Store.mirror w.
Proof.
  unfold Store.setState. destruct (f (Store.store w)); [|done].
  destruct (Store.mirror w) eqn:E; simpl; [|done].
  unfold Store.persistenceListener. by destruct (0 <? _).
Qed.

Lemma mirror_run op w : Store.mirror (Store.run op w) = Store.mirror w.
Proof.
  destruct op; simpl; unfold Store.dispatch, Store.setTheme, Store.login,
    Store.logout, Store.addLoadingKey, Store.removeLoadingKey, Store.addToast,
    Store.removeToast, Store.log; simpl; apply mirror_setState.
Qed.

Lemma mirror_runEffect s :
  Store.mirror (world (runEffect s)) = Store.mirror (world s).
Proof. by destruct (runEffect_uiOnly s) as (_ & H & _). Qed.

Lemma mirror_deliver r s :
  Store.mirror (world (deliver r s)) = Store.mirror (world s).
Proof.
  destruct r as [b|message].
  - destruct (stopLoading_uiOnly "initBoards"
                (withWorld (Store.dispatch (SET_BOARDS b) (world s)) s))
      as (_ & H & _).
    unfold deliver. rewrite H. apply mirror_setState.
  - by destruct (deliver_rejected_uiOnly message s) as (_ & H & _).
Qed.

Lemma run_mirror (es : list Event) :
  Store.mirror (world (run initial es)) = mounted (run initial es).
Proof.
  induction es as [|e es IH] using rev_ind; [done|].
  rewrite run_app. cbn [run foldl]. set (s := run initial es) in *.
  destruct e as [| | |k r|op|e|digits]; cbn [step].
  - destruct (mounted s) eqn:E; cbv iota; [congruence | done].
  - destruct (mounted s) eqn:E; cbv iota; [|congruence].
    rewrite mirror_runEffect, mounted_runEffect.
    change (Store.mirror (world s) = mounted s). congruence.
  - destruct (mounted s) eqn:E; cbv iota; [done | congruence].
  - destruct (cancelled s !! k) as [[]|]; try done.
    by rewrite mirror_deliver, mounted_deliver.
  - change (Store.mirror (Store.run op (world s)) = mounted s).
    by rewrite mirror_run.
  - destruct (provider_step_uiOnly (provider s) e) as (_ & H & _).
    change (Store.mirror (UiContext.world (UiContext.step (provider s) e))
            = mounted s).
    by rewrite H.
  - done.
Qed.

(** X19. The persistence mirror is subscribed exactly while the controller
    is mounted, after any sequence of events. *)
Theorem mirror_while_mounted (es : list Event) :
  Store.mirror (world (run initial es)) = mounted (run initial es).
Proof. apply run_mirror. Qed.

Lemma step_latestLive s e : latestLive s → latestLive (step s e).
Proof.
  intros Hs. destruct e as [| | |k r|op|e|digits]; cbn [step].
  - destruct (mounted s) eqn:E; [exact Hs|].
    unfold latestLive. simpl. intros _. rewrite length_app. simpl.
    rewrite lookup_app_r by lia.
    by replace (length (cancelled s) + 1 - 1 - length (cancelled s)) with 0
      by lia.
  - destruct (mounted s) eqn:E; [|exact Hs].
    unfold latestLive. simpl. intros _.
    rewrite length_app, length_insert. simpl.
    rewrite lookup_app_r by (rewrite length_insert; lia).
    rewrite length_insert.
    by replace (length (cancelled s) + 1 - 1 - length (cancelled s)) with 0
      by lia.
  - destruct (mounted s) eqn:E; [|exact Hs]. unfold latestLive. simpl. done.
  - destruct (cancelled s !! k) as [[]|]; try exact Hs.
    unfold latestLive. by rewrite cancelled_deliver, mounted_deliver.
  - exact Hs.
  - exact Hs.
  - exact Hs.
Qed.

Lemma run_latestLive es : latestLive (run initial es).
Proof.
  induction es as [|e es IH] using rev_ind; [done|].
  rewrite run_app. by apply step_latestLive.
Qed.

(** X20. After any sequence of events, the attempt whose fetch result
    would be applied is the current one and only that one: an attempt's
    [cancelled] flag is false exactly when it is the latest attempt and the
    controller is mounted. *)
Theorem live_iff_current (es : list Event) (k : nat) :
  let s := run initial es in
  cancelled s !! k = Some false ↔ current s k.
Proof.
  cbv zeta. split.
  - apply live_is_current, run_consistent, initial_consistent.
  - intros [Hk Hm]. pose proof (run_latestLive es Hm) as Hlive.
    by replace (length (cancelled (run initial es)) - 1) with k in Hlive by lia.
Qed.

Lemma loadError_runEffect s : loadError (runEffect s) = None.
Proof. done. Qed.

Lemma loadError_deliver_rejected message s :
  loadError (deliver (Rejected message) s) = Some (errorMessage message).
Proof. done. Qed.

Lemma boards_deliver_rejected message s :
  Store.st_boards (Store.store (world (deliver (Rejected message) s))) =
  Store.st_boards (Store.store (world s)).
Proof. by destruct (deliver_rejected_uiOnly message s) as ((H & _) & _). Qed.

(** X21. What is shown after the current attempt's fetch has failed: the
    error screen with the message and the Retry button when the store has no
    boards and the message is not empty; the children when the store has
    boards (the failure is then only a toast); and also the children, with no
    way to retry, when the error's message is the empty string. A retry
    brings the children back. *)
Theorem error_screen_gate (es : list Event) (k : nat)
    (message : option string) :
  let s := run initial es in
  let s' := step s (Settle k (Rejected message)) in
  cancelled s !! k = Some false →
  (Store.st_boards (Store.store (world s)) = [] →
   errorMessage message ≠ "" →
   render s' = ErrorScreen (errorMessage message)) ∧
  (Store.st_boards (Store.store (world s)) ≠ [] → render s' = Children) ∧
  (message = Some "" → render s' = Children) ∧
  render (step s' Retry) = Children.
Proof.
  cbv zeta. intros Hk. set (s := run initial es) in *.
  assert (step s (Settle k (Rejected message)) = deliver (Rejected message) s)
    as -> by (cbn [step]; by rewrite Hk).
  unfold render at 1 2 3.
  rewrite loadError_deliver_rejected, boards_deliver_rejected.
  split_and!.
  - intros Hb Hne. rewrite Hb. simpl.
    apply String.eqb_neq in Hne. by rewrite Hne.
  - intros Hb.
    destruct (Store.st_boards (Store.store (world s))); [done|]. simpl.
    by rewrite andb_false_r.
  - by intros ->.
  - apply live_is_current in Hk as [_ Hm];
      [|apply run_consistent, initial_consistent]. cbn [step].
    rewrite mounted_deliver. subst s. rewrite Hm.
    unfold render. by rewrite loadError_runEffect.
Qed.

Lemma error_screen_gate_witness :
  render (run initial [Mount; Settle 0 (Rejected (Some "Network Error"))])
  = ErrorScreen "Network Error".
Proof.
  destruct (error_screen_gate [Mount] 0 (Some "Network Error") eq_refl)
    as (H & _).
  by apply H.
Defined.

(** X22. Apart from a successful fetch of a live attempt, nothing the
    controller or the Ui provider does changes the boards, the theme or the
    session in the store: mounting, retrying, unmounting, a failed fetch,
    the settlement of a cancelled attempt, the provider's callbacks and its
    timers touch only [loadingKeys] and [toasts], and whatever they cause
    to be written to storage is the unchanged boards once more. There is no
    fallback to other data. *)
Theorem controller_keeps_data (s : State) (e : Event) :
  (∀ op, e ≠ StoreOp op) →
  (∀ k b, e = Settle k (Fulfilled b) → cancelled s !! k ≠ Some false) →
  sameData (Store.store (world s)) (Store.store (world (step s e))) ∧
  ∃ n, Store.writes (world (step s e)) =
       Store.writes (world s) ++
       replicate n (Store.WriteBoards (Store.st_boards (Store.store (world s)))).
Proof.
  intros Hop Hlive.
  assert (∀ w, uiOnly (world s) w →
            sameData (Store.store (world s)) (Store.store w) ∧
            ∃ n, Store.writes w =
                 Store.writes (world s) ++
                 replicate n
                   (Store.WriteBoards (Store.st_boards (Store.store (world s)))))
    as Hui by (by intros w (? & _ & ?)).
  destruct e as [| | |k r|op|e|digits]; cbn [step].
  - destruct (mounted s); [apply Hui, uiOnly_refl|].
    exact (Hui (world (runEffect (freshInstance s)))
             (runEffect_uiOnly (freshInstance s))).
  - destruct (mounted s); [|apply Hui, uiOnly_refl].
    apply Hui, (runEffect_uiOnly (cleanupEffect (bumpRetry s))).
  - destruct (mounted s); exact (Hui (world s) (uiOnly_refl _)).
  - destruct (cancelled s !! k) as [[]|] eqn:E; try apply Hui, uiOnly_refl.
    destruct r as [b|m]; [by destruct (Hlive k b eq_refl)|].
    apply Hui, deliver_rejected_uiOnly.
  - by destruct (Hop op).
  - apply Hui, provider_step_uiOnly.
  - apply Hui, uiOnly_refl.
Qed.

Lemma controller_keeps_data_witness :
  let s := run initial [Mount; Settle 0 (Rejected (Some "Network Error"))] in
  sameData (Store.store (world s)) (Store.store (world (step s Retry))) ∧
  ∃ n, Store.writes (world (step s Retry)) =
       Store.writes (world s) ++
       replicate n (Store.WriteBoards (Store.st_boards (Store.store (world s)))).
Proof.
  apply (controller_keeps_data
           (run initial [Mount; Settle 0 (Rejected (Some "Network Error"))])
           Retry); discriminate.
Defined.





End HydrationMore.

(** ** The board and task forms *)

Section FormsFacts.

Import Js Forms.

Lemma trim_start_head s :
  trim_start s = "" ∨
  ∃ c r, trim_start s = String c r ∧ is_white c = false.
Proof.
  induction s as [|c s IH]; [by left|]. cbn [trim_start].
  destruct (is_white c) eqn:E; [exact IH|]. right. by exists c, s.
Qed.

Lemma trim_end_head c r :
  is_white c = false → ∃ r', trim_end (String c r) = String c r'.
Proof.
  intros Hc. cbn [trim_end]. rewrite Hc.
  destruct (trim_end r); by eexists.
Qed.

Lemma trim_end_idem s : trim_end (trim_end s) = trim_end s.
Proof.
  induction s as [|c s IH]; [done|]. cbn [trim_end].
  destruct (trim_end s) as [|d r] eqn:E.
  - destruct (is_white c) eqn:Hc; [done|]. cbn [trim_end]. by rewrite Hc.
  - change (trim_end (String c (String d r))) with
      (match trim_end (String d r) with
       | EmptyString => if is_white c then "" else String c ""
       | x => String c x
       end).
    by rewrite IH.
Qed.

Lemma trim_idem s : trim (trim s) = trim s.
Proof.
  unfold trim. destruct (trim_start_head s) as [->|(c & r & -> & Hc)]; [done|].
  destruct (trim_end_head c r Hc) as [r' Hr]. rewrite Hr.
  cbn [trim_start]. rewrite Hc. rewrite <- Hr. apply trim_end_idem.
Qed.

Lemma length_pos s : 0 < String.length s ↔ s ≠ "".
Proof. destruct s; simpl; split; first [done | lia]. Qed.

Lemma clean_trim s : trim s ≠ "" → clean (trim s).
Proof. intros H. split; [apply trim_idem | done]. Qed.

Lemma cleaned_cons s l :
  cleaned (s :: l) =
  if decide (trim s = "") then cleaned l else trim s :: cleaned l.
Proof.
  unfold cleaned. rewrite fmap_cons, filter_cons.
  destruct (decide (0 < String.length (trim s))) as [H|H];
    apply length_pos in H || (rewrite length_pos in H);
    case_decide; first [done | by destruct H].
Qed.

Lemma cleaned_clean l : Forall clean (cleaned l).
Proof.
  induction l as [|s l IH]; [constructor|]. rewrite cleaned_cons.
  case_decide; [done|]. constructor; [by apply clean_trim | done].
Qed.

Lemma cleaned_id l : Forall clean l → cleaned l = l.
Proof.
  induction 1 as [|s l [Hs Hne] _ IH]; [done|]. rewrite cleaned_cons, Hs.
  rewrite decide_False by done. by rewrite IH.
Qed.

Lemma cleaned_nil l : cleaned l = [] ↔ Forall (λ c, trim c = "") l.
Proof.
  induction l as [|s l IH]; [done|]. rewrite cleaned_cons. case_decide.
  - rewrite IH. split; [by constructor | by inversion 1].
  - split; [done | by inversion 1].
Qed.

Lemma cleaned_fmap_trim l : cleaned (trim <$> l) = cleaned l.
Proof.
  induction l as [|s l IH]; [done|].
  by rewrite fmap_cons, !cleaned_cons, trim_idem, IH.
Qed.

(** The first element carrying a key is the element itself when keys are
    not repeated. *)
Lemma list_find_self {A} (f : A → string) (l : list A) :
  NoDup (f <$> l) →
  Forall (λ x, ∃ i, list_find (λ y, f y = f x) l = Some (i, x)) l.
Proof.
  induction l as [|a l IH]; [constructor|]. rewrite fmap_cons, NoDup_cons.
  intros [Ha Hl]. constructor.
  - exists 0. simpl. by rewrite decide_True.
  - specialize (IH Hl). rewrite Forall_forall in IH |- *. intros x Hx.
    destruct (IH x Hx) as [i Hi]. exists (S i). simpl.
    rewrite decide_False.
    + by rewrite Hi.
    + intros E. apply Ha. rewrite E. by apply list_elem_of_fmap_2.
Qed.

Lemma fmap_fixed {A B} (g : A → B) (f : B → A) (l : list A) :
  Forall (λ x, f (g x) = x) l → f <$> (g <$> l) = l.
Proof. induction 1 as [|x l Hx _ IH]; [done|]. by rewrite !fmap_cons, Hx, IH. Qed.

End FormsFacts.

(** *** The board forms *)

Section BoardForms.

Import Js Forms CurrentBoard.

(** X24. When the add-board form holds a name and at least one column
    name that are not blank, exactly one action is dispatched, ADD_BOARD.
    The board's name is the trimmed name; its columns are the non-blank
    column names, trimmed and in order, each without tasks; the modal is
    closed; and the route navigated to is the one for index
    [boards.length], which the current-board hook reads as that index: the
    place the new board takes when it is appended to the list. *)
Theorem addBoard_accepted (boards : list Board) (name : string)
    (columns : list string) :
  trim name ≠ "" → (∃ c, c ∈ columns ∧ trim c ≠ "") →
  let calls := AddBoardModal.handleSubmit boards name columns in
  let b := AddBoardModal.newBoard name columns in
  filter (λ c, isDispatch c = true) calls = [Dispatch (ADD_BOARD b)] ∧
  clean (board_name b) ∧ board_name b = trim name ∧
  board_columns b ≠ [] ∧
  Forall (λ c, clean (col_name c) ∧ col_tasks c = []) (board_columns b) ∧
  col_name <$> board_columns b = cleaned columns ∧
  OnClose ∈ calls ∧
  Navigate ("/board/" +:+ of_index (length boards)) ∈ calls ∧
  useCurrentBoard (boards ++ [b]) (Some (of_index (length boards))) =
    mkResult (Some b) (Some (Num (Z.of_nat (length boards)))).
Proof.
  intros Hname (c & Hc & Hcne). cbv zeta.
  assert (cleaned columns ≠ []) as Hcols.
  { rewrite cleaned_nil, Forall_forall. intros H. by apply Hcne, H. }
  unfold AddBoardModal.handleSubmit.
  rewrite !(decide_False (P := trim name = "")) by done.
  rewrite !(decide_False (P := length (cleaned columns) = 0))
    by (by destruct (cleaned columns)).
  cbn [app]. split_and!.
  - done.
  - by apply clean_trim.
  - done.
  - simpl. by destruct (cleaned columns).
  - simpl. rewrite Forall_fmap. eapply Forall_impl; [apply cleaned_clean|].
    by intros s Hs.
  - simpl. rewrite <- list_fmap_compose. apply list_fmap_id.
  - set_solver.
  - set_solver.
  - unfold useCurrentBoard.
    rewrite digits_only_index, parseInt_index, boardAt_index.
    by rewrite lookup_app_r, Nat.sub_diag by lia.
Qed.

Lemma addBoard_accepted_witness :
  filter (λ c, isDispatch c = true)
    (AddBoardModal.handleSubmit one_board " Roadmap " ["Now"; "  "; "Next "])
  = [Dispatch (ADD_BOARD (mkBoard "Roadmap"
                            [mkColumn "Now" []; mkColumn "Next" []]))].
Proof.
  destruct (addBoard_accepted one_board " Roadmap " ["Now"; "  "; "Next "])
    as (H & _); [discriminate | | exact H].
  exists "Now". split; [set_solver | discriminate].
Defined.

(** X25. When the name of the add-board form is blank or every column
    name is blank, nothing is dispatched: the handler shows one error toast
    for each missing part, records the same number of field errors, and does
    nothing else. The modal stays open, nothing is navigated to and no busy
    key is started. *)
Theorem addBoard_rejected (boards : list Board) (name : string)
    (columns : list string) :
  trim name = "" ∨ Forall (λ c, trim c = "") columns →
  ∃ toasts errors,
    AddBoardModal.handleSubmit boards name columns =
      toasts ++ [SetErrors errors] ∧
    Forall (λ c, ∃ message, c = ShowToast error message) toasts ∧
    length toasts = length errors ∧ errors ≠ [].
Proof.
  rewrite <- cleaned_nil. intros H. unfold AddBoardModal.handleSubmit.
  destruct (decide (trim name = "")) as [Hn|Hn];
    destruct (decide (length (cleaned columns) = 0)) as [Hc|Hc].
  - eexists [_; _], _. split; [reflexivity|].
    split_and!; [|done|done]. repeat constructor; by eexists.
  - eexists [_], _. split; [reflexivity|].
    split_and!; [|done|done]. repeat constructor; by eexists.
  - eexists [_], _. split; [reflexivity|].
    split_and!; [|done|done]. repeat constructor; by eexists.
  - destruct H as [H|H]; [done|]. by rewrite H in Hc.
Qed.

Lemma addBoard_rejected_witness :
  ∃ toasts errors,
    AddBoardModal.handleSubmit one_board "   " ["Todo"; "Doing"] =
      toasts ++ [SetErrors errors] ∧
    Forall (λ c, ∃ message, c = ShowToast error message) toasts ∧
    length toasts = length errors ∧ errors ≠ [].
Proof.
  apply (addBoard_rejected one_board "   " ["Todo"; "Doing"]).
  left. reflexivity.
Defined.

End BoardForms.

Section EditBoardForm.

Import Js Forms EditBoardModal.

Lemma updatedColumn_self (b : Board) :
  NoDup (columnNames b) →
  Forall (λ c, updatedColumn b (col_name c) = c) (board_columns b).
Proof.
  intros Hnd. apply (list_find_self col_name) in Hnd.
  eapply Forall_impl; [exact Hnd|]. intros c [i Hi].
  unfold updatedColumn, findColumn. rewrite Hi. by destruct c.
Qed.

(** X26. Saving the edit-board form with the original board's own name
    and column names in it changes nothing, for a board whose name and column
    names are not blank and carry no white space at their ends and whose
    column names are all different: the board built for UPDATE_BOARD is the
    original board, with every task in place. With two columns of the same
    name it is not: the second one comes back with the tasks of the first. *)
Theorem editBoard_unchanged_form :
  (∀ b, clean (board_name b) → Forall clean (columnNames b) →
        NoDup (columnNames b) →
        updatedBoard b (board_name b) (columnNames b) = b) ∧
  (∀ name n ts1 ts2, clean name → clean n →
     updatedBoard (mkBoard name [mkColumn n ts1; mkColumn n ts2]) name [n; n]
     = mkBoard name [mkColumn n ts1; mkColumn n ts1]).
Proof.
  split.
  - intros [name cols] [Hn Hne] Hclean Hnd.
    unfold updatedBoard. cbn [board_name] in *. rewrite Hn.
    rewrite decide_False by done. f_equal.
    rewrite cleaned_id by done. unfold columnNames. cbn [board_columns].
    apply fmap_fixed, (updatedColumn_self (mkBoard name cols) Hnd).
  - intros name n ts1 ts2 [Hn Hne] Hc. unfold updatedBoard.
    cbn [board_name]. rewrite Hn, decide_False by done. f_equal.
    rewrite cleaned_id by (repeat (constructor; [exact Hc|]); constructor).
    unfold updatedColumn, findColumn. simpl. by rewrite decide_True.
Qed.

Lemma editBoard_unchanged_form_witness :
  updatedBoard form_board "Launch" ["Todo"; "Done"] = form_board.
Proof.
  apply (proj1 editBoard_unchanged_form form_board).
  - split; [reflexivity | discriminate].
  - repeat constructor; discriminate.
  - apply (bool_decide_unpack _). vm_compute. exact I.
Defined.

(** X27. The edit-board form carries tasks over by column name only. The
    columns of the saved board are the non-blank names of the form, trimmed
    and in order; each of them has either no tasks or the tasks of a column
    of that name in the original board; a name that the original board does
    not have gets no tasks, so renaming a column drops its tasks. Nothing is
    validated: with every column name blank the saved board has no columns,
    and a blank board name keeps the old name. *)
Theorem editBoard_columns (b : Board) (name : string) (columns : list string) :
  let b' := updatedBoard b name columns in
  col_name <$> board_columns b' = cleaned columns ∧
  Forall (λ c, col_tasks c = [] ∨
               ∃ c0, c0 ∈ board_columns b ∧ col_name c0 = col_name c ∧
                     col_tasks c0 = col_tasks c)
    (board_columns b') ∧
  (∀ c, c ∈ board_columns b' → col_name c ∉ columnNames b →
        col_tasks c = []) ∧
  (Forall (λ c, trim c = "") columns → board_columns b' = []) ∧
  (trim name = "" → board_name b' = board_name b) ∧
  (trim name ≠ "" → board_name b' = trim name).
Proof.
  cbv zeta. unfold updatedBoard. cbn [board_columns board_name].
  assert (∀ s, col_name (updatedColumn b s) = s) as Hname.
  { intros s. unfold updatedColumn. by destruct (findColumn _ _) as [[]|]. }
  assert (∀ s, col_tasks (updatedColumn b s) = [] ∨
               ∃ c0, c0 ∈ board_columns b ∧ col_name c0 = s ∧
                     col_tasks c0 = col_tasks (updatedColumn b s)) as Htasks.
  { intros s. unfold updatedColumn.
    destruct (findColumn s (board_columns b)) as [[i c0]|] eqn:E; [|by left].
    right. exists c0. apply findColumn_Some in E as [Hi Hc0].
    split_and!; [by eapply list_elem_of_lookup_2 | done | done]. }
  split_and!.
  - rewrite <- list_fmap_compose. rewrite <- (list_fmap_id (cleaned columns)) at 2.
    apply list_fmap_ext. intros i s _. apply Hname.
  - rewrite Forall_fmap. apply Forall_forall. intros s _. simpl.
    rewrite Hname. apply Htasks.
  - intros c [s [-> _]]%list_elem_of_fmap_1. rewrite Hname. intros Hs.
    destruct (Htasks s) as [H|(c0 & Hc0 & Hn & _)]; [done|].
    destruct Hs. rewrite <- Hn. by apply list_elem_of_fmap_2.
  - intros H. apply cleaned_nil in H. by rewrite H.
  - intros H. by rewrite decide_True.
  - intros H. by rewrite decide_False.
Qed.

Lemma editBoard_columns_witness :
  board_columns (updatedBoard form_board "Launch" [" "; ""]) = [].
Proof.
  apply (proj1 (proj2 (proj2 (proj2
           (editBoard_columns form_board "Launch" [" "; ""]))))).
  repeat constructor.
Defined.

End EditBoardForm.

(** *** The task forms *)

Section TaskForms.

Import Js Forms BoardsService TaskForm.

Lemma validateTaskForm_nil values columns :
  validateTaskForm values columns = [] ↔
  trim (title values) ≠ "" ∧
  String.length (trim (title values)) ≤ 100 ∧
  String.length (trim (description values)) ≤ 500 ∧
  status values ≠ "" ∧ status values ∈ value <$> columns.
Proof.
  unfold validateTaskForm, MAX_TITLE_LENGTH, MAX_DESCRIPTION_LENGTH.
  repeat case_decide; simpl;
    (split;
     [intros Hnil; first [discriminate Hnil | split_and!; first [done | lia]]
     |intros (? & ? & ? & ? & ?); first [done | lia]]).
Qed.

Ltac dispatch_in H :=
  repeat (apply elem_of_cons in H as [H|H]; [try discriminate H|]);
  try (by apply elem_of_nil in H).

(** X28. The add-task form dispatches only ADD_TASK, and only for a
    validated task on a known board: the title is trimmed, not empty and at
    most 100 characters long, the trimmed description at most 500, the status
    is one of the column options and is also the column the task is added to,
    the subtasks are the non-blank ones of the form, trimmed, in order and not
    completed, and the id is a freshly generated one. When nothing is
    dispatched no id is generated. *)
Theorem addTask_submit (boardIndex : option nat)
    (columnOptions : list ColumnOption) (values : TaskFormValues)
    (g : IdSource) :
  let r := AddTaskModal.submit boardIndex columnOptions values g in
  (∀ action, Dispatch action ∈ r.1 →
     ∃ i t subs,
       boardIndex = Some i ∧ action = ADD_TASK i (status values) t ∧
       status values ∈ value <$> columnOptions ∧
       task_id t = (generateTaskId g).1 ∧ r.2 = (generateTaskId g).2 ∧
       task_title t = trim (title values) ∧ clean (task_title t) ∧
       String.length (task_title t) ≤ 100 ∧
       task_description t = Some (trim (description values)) ∧
       String.length (trim (description values)) ≤ 500 ∧
       task_status t = Some (status values) ∧
       task_subtasks t = Some subs ∧
       sub_title <$> subs = cleaned (subtasks values) ∧
       Forall (λ subtask, isCompleted subtask = false) subs) ∧
  ((∀ action, Dispatch action ∉ r.1) → r.2 = g).
Proof.
  cbv zeta. unfold AddTaskModal.submit, handleSubmit.
  destruct (validateTaskForm values columnOptions) as [|e errs] eqn:E.
  - apply validateTaskForm_nil in E as (Ht & Htl & Hdl & Hs & Hin).
    destruct boardIndex as [i|]; simpl.
    + split.
      * intros action H. dispatch_in H. injection H as ->.
        eexists i, _, _. split_and!; try reflexivity; try done.
        -- simpl. by rewrite trim_idem.
        -- simpl. rewrite trim_idem. by apply clean_trim.
        -- simpl. by rewrite trim_idem.
        -- simpl. by rewrite trim_idem.
        -- by rewrite <- list_fmap_compose, list_fmap_id.
        -- rewrite Forall_fmap. by apply Forall_forall.
      * intros H. destruct (H (ADD_TASK i (status values)
          (AddTaskModal.newTask (generateTaskId g).1 (nextValues values)))).
        do 2 apply list_elem_of_further. apply list_elem_of_here.
    + split; [|done]. intros action H. dispatch_in H.
  - simpl. split; [|done]. intros action H. dispatch_in H.
Qed.

Lemma addTask_submit_witness :
  ∃ i t subs,
    Some 0 = Some i ∧
    ADD_TASK 0 "Todo"
      (mkTask "task-42-k3x9q2a" "Write docs" (Some "") (Some "Todo")
         (Some [mkSubtask "Outline" false])) = ADD_TASK i "Todo" t ∧
    task_subtasks t = Some subs ∧
    Forall (λ subtask, isCompleted subtask = false) subs.
Proof.
  destruct (proj1 (addTask_submit (Some 0) form_options
                     (mkValues " Write docs " "" "Todo" ["Outline"; " "])
                     fixed_ids)
              (ADD_TASK 0 "Todo"
                 (mkTask "task-42-k3x9q2a" "Write docs" (Some "") (Some "Todo")
                    (Some [mkSubtask "Outline" false]))))
    as (i & t & subs & H1 & H2 & _ & _ & _ & _ & _ & _ & _ & _ & _ & H3 & _ & H4).
  - do 2 apply list_elem_of_further. apply list_elem_of_here.
  - by exists i, t, subs.
Defined.

Lemma editTask_resolved boards boardIndex columnName taskTitle t :
  EditTaskModal.task boards boardIndex columnName taskTitle = Some t →
  ∃ i cn tn b ci c ti,
    boardIndex = Some i ∧ columnName = Some cn ∧ taskTitle = Some tn ∧
    cn ≠ "" ∧ tn ≠ "" ∧ boards !! i = Some b ∧
    findColumn cn (board_columns b) = Some (ci, c) ∧
    findTask tn (col_tasks c) = Some (ti, t).
Proof.
  unfold EditTaskModal.task, EditTaskModal.column, EditTaskModal.board.
  destruct boardIndex as [i|]; [|done].
  destruct (boards !! i) as [b|] eqn:Eb; [|done].
  destruct columnName as [cn|]; [|done].
  destruct (decide (cn = "")) as [|Hcn]; [done|].
  destruct (findColumn cn (board_columns b)) as [[ci c]|] eqn:Ec; [|done].
  simpl. destruct taskTitle as [tn|]; [|done].
  destruct (decide (tn = "")) as [|Htn]; [done|].
  destruct (findTask tn (col_tasks c)) as [[ti t']|] eqn:Et; [|done].
  simpl. intros [= ->]. by exists i, cn, tn, b, ci, c, ti.
Qed.

(** X29. The edit-task form dispatches only UPDATE_TASK, and only for a
    task that was found: the board index, the column name and the task title
    the modal was opened with resolve to a task, looked up by first match.
    The action is addressed to that column and that title, whatever status
    the form holds; the status only becomes the task's status field. The
    task keeps its id, the title is trimmed and not empty, and the subtasks
    are the non-blank ones of the form, trimmed, each with the completion of
    the first old subtask of the same title, or not completed. No id is
    generated. *)
Theorem editTask_submit (boards : list Board)
    (columnOptions : list ColumnOption) (boardIndex : option nat)
    (columnName taskTitle : option string) (values : TaskFormValues)
    (g : IdSource) (action : BoardsAction) :
  let r := EditTaskModal.submit boards columnOptions boardIndex columnName
             taskTitle values g in
  Dispatch action ∈ r.1 →
  ∃ i cn tn b ci c ti t t' subs,
    boardIndex = Some i ∧ columnName = Some cn ∧ taskTitle = Some tn ∧
    boards !! i = Some b ∧
    findColumn cn (board_columns b) = Some (ci, c) ∧
    findTask tn (col_tasks c) = Some (ti, t) ∧
    action = UPDATE_TASK i cn tn t' ∧
    task_id t' = task_id t ∧
    task_status t' = Some (status values) ∧
    status values ∈ value <$> columnOptions ∧
    task_title t' = trim (title values) ∧ clean (task_title t') ∧
    task_description t' = Some (trim (description values)) ∧
    task_subtasks t' = Some subs ∧
    sub_title <$> subs = cleaned (subtasks values) ∧
    Forall (λ subtask, isCompleted subtask =
                       EditTaskModal.completionOf t (sub_title subtask)) subs ∧
    r.2 = g.
Proof.
  cbv zeta. unfold EditTaskModal.submit, handleSubmit.
  destruct (validateTaskForm values columnOptions) as [|e errs] eqn:E;
    [|intros H; simpl in H; dispatch_in H].
  apply validateTaskForm_nil in E as (Ht & Htl & Hdl & Hs & Hin).
  unfold bind, EditTaskModal.handleSubmit.
  destruct (EditTaskModal.task boards boardIndex columnName taskTitle)
    as [t|] eqn:Etask.
  - destruct (editTask_resolved _ _ _ _ _ Etask)
      as (i & cn & tn & b & ci & c & ti & -> & -> & -> & Hcn & Htn & Hb & Hc
          & Hti).
    unfold EditTaskModal.effectiveColumnName.
    rewrite !decide_False by done. simpl. intros H. dispatch_in H.
    injection H as ->.
    eexists i, cn, tn, b, ci, c, ti, t, _, _.
    split_and!; try reflexivity; try done.
    + simpl. by rewrite trim_idem.
    + simpl. rewrite trim_idem. by apply clean_trim.
    + simpl. by rewrite trim_idem.
    + simpl. rewrite cleaned_fmap_trim.
      by rewrite <- list_fmap_compose, list_fmap_id.
    + rewrite Forall_fmap. by apply Forall_forall.
  - intros H.
    assert (Dispatch action ∈ EditTaskModal.failure) as H'; [|dispatch_in H'].
    destruct boardIndex, taskTitle; simpl in H; dispatch_in H.
Qed.

Lemma editTask_submit_witness :
  ∃ t', UPDATE_TASK 0 "Todo" "Build UI"
          (mkTask "task-1" "Build the UI" (Some "") (Some "Done")
             (Some [mkSubtask "Header" true; mkSubtask "Menu" false]))
        = UPDATE_TASK 0 "Todo" "Build UI" t' ∧
        task_id t' = "task-1" ∧ task_status t' = Some "Done".
Proof.
  destruct (editTask_submit [form_board] form_options (Some 0) (Some "Todo")
              (Some "Build UI")
              (mkValues "Build the UI " "" "Done" [" Header"; ""; "Menu"])
              fixed_ids
              (UPDATE_TASK 0 "Todo" "Build UI"
                 (mkTask "task-1" "Build the UI" (Some "") (Some "Done")
                    (Some [mkSubtask "Header" true; mkSubtask "Menu" false]))))
    as (i & cn & tn & b & ci & c & ti & t & t' & subs & _ & _ & _ & _ & _ & _
        & H & _ & H' & _).
  - do 2 apply list_elem_of_further. apply list_elem_of_here.
  - exists t'. injection H as <- <- <- <-. by split_and!.
Defined.

Lemma completionOf_self (t : Task) (subs : list Subtask) :
  task_subtasks t = Some subs → NoDup (sub_title <$> subs) →
  Forall (λ subtask,
            mkSubtask (sub_title subtask)
              (EditTaskModal.completionOf t (sub_title subtask)) = subtask)
    subs.
Proof.
  intros Hsubs Hnd. apply (list_find_self sub_title) in Hnd.
  eapply Forall_impl; [exact Hnd|]. intros subtask [i Hi].
  unfold EditTaskModal.completionOf. rewrite Hsubs, Hi. by destruct subtask.
Qed.

Lemma updatedTask_initial (boards : list Board)
    (columnOptions : list ColumnOption) (boardIndex : option nat)
    (columnName taskTitle : option string) (t : Task) d s subs :
  EditTaskModal.task boards boardIndex columnName taskTitle = Some t →
  clean (task_title t) →
  task_description t = Some d → trim d = d →
  task_status t = Some s →
  task_subtasks t = Some subs →
  Forall clean (sub_title <$> subs) → NoDup (sub_title <$> subs) →
  EditTaskModal.updatedTask t
    (nextValues (EditTaskModal.initialValues boards columnOptions
                   boardIndex columnName taskTitle)) = t.
Proof.
  intros Ht [Htitle _] Hd Hdt Hs Hsubs Hclean Hnd.
  unfold EditTaskModal.initialValues. rewrite Ht.
  unfold EditTaskModal.updatedTask, nextValues. simpl.
  rewrite Hd, Hs, Hsubs. simpl.
  rewrite !trim_idem, Htitle, !Hdt, cleaned_fmap_trim.
  rewrite cleaned_id by done.
  rewrite (fmap_fixed sub_title
             (λ x, mkSubtask x (EditTaskModal.completionOf t x)))
    by by apply completionOf_self.
  destruct t; simpl in *. congruence.
Qed.

(** X30. Saving the edit-task form as it opened dispatches UPDATE_TASK
    with the task itself, every subtask keeping its completion, for a task
    that was found and that the form accepts as it is: its title is trimmed,
    not empty and at most 100 characters long, its description is present,
    trimmed and at most 500 characters long, its status is one of the column
    options, and its subtasks have trimmed, non-empty and pairwise different
    titles. A task stored without a description does not come back as it
    was: it gets the empty description. *)
Theorem editTask_unchanged_form (boards : list Board)
    (columnOptions : list ColumnOption) (boardIndex : option nat)
    (columnName taskTitle : option string) (t : Task) (g : IdSource) :
  let values := EditTaskModal.initialValues boards columnOptions
                  boardIndex columnName taskTitle in
  EditTaskModal.task boards boardIndex columnName taskTitle = Some t →
  (∀ d s subs,
     clean (task_title t) → String.length (task_title t) ≤ 100 →
     task_description t = Some d → trim d = d → String.length d ≤ 500 →
     task_status t = Some s → s ≠ "" → s ∈ value <$> columnOptions →
     task_subtasks t = Some subs →
     Forall clean (sub_title <$> subs) → NoDup (sub_title <$> subs) →
     ∃ i cn tn,
       boardIndex = Some i ∧ columnName = Some cn ∧ taskTitle = Some tn ∧
       (EditTaskModal.submit boards columnOptions boardIndex columnName
          taskTitle values g).1 =
       [SetErrors []; StartLoading "editTask";
        Dispatch (UPDATE_TASK i cn tn t);
        ShowToast success "Task changes saved";
        StopLoading "editTask"; OnClose]) ∧
  (task_description t = None →
   task_description (EditTaskModal.updatedTask t (nextValues values)) =
     Some "").
Proof.
  cbv zeta. intros Ht. split.
  - intros d s subs Htitle Htl Hd Hdt Hdl Hs Hsne Hsin Hsubs Hclean Hnd.
    pose proof (updatedTask_initial _ columnOptions _ _ _ _ _ _ _
                  Ht Htitle Hd Hdt Hs Hsubs Hclean Hnd) as Hsame.
    destruct (editTask_resolved _ _ _ _ _ Ht)
      as (i & cn & tn & b & ci & c & ti & -> & -> & -> & Hcn & Htn & _).
    exists i, cn, tn. split_and!; try done.
    unfold EditTaskModal.submit, handleSubmit.
    assert (validateTaskForm
              (EditTaskModal.initialValues boards columnOptions (Some i)
                 (Some cn) (Some tn)) columnOptions = []) as ->.
    { apply validateTaskForm_nil. unfold EditTaskModal.initialValues.
      rewrite Ht. simpl. rewrite Hd, Hs. simpl.
      destruct Htitle as [Htrim Hne]. rewrite Htrim, Hdt. by split_and!. }
    unfold bind, EditTaskModal.handleSubmit. rewrite Ht.
    unfold EditTaskModal.effectiveColumnName.
    rewrite !decide_False by done. simpl. by rewrite Hsame.
  - intros Hd. unfold EditTaskModal.initialValues. rewrite Ht. simpl.
    by rewrite Hd.
Qed.

Lemma editTask_unchanged_form_witness :
  ∃ i cn tn,
    Some 0 = Some i ∧ Some "Todo" = Some cn ∧ Some "Build UI" = Some tn ∧
    (EditTaskModal.submit [form_board] form_options (Some 0) (Some "Todo")
       (Some "Build UI")
       (EditTaskModal.initialValues [form_board] form_options (Some 0)
          (Some "Todo") (Some "Build UI")) fixed_ids).1 =
    [SetErrors []; StartLoading "editTask";
     Dispatch (UPDATE_TASK i cn tn form_task);
     ShowToast success "Task changes saved";
     StopLoading "editTask"; OnClose].
Proof.
  apply (proj1 (editTask_unchanged_form [form_board] form_options (Some 0)
                  (Some "Todo") (Some "Build UI") form_task fixed_ids eq_refl)
           "Header and footer" "Todo"
           [mkSubtask "Header" true; mkSubtask "Footer" false]);
    try reflexivity.
  - split; [reflexivity | discriminate].
  - vm_compute. lia.
  - vm_compute. lia.
  - discriminate.
  - apply list_elem_of_here.
  - repeat constructor; discriminate.
  - apply (bool_decide_unpack _). vm_compute. exact I.
Defined.

End TaskForms.
